(** * Console capture and detection engine of tcfl/target_ext_console.py

    A shallow embedding of the client-side console engine: the poll
    state kept in the [buffers_poll] dictionary, the poller ([_poll]),
    the detector ([detect]), the pattern normalisation ([regex_set]),
    the console writer ([extension.write]) and the continuous reader
    ([_console_reader_c.read], [_console_read_thread_fn]).

    Python values are modelled as the code uses them: integers as [Z],
    [bytes] as [list byte], [str] as a list of code points, dictionaries
    as [gmap], exceptions as a sum type, and everything the code does to
    the outside (transport calls, files, the terminal, sleeping) as
    explicit state or as a trace of events. *)

From Stdlib Require Import ZArith NArith QArith List Bool String Ascii Lia.
From Stdlib Require Import Strings.Byte.
From stdpp Require Import gmap strings list.

Local Open Scope Z_scope.

(** ** Python values *)

(** [bytes] objects. *)
Definition bytes := list byte.

(** [str] objects: sequences of Unicode code points. *)
Definition pystr := list N.

Definition bytes_of_string (s : string) : bytes := list_byte_of_string s.

Definition pystr_of_string (s : string) : pystr :=
  map Byte.to_N (list_byte_of_string s).

(** len() of a bytes object, as a Python integer. *)
Definition blen (b : bytes) : Z := Z.of_nat (length b).

(** Exceptions raised by the modelled code.  The [tag] of a transport
    exception tells one exception object from another. *)
Inductive exn :=
| AssertionError (msg : string)
| AttributeError (msg : string)
| TypeError (msg : string)
| ValueError (msg : string)
| LookupError (msg : string)
| RuntimeError (msg : string)
| KeyError (key : string)
| UnicodeEncodeError
| ZeroDivisionError
| re_error (msg : string)
| ReadTimeout (tag : nat)
| HTTPError (tag : nat)
| ConnectionError (tag : nat)
| blocked_e (msg : string) (cause : exn)
| OtherError (tag : nat).

Inductive result (A : Type) :=
| Ok (a : A)
| Raise (e : exn).
Arguments Ok {A} a.
Arguments Raise {A} e.

Definition rbind {A B} (r : result A) (k : A -> result B) : result B :=
  match r with
  | Ok a => k a
  | Raise e => Raise e
  end.

Notation "'try!' x <- r ; k" := (rbind r (fun x => k))
  (at level 10, x name, r at level 100, k at level 200).

(** ** str.encode('utf-8') *)

Module Utf8.

Definition byte_of (n : N) : byte :=
  match Byte.of_N (N.land n 255) with
  | Some b => b
  | None => x00
  end.

Definition is_surrogate (c : N) : bool :=
  ((55296 <=? c) && (c <=? 57343))%N.

(** The UTF-8 bytes of one code point; [None] for a lone surrogate,
    which UTF-8 cannot encode. *)
Definition encode_cp (c : N) : option bytes :=
  if (c <? 128)%N then Some [byte_of c]
  else if (c <? 2048)%N then
    Some [byte_of (N.lor 192 (N.shiftr c 6));
          byte_of (N.lor 128 (N.land c 63))]
  else if (c <? 65536)%N then
    if is_surrogate c then None
    else Some [byte_of (N.lor 224 (N.shiftr c 12));
               byte_of (N.lor 128 (N.land (N.shiftr c 6) 63));
               byte_of (N.lor 128 (N.land c 63))]
  else
    Some [byte_of (N.lor 240 (N.land (N.shiftr c 18) 7));
          byte_of (N.lor 128 (N.land (N.shiftr c 12) 63));
          byte_of (N.lor 128 (N.land (N.shiftr c 6) 63));
          byte_of (N.lor 128 (N.land c 63))].

(** [s.encode('utf-8', errors = handler)]: the error handler is only
    looked up when a code point cannot be encoded; [on_error] is what
    happens then. *)
Fixpoint encode_with (on_error : exn) (s : pystr) : result bytes :=
  match s with
  | [] => Ok []
  | c :: s' =>
      match encode_cp c with
      | None => Raise on_error
      | Some bs => try! rest <- encode_with on_error s'; Ok (bs ++ rest)
      end
  end.

(** The default handler, 'strict'. *)
Definition encode (s : pystr) : result bytes :=
  encode_with UnicodeEncodeError s.

End Utf8.

(** ** The [re] module on bytes patterns

    [escape] is [re.escape] (as from Python 3.7: only the special
    characters are quoted); [parse] is what [re.compile] does for the
    part of the pattern language made of literals, quoted characters,
    the dot, character sets, the two anchors and the greedy repeats;
    [search_nodes] is [Pattern.search] with the MULTILINE flag, the only
    one [regex_set] passes. *)

Module Re.

Definition byte_in (c : byte) (l : bytes) : bool :=
  existsb (Byte.eqb c) l.

Definition in_range (lo hi c : byte) : bool :=
  ((Byte.to_N lo <=? Byte.to_N c) && (Byte.to_N c <=? Byte.to_N hi))%N.

(** ASCII letters and digits: a backslash before one of these starts a
    special sequence, before anything else it quotes the character. *)
Definition is_alnum (c : byte) : bool :=
  in_range "0" "9" c || in_range "A" "Z" c || in_range "a" "z" c.

(** The characters [re.escape] puts a backslash before. *)
Definition special_chars : bytes :=
  bytes_of_string "()[]{}?*+-|^$\.&~# "
    ++ [x09; x0a; x0d; x0b; x0c].

Definition is_special (c : byte) : bool := byte_in c special_chars.

Fixpoint escape (pattern : bytes) : bytes :=
  match pattern with
  | [] => []
  | c :: rest =>
      if is_special c then x5c :: c :: escape rest
      else c :: escape rest
  end.

(** *** Compiled form *)

Inductive charset :=
| CLit (c : byte)
| CAny
| CSet (negate : bool) (ranges : list (byte * byte)).

Inductive quant := One | Opt | Star | Plus.

Inductive node :=
| NChar (cs : charset) (q : quant)
| NBol
| NEol.

(** *** Parsing *)

Inductive tok :=
| TEsc (c : byte)     (* a character quoted with a backslash *)
| TRaw (c : byte).    (* a character standing for itself *)

Fixpoint lex (s : bytes) : option (list tok) :=
  match s with
  | [] => Some []
  | c :: rest =>
      if Byte.eqb c x5c then
        match rest with
        | [] => None                              (* bad escape (end of pattern) *)
        | d :: rest' =>
            if is_alnum d then None               (* special sequence *)
            else option_map (cons (TEsc d)) (lex rest')
        end
      else option_map (cons (TRaw c)) (lex rest)
  end.

Inductive gtok :=
| GTok (t : tok)
| GSet (body : list tok).

Definition is_raw (c : byte) (t : tok) : bool :=
  match t with
  | TRaw d => Byte.eqb c d
  | TEsc _ => false
  end.

(** A "]" closes a set unless it is its first member. *)
Definition set_can_close (acc : list tok) : bool :=
  match acc with
  | [] => false
  | [t] => negb (is_raw "^" t)
  | _ => true
  end.

(** Splits the tokens into plain ones and the bodies of "[...]"; [cur]
    holds the body being read, last token first. *)
Fixpoint group (cur : option (list tok)) (ts : list tok)
  : option (list gtok) :=
  match ts with
  | [] =>
      match cur with
      | None => Some []
      | Some _ => None                            (* unterminated character set *)
      end
  | t :: ts' =>
      match cur with
      | None =>
          if is_raw "[" t then group (Some []) ts'
          else option_map (cons (GTok t)) (group None ts')
      | Some acc =>
          if is_raw "]" t && set_can_close acc
          then option_map (cons (GSet (rev acc))) (group None ts')
          else group (Some (t :: acc)) ts'
      end
  end.

Definition tok_char (t : tok) : byte :=
  match t with TEsc c => c | TRaw c => c end.

Fixpoint set_ranges (body : list tok) : option (list (byte * byte)) :=
  match body with
  | [] => Some []
  | lo :: rest =>
      match rest with
      | TRaw d :: hi :: rest' =>
          if Byte.eqb d "-" then
            if (Byte.to_N (tok_char lo) <=? Byte.to_N (tok_char hi))%N
            then option_map (cons (tok_char lo, tok_char hi)) (set_ranges rest')
            else None                             (* bad character range *)
          else option_map (cons (tok_char lo, tok_char lo)) (set_ranges rest)
      | _ => option_map (cons (tok_char lo, tok_char lo)) (set_ranges rest)
      end
  end.

Definition set_of (body : list tok) : option charset :=
  match body with
  | t :: rest =>
      if is_raw "^" t then option_map (CSet true) (set_ranges rest)
      else option_map (CSet false) (set_ranges body)
  | [] => None
  end.

Inductive atom :=
| AChar (cs : charset)
| AAnchor (n : node)
| ARepeat (q : quant)
| AUnsupported.

Definition atom_of (g : gtok) : option atom :=
  match g with
  | GSet body => option_map AChar (set_of body)
  | GTok (TEsc c) => Some (AChar (CLit c))
  | GTok (TRaw c) =>
      if Byte.eqb c "." then Some (AChar CAny)
      else if Byte.eqb c "^" then Some (AAnchor NBol)
      else if Byte.eqb c "$" then Some (AAnchor NEol)
      else if Byte.eqb c "*" then Some (ARepeat Star)
      else if Byte.eqb c "+" then Some (ARepeat Plus)
      else if Byte.eqb c "?" then Some (ARepeat Opt)
      else if byte_in c (bytes_of_string "(){|") then Some AUnsupported
      else Some (AChar (CLit c))
  end.

Definition repeat_of (g : gtok) : option quant :=
  match atom_of g with
  | Some (ARepeat q) => Some q
  | _ => None
  end.

(** [None] stands for [re.error], and also for a pattern outside the
    modelled part of the language (groups, alternation, counted
    repeats, lazy quantifiers, special sequences). *)
Fixpoint nodes (gs : list gtok) : option (list node) :=
  match gs with
  | [] => Some []
  | g :: rest =>
      match atom_of g with
      | Some (AChar cs) =>
          match rest with
          | g' :: rest' =>
              match repeat_of g' with
              | Some q => option_map (cons (NChar cs q)) (nodes rest')
              | None => option_map (cons (NChar cs One)) (nodes rest)
              end
          | [] => Some [NChar cs One]
          end
      | Some (AAnchor n) => option_map (cons n) (nodes rest)
      | Some (ARepeat _) => None                  (* nothing to repeat / multiple repeat *)
      | Some AUnsupported => None
      | None => None
      end
  end.

Definition parse (pattern : bytes) : option (list node) :=
  match lex pattern with
  | Some ts =>
      match group None ts with
      | Some gs => nodes gs
      | None => None
      end
  | None => None
  end.

(** *** Matching *)

Definition charset_mem (cs : charset) (c : byte) : bool :=
  match cs with
  | CLit d => Byte.eqb d c
  | CAny => negb (Byte.eqb c x0a)
  | CSet negate ranges =>
      xorb negate (existsb (fun r => in_range (fst r) (snd r) c) ranges)
  end.

(** MULTILINE: "^" matches at the start and after every newline, "$"
    at the end and before every newline. *)
Definition at_bol (prev : option byte) : bool :=
  match prev with
  | None => true
  | Some c => Byte.eqb c x0a
  end.

Definition at_eol (s : bytes) : bool :=
  match s with
  | [] => true
  | c :: _ => Byte.eqb c x0a
  end.

Fixpoint span (cs : charset) (s : bytes) : nat :=
  match s with
  | c :: s' => if charset_mem cs c then S (span cs s') else O
  | [] => O
  end.

Definition prev_at (prev : option byte) (s : bytes) (j : nat) : option byte :=
  match j with
  | O => prev
  | S j' =>
      match nth_error s j' with
      | Some c => Some c
      | None => prev
      end
  end.

(** A greedy repeat that took [j] characters: try the rest of the
    pattern after [j], then after [j - 1], ... down to [lo]. *)
Fixpoint backtrack (k : option byte -> bytes -> option nat) (lo : nat)
    (prev : option byte) (s : bytes) (j : nat) : option nat :=
  match (if (lo <=? j)%nat then k (prev_at prev s j) (skipn j s) else None) with
  | Some n => Some (j + n)%nat
  | None =>
      match j with
      | O => None
      | S j' => backtrack k lo prev s j'
      end
  end.

(** Length of the match of [p] at the head of [s], if there is one;
    [prev] is the character before [s]. *)
Fixpoint match_here (p : list node) (prev : option byte) (s : bytes)
  : option nat :=
  match p with
  | [] => Some O
  | NBol :: p' => if at_bol prev then match_here p' prev s else None
  | NEol :: p' => if at_eol s then match_here p' prev s else None
  | NChar cs q :: p' =>
      match q with
      | One =>
          match s with
          | c :: s' =>
              if charset_mem cs c
              then option_map S (match_here p' (Some c) s')
              else None
          | [] => None
          end
      | Opt => backtrack (match_here p') 0 prev s (Nat.min 1 (span cs s))
      | Star => backtrack (match_here p') 0 prev s (span cs s)
      | Plus => backtrack (match_here p') 1 prev s (span cs s)
      end
  end.

(** A match object: [m_start] is [Match.start()], [m_end] is
    [Match.end()], both relative to the searched bytes. *)
Record Match := { m_start : nat; m_end : nat }.

Fixpoint search_from (p : list node) (prev : option byte) (s : bytes)
    (i : nat) : option Match :=
  match match_here p prev s with
  | Some n => Some {| m_start := i; m_end := (i + n)%nat |}
  | None =>
      match s with
      | [] => None
      | c :: s' => search_from p (Some c) s' (S i)
      end
  end.

Definition search_nodes (p : list node) (data : bytes) : option Match :=
  search_from p None data 0.

(** *** bytes.find, the reference for literal search *)

Fixpoint is_prefix (needle hay : bytes) : bool :=
  match needle with
  | [] => true
  | c :: needle' =>
      match hay with
      | [] => false
      | d :: hay' => Byte.eqb c d && is_prefix needle' hay'
      end
  end.

Fixpoint find_from (needle hay : bytes) (i : nat) : option nat :=
  if is_prefix needle hay then Some i
  else
    match hay with
    | [] => None
    | _ :: hay' => find_from needle hay' (S i)
    end.

Definition find (needle hay : bytes) : option nat := find_from needle hay 0.

Definition literal (b : bytes) : list node :=
  map (fun c => NChar (CLit c) One) b.

End Re.

(** ** Compiled patterns and the objects passed as [text_or_regex] *)

(** The [pattern] attribute of a compiled regular expression is the
    text it was compiled from, a [str] or a [bytes]. *)
Inductive pat_src :=
| SrcStr (s : pystr)
| SrcBytes (b : bytes).

(** A compiled [re.Pattern]; [run] is what its search finds in a bytes
    object. *)
Record Pattern := {
  pattern : pat_src;
  run : bytes -> option Re.Match
}.

(** [Pattern.search] on a bytes-like object: a pattern compiled from a
    [str] refuses it. *)
Definition str_pattern_on_bytes : exn :=
  TypeError "cannot use a string pattern on a bytes-like object".

Definition Pattern_search (p : Pattern) (data : bytes)
  : result (option Re.Match) :=
  match pattern p with
  | SrcBytes _ => Ok (run p data)
  | SrcStr _ => Raise str_pattern_on_bytes
  end.

(** [re.compile(src, re.MULTILINE)] for a bytes [src]. *)
Definition re_compile (src : bytes) : result Pattern :=
  match Re.parse src with
  | Some p => Ok {| pattern := SrcBytes src; run := Re.search_nodes p |}
  | None => Raise (re_error "cannot compile")
  end.

Inductive pyobj :=
| PStr (s : pystr)
| PBytes (b : bytes)
| PPattern (p : Pattern)
| PInt (z : Z)
| PNone.

Definition type_name (o : pyobj) : string :=
  match o with
  | PStr _ => "str"
  | PBytes _ => "bytes"
  | PPattern _ => "Pattern"
  | PInt _ => "int"
  | PNone => "NoneType"
  end.

Definition unknown_error_handler : exn :=
  LookupError "unknown error handler name 'surrogatencode'".

(** [expect_text_on_console_c.regex_set]; the value it leaves in
    [self.regex] is returned. *)
Definition regex_set (text_or_regex : pyobj) : result Pattern :=
  match text_or_regex with
  | PStr s =>
      try! b <- Utf8.encode s;
      re_compile (Re.escape b)
  | PBytes b => re_compile (Re.escape b)
  | PPattern p =>
      match pattern p with
      | SrcStr s =>
          try! b <- Utf8.encode_with unknown_error_handler s;
          re_compile b
      | SrcBytes _ => Ok p
      end
  | _ =>
      Raise (AssertionError
               ("text_or_regex must be a string or compiled regex, got "
                  +:+ type_name text_or_regex))
  end.

(** ** Targets and expectations *)

Record target_c := {
  want_name : string;
  target_id : string;
  fullid : string;
  console_default : string;       (* target.console.default *)
  report_file_prefix : string     (* target.testcase.report_file_prefix *)
}.

(** The [report] argument: [None], an integer ([True] and [False]
    count as 1 and 0, and so does a float equal to 0), or any other
    object. *)
Inductive report_t :=
| ReportNone
| ReportInt (n : Z)
| ReportOther.

Record expect_text_on_console_c := {
  target : target_c;
  poll_period : Q;
  timeout : option Q;
  regex : Pattern;
  name : string;
  _console : option string;
  previous_max : Z;
  detect_context : string;
  report : report_t
}.

(** The [console] property. *)
Definition console (self : expect_text_on_console_c) : string :=
  match _console self with
  | None => console_default (target self)
  | Some c => c
  end.

(** [expect_text_on_console_c.max_size] *)
Definition max_size : Z := 65536.

Definition is_pattern_type (o : pyobj) : bool :=
  match o with
  | PStr _ | PBytes _ | PPattern _ => true
  | _ => false
  end.

Definition py_assert (b : bool) (msg : string) : result unit :=
  if b then Ok tt else Raise (AssertionError msg).

Section Construction.

(** [commonl.name_make_safe(pattern.decode())], the name given to an
    expectation built without one; [commonl] is outside these sources. *)
Variable name_make_safe_decoded : bytes -> result string.

Definition default_name (p : Pattern) : result string :=
  match pattern p with
  | SrcBytes b => name_make_safe_decoded b
  | SrcStr _ => Raise (AttributeError "'str' object has no attribute 'decode'")
  end.

(** [expect_text_on_console_c.__init__]; the base class initialiser
    stores target, poll period and timeout. *)
Definition __init__ (text_or_regex : pyobj) (console : option string)
    (poll_period : Q) (timeout : option Q) (previous_max : Z)
    (name : option string) (target : option target_c)
    (detect_context : string) (report : report_t)
  : result expect_text_on_console_c :=
  match target with
  | None => Raise (AssertionError "target")
  | Some tgt =>
      try! _ <- py_assert (is_pattern_type text_or_regex) "text_or_regex";
      try! _ <- py_assert
                  (match timeout with
                   | None => true
                   | Some t => Qle_bool 0 t
                   end) "timeout";
      try! _ <- py_assert (negb (Qle_bool poll_period 0)) "poll_period";
      try! _ <- py_assert (0 <? previous_max) "previous_max";
      try! regex <- regex_set text_or_regex;
      try! name <- match name with
                   | Some n => if String.eqb n "" then default_name regex else Ok n
                   | None => default_name regex
                   end;
      Ok {| target := tgt;
            poll_period := poll_period;
            timeout := timeout;
            regex := regex;
            name := name;
            _console := console;
            previous_max := previous_max;
            detect_context := detect_context;
            report := report |}
  end.

End Construction.

(** ** Poll state *)

(** Values kept in the [buffers_poll] dictionary: offsets and the
    generation are integers, ['of'] is the open capture file. *)
Inductive pyval :=
| VInt (z : Z)
| VFile (filename : string).

(** One [read_full] call: console, offset, maximum size. *)
Definition request : Type := string * Z * Z.

(** What the code reads and changes while polling and detecting:
    - [buffers_poll]: the dictionary shared by all the expectations on
      one target console;
    - [files]: contents of the capture files, by name;
    - [testcase_buffers]: the counters kept in [testcase.buffers];
    - [collateral]: [testcase.collateral];
    - [requests]: the [read_full] calls made so far, oldest first. *)
Record state := {
  buffers_poll : gmap string pyval;
  files : gmap string bytes;
  testcase_buffers : gmap string Z;
  collateral : gset string;
  requests : list request
}.

Definition set_buffers_poll (bp : gmap string pyval) (st : state) : state :=
  {| buffers_poll := bp;
     files := files st;
     testcase_buffers := testcase_buffers st;
     collateral := collateral st;
     requests := requests st |}.

Definition file_contents (st : state) (filename : string) : bytes :=
  default [] (files st !! filename).

(** The answer of the transport to one [read_full] call with a file to
    write to: either the stream generation, the offset to read from
    next and the bytes it wrote to the file, or an exception. *)
Inductive response :=
| Read (generation new_offset : Z) (data : bytes)
| Fails (e : exn).

(** The transport: the answer to the n-th call (counting from 0), given
    what is asked. *)
Definition transport : Type := nat -> request -> response.

(** [target.console.read_full(console, offset, max_size, of, newline = '')]:
    returns generation, new offset and number of bytes written. *)
Definition read_full (srv : transport) (console : string)
    (offset max_size : Z) (filename : string) (st : state)
  : result (Z * Z * Z) * state :=
  let rq := (console, offset, max_size) in
  match srv (length (requests st)) rq with
  | Read generation new_offset data =>
      (Ok (generation, new_offset, blen data),
       {| buffers_poll := buffers_poll st;
          files := <[filename := file_contents st filename ++ data]> (files st);
          testcase_buffers := testcase_buffers st;
          collateral := collateral st;
          requests := requests st ++ [rq] |})
  | Fails e =>
      (Raise e,
       {| buffers_poll := buffers_poll st;
          files := files st;
          testcase_buffers := testcase_buffers st;
          collateral := collateral st;
          requests := requests st ++ [rq] |})
  end.

(** [_poll_context] *)
Definition _poll_context (target : target_c) (console : option string) : string :=
  "console-" +:+ want_name target +:+ "." +:+ target_id target +:+ "."
    +:+ match console with
        | Some c => if String.eqb c "" then console_default target else c
        | None => console_default target
        end.

(** [extension.capture_filename]; the path is taken as it is built, not
    made relative to the working directory. *)
Definition capture_filename (target : target_c) (console : option string) : string :=
  report_file_prefix target +:+ _poll_context target console +:+ ".txt".

(** [commonl.rm_f]: removes the file if there is one. *)
Definition rm_f (filename : string) (fs : gmap string bytes) : gmap string bytes :=
  delete filename fs.

(** [open(filename, "ba+")]: the file is created empty if missing, kept
    if present; writes go to its end. *)
Definition open_append (filename : string) (fs : gmap string bytes)
  : gmap string bytes :=
  match fs !! filename with
  | Some _ => fs
  | None => <[filename := []]> fs
  end.

(** [expect_text_on_console_c._poll_context_init]; [size] is the answer
    of [target.console.size(console)], [None] for a disabled console. *)
Definition _poll_context_init (size : option Z) (target : target_c)
    (console : string) (lookback_max : Z) (st : state) : result unit * state :=
  match buffers_poll st !! "read_offset" with
  | Some _ => (Raise (AssertionError "buffers_poll DOUBLE INIT"), st)
  | None =>
      let filename := capture_filename target (Some console) in
      let read_offset := match size with
                         | None => 0
                         | Some n => n
                         end in
      let read_offset := read_offset - lookback_max in
      let read_offset := if read_offset <? 0 then 0 else read_offset in
      (Ok tt,
       {| buffers_poll :=
            <["of" := VFile filename]>
              (<["read_offset" := VInt read_offset]> (buffers_poll st));
          files := open_append filename (rm_f filename (files st));
          testcase_buffers := testcase_buffers st;
          collateral := {[ filename ]} ∪ collateral st;
          requests := requests st |})
  end.

(** ** The poller *)

Definition timeout_counter_name (self : expect_text_on_console_c) : string :=
  "HTTP read timeouts from console " +:+ console self.

(** The [except requests.exceptions.ReadTimeout] handler: counts the
    timeout in [testcase.buffers]. *)
Definition count_timeout (self : expect_text_on_console_c) (st : state) : state :=
  let name := timeout_counter_name self in
  {| buffers_poll := buffers_poll st;
     files := files st;
     testcase_buffers :=
       <[name := default 0 (testcase_buffers st !! name) + 1]> (testcase_buffers st);
     collateral := collateral st;
     requests := requests st |}.

(** The retry loop of [_poll]:
<<
    while retry_count < 3:
        retry_count += 1
        try:    ... read_full(...); break
        except ReadTimeout as e: last_e = e; ...
    else:
        raise last_e
>>
    [fuel] bounds the iterations; 4 are enough when starting from -1. *)
Fixpoint read_retrying (fuel : nat) (srv : transport)
    (self : expect_text_on_console_c) (read_offset : Z) (filename : string)
    (retry_count : Z) (last_e : option exn) (st : state)
  : result (Z * Z * Z) * state :=
  if retry_count <? 3 then
    match fuel with
    | O => (Raise (RuntimeError "out of fuel"), st)
    | S fuel' =>
        let retry_count := retry_count + 1 in
        match read_full srv (console self) read_offset max_size filename st with
        | (Ok r, st') => (Ok r, st')
        | (Raise (ReadTimeout tag), st') =>
            read_retrying fuel' srv self read_offset filename retry_count
              (Some (ReadTimeout tag)) (count_timeout self st')
        | (Raise e, st') => (Raise e, st')
        end
    end
  else
    match last_e with
    | Some e => (Raise e, st)
    | None => (Raise (TypeError "exceptions must derive from BaseException"), st)
    end.

(** [buffers_poll.get(key, default)] where an integer is expected. *)
Definition get_int (bp : gmap string pyval) (key : string) (dflt : Z) : result Z :=
  match bp !! key with
  | None => Ok dflt
  | Some (VInt z) => Ok z
  | Some (VFile _) => Raise (TypeError "an integer is required")
  end.

(** The part of [_poll] after the first successful read: generation
    bookkeeping, the second read on a restart, the new read offset. *)
Definition after_read (srv : transport) (self : expect_text_on_console_c)
    (filename : string) (r : Z * Z * Z) (st : state) : result unit * state :=
  let '(generation, new_offset, total_bytes) := r in
  let store g o (st : state) :=
    set_buffers_poll (<["read_offset" := VInt o]> (<["generation" := VInt g]> (buffers_poll st))) st in
  match buffers_poll st !! "generation" with
  | None => (Ok tt, store generation new_offset st)
  | Some (VFile _) => (Raise (TypeError "'<' not supported"), st)
  | Some (VInt generation_prev) =>
      if generation_prev <? generation then
        match read_full srv (console self) 0 max_size filename st with
        | (Ok (generation, new_offset, total_bytes), st') =>
            (Ok tt, store generation new_offset st')
        | (Raise e, st') => (Raise e, st')
        end
      else
        (Ok tt, set_buffers_poll (<["read_offset" := VInt new_offset]> (buffers_poll st)) st)
  end.

(** The [except requests.exceptions.HTTPError] clause around the body
    of [_poll]. *)
Definition wrap_http_error {A} (r : result A * state) : result A * state :=
  match r with
  | (Raise (HTTPError tag), st) =>
      (Raise (blocked_e "error reading console" (HTTPError tag)), st)
  | _ => r
  end.

(** [expect_text_on_console_c._poll] *)
Definition _poll (srv : transport) (self : expect_text_on_console_c)
    (st : state) : result unit * state :=
  match get_int (buffers_poll st) "read_offset" 0 with
  | Raise e => (Raise e, st)
  | Ok read_offset =>
      match buffers_poll st !! "of" with
      | None => (Raise (KeyError "of"), st)
      | Some (VInt _) => (Raise (AttributeError "fileno"), st)
      | Some (VFile filename) =>
          wrap_http_error
            match read_retrying 4 srv self read_offset filename (-1) None st with
            | (Raise e, st') => (Raise e, st')
            | (Ok r, st') => after_read srv self filename r st'
            end
      end
  end.

(** [expect_text_on_console_c.poll] *)
Definition poll (srv : transport) (size : option Z)
    (self : expect_text_on_console_c) (st : state) : result unit * state :=
  match buffers_poll st !! "of" with
  | Some _ => _poll srv self st
  | None =>
      match _poll_context_init size (target self) (console self)
              (previous_max self) st with
      | (Raise e, st') => (Raise e, st')
      | (Ok _, st') => _poll srv self st'
      end
  end.

(** ** The detector *)

(** [data[i:]] *)
Definition slice_from (data : bytes) (i : Z) : bytes :=
  if i <? 0 then skipn (Z.to_nat (Z.max 0 (blen data + i))) data
  else skipn (Z.to_nat i) data.

(** What [extension.generator_factory(console, offset_from, offset_to)]
    keeps: the console and the byte window of the capture file that the
    generators it makes will report. *)
Record generator_factory_c := {
  gf_console : string;
  offset_from : Z;
  offset_to : Z
}.

Definition generator_factory (console : string) (offset_from offset_to : Z)
  : generator_factory_c :=
  {| gf_console := console; offset_from := offset_from; offset_to := offset_to |}.

(** The dictionary [detect] returns.  [console_output] is the attached
    output, if any, under its key ("console output" or "console output
    (partial)"); [offset] is the ["offset"] entry. *)
Record match_data := {
  console_output : option (string * generator_factory_c);
  md_target : target_c;
  md_console : string;
  md_pattern : pat_src;
  offset : Z;
  offset_match_start : Z;
  offset_match_end : Z
}.

(** The detect context of an expectation: its own, or the console's
    name when it has none. *)
Definition detect_context_of (self : expect_text_on_console_c) : string :=
  if String.eqb (detect_context self) "" then console self
  else detect_context self.

(** The part of [detect] that runs once a match was found at search
    offset [search_offset]: stores the new offsets, then builds the
    result according to [self.report]. *)
Definition found (self : expect_text_on_console_c) (ctx : string)
    (search_offset : Z) (m : Re.Match) (st : state)
  : result (option match_data) * state :=
  let m_start := Z.of_nat (Re.m_start m) in
  let m_end := Z.of_nat (Re.m_end m) in
  let st := set_buffers_poll
              (<[ctx +:+ "search_offset" := VInt (search_offset + m_end)]>
                 (<[ctx +:+ "search_offset_prev" := VInt search_offset]>
                    (buffers_poll st))) st in
  let build (search_offset : Z) (console_output : option string) :=
    {| console_output :=
         match console_output with
         | Some key =>
             Some (key, generator_factory (console self)
                          search_offset (search_offset + m_end))
         | None => None
         end;
       md_target := target self;
       md_console := console self;
       md_pattern := pattern (regex self);
       offset := search_offset;
       offset_match_start := search_offset + m_start;
       offset_match_end := search_offset + m_end |} in
  match report self with
  | ReportInt 0 => (Ok (Some (build search_offset None)), st)
  | ReportInt n =>
      let _search_offset := search_offset + m_end - n in
      let search_offset := Z.max search_offset _search_offset in
      (Ok (Some (build search_offset (Some "console output (partial)"))), st)
  | ReportNone => (Ok (Some (build search_offset (Some "console output"))), st)
  | ReportOther => (Raise (AssertionError "self.report: invalid type or value"), st)
  end.

(** [expect_text_on_console_c.detect] *)
Definition detect (self : expect_text_on_console_c) (st : state)
  : result (option match_data) * state :=
  match buffers_poll st !! "of" with
  | None => (Ok None, st)
  | Some (VInt _) => (Raise (AttributeError "fileno"), st)
  | Some (VFile filename) =>
      let mapping := file_contents st filename in
      if blen mapping =? 0 then (Ok None, st)
      else
        let ctx := detect_context_of self in
        let key := ctx +:+ "search_offset" in
        let st := match buffers_poll st !! key with
                  | None => set_buffers_poll (<[key := VInt 0]> (buffers_poll st)) st
                  | Some _ => st
                  end in
        match buffers_poll st !! key with
        | Some (VInt search_offset) =>
            match Pattern_search (regex self) (slice_from mapping search_offset) with
            | Raise e => (Raise e, st)
            | Ok None => (Ok None, st)
            | Ok (Some m) => found self ctx search_offset m st
            end
        | _ => (Raise (TypeError "slice indices must be integers"), st)
        end
  end.

(** The record [on_timeout] raises its exception with. *)
Record timeout_data := {
  td_console : string;
  td_offset : Z;
  td_offset_prev : Z;
  td_console_output : generator_factory_c
}.

(** [expect_text_on_console_c.on_timeout]: what is attached to the
    exception it always raises. *)
Definition on_timeout (self : expect_text_on_console_c) (st : state)
  : result timeout_data :=
  let ctx := detect_context_of self in
  try! search_offset_prev <- get_int (buffers_poll st) (ctx +:+ "search_offset_prev") 0;
  try! search_offset <- get_int (buffers_poll st) (ctx +:+ "search_offset") 0;
  Ok {| td_console := console self;
        td_offset := search_offset;
        td_offset_prev := search_offset_prev;
        td_console_output :=
          generator_factory (console self) search_offset_prev search_offset |}.

(** ** The console interface of a target: [extension] *)

Record extension := {
  aliases : gmap string string;
  console_list : list string;
  _default : option string;
  default_property : option string;
  chunk_size : gmap string Z;
  interchunk_wait : gmap string Q
}.

(** Truth value of an optional string: [None] and the empty string are
    false. *)
Definition nonempty (o : option string) : option string :=
  match o with
  | Some s => if String.eqb s "" then None else Some s
  | None => None
  end.

(** [extension._console_get] *)
Definition _console_get (self : extension) (console : option string)
  : result string :=
  let console := match console with
                 | Some c => Some (default c (aliases self !! c))
                 | None => None
                 end in
  match nonempty console with
  | Some c =>
      if existsb (String.eqb c) (console_list self) then Ok c
      else Raise (AssertionError (c +:+ ": console not supported by target"))
  | None =>
      match nonempty (_default self) with
      | Some d => Ok d
      | None =>
          match nonempty (default_property self) with
          | Some d => Ok d
          | None =>
              match aliases self !! "default" with
              | Some d => Ok d
              | None =>
                  match console_list self with
                  | c :: _ => Ok c
                  | [] => Raise (RuntimeError "target lists no consoles")
                  end
              end
          end
      end
  end.

(** A call to the transport's console write: console and data. *)
Definition write_call : Type := string * pystr.

(** [extension.write]: the result and the transport write calls made,
    oldest first.  A [bytes] object has no [encode]; true division
    makes the number of chunks a float, which [range] refuses. *)
Definition write (self : extension) (data : pyobj) (console : option string)
    (chunk_size_arg : option Z) (interchunk_wait_arg : option Q)
  : result unit * list write_call :=
  match data with
  | PBytes _ => (Raise (AttributeError "'bytes' object has no attribute 'encode'"), [])
  | PStr data =>
      match _console_get self console with
      | Raise e => (Raise e, [])
      | Ok console =>
          let chunk_size := match chunk_size_arg with
                            | Some n => Some n
                            | None => chunk_size self !! console
                            end in
          match chunk_size with
          | None => (Ok tt, [(console, data)])
          | Some n =>
              if n =? 0 then (Raise ZeroDivisionError, [])
              else (Raise (TypeError "'float' object cannot be interpreted as an integer"), [])
          end
      end
  | _ => (Raise (AssertionError "data"), [])
  end.

(** [extension.offset_calc]; [size] is the answer of the size query. *)
Definition offset_calc (size : option Z) (offset : Z) : Z :=
  if 0 <=? offset then offset
  else
    match size with
    | None => 0
    | Some size => Z.max 0 (size + offset + 1)
    end.

(** ** The continuous reader *)

(** Terminal flags, as [termios.tcgetattr] returns them. *)
Definition term_flags : Type := list Z.

(** What the reader does to the outside.  The lines of new data, each
    written to [fd] with its carriage return, are kept as one output
    event. *)
Inductive event :=
| EvWarning (msg : string)          (* a warning on stderr *)
| EvOutput (data : pystr)           (* the new console data, written to fd *)
| EvSleep (seconds : Q)             (* time.sleep *)
| EvTcsetattr (flags : term_flags)  (* termios.tcsetattr on stdin *)
| EvLogException (e : exn).         (* logging.exception *)

(** The answer of the transport to one [read_full] call without a file:
    generation, new offset and the data, or an exception. *)
Inductive text_response :=
| ReadText (generation new_offset : Z) (data : pystr)
| FailsText (e : exn).

Record _console_reader_c := {
  rd_console : option string;
  rd_offset : Z;
  server_connection_errors : Z;
  server_connection_errors_max : Z;
  backoff_wait : Q;
  backoff_wait_max : Q;
  generation_prev : option Z;
  timestamp : bool
}.

(** [_console_reader_c.__init__] *)
Definition new_console_reader (console : option string) (offset : Z)
    (backoff_wait_max : Q) (server_connection_errors_max : Z)
    (timestamp : bool) : _console_reader_c :=
  {| rd_console := console;
     rd_offset := offset;
     server_connection_errors := 0;
     server_connection_errors_max := server_connection_errors_max;
     backoff_wait := 1 # 10;
     backoff_wait_max := backoff_wait_max;
     generation_prev := None;
     timestamp := timestamp |}.

(** [time.sleep]: refuses a negative length. *)
Definition time_sleep (seconds : Q) : result (list event) :=
  if Qle_bool 0 seconds then Ok [EvSleep seconds]
  else Raise (ValueError "sleep length must be non-negative").

(** The backoff limit applied after each change:
    [if backoff_wait >= backoff_wait_max: backoff_wait = backoff_wait_max]. *)
Definition cap (backoff_wait_max backoff_wait : Q) : Q :=
  if Qle_bool backoff_wait_max backoff_wait then backoff_wait_max
  else backoff_wait.

Definition truthy_flags (flags : option term_flags) : bool :=
  match flags with
  | Some (_ :: _) => true
  | _ => false
  end.

Definition restore_flags (flags : option term_flags) : list event :=
  match flags with
  | Some fl => if truthy_flags flags then [EvTcsetattr fl] else []
  | None => []
  end.

Definition plen (s : pystr) : Z := Z.of_nat (length s).

(** [_console_reader_c.read], on the transport's answer [resp]: the
    value returned ([data_len]) or the exception raised, the reader
    afterwards, and what was done, oldest first.  Doubling a binary
    float is exact, so the backoff is kept as a rational. *)
Definition read (resp : text_response) (flags_restore : option term_flags)
    (self : _console_reader_c) : result Z * _console_reader_c * list event :=
  match resp with
  | ReadText generation new_offset data =>
      let restarted := match generation_prev self with
                       | Some g => negb (g =? generation)
                       | None => false
                       end in
      let offset := if restarted then plen data else new_offset in
      let ev1 := (if restarted then [EvWarning "console was restarted"] else [])
                   ++ (if 0 <? plen data then [EvOutput data] else []) in
      let data_len := plen data in
      let backoff := if data_len =? 0 then (2 * backoff_wait self)%Q
                     else 1 # 10 in
      let backoff := cap (backoff_wait_max self) backoff in
      let self1 := {| rd_console := rd_console self;
                      rd_offset := offset;
                      server_connection_errors := server_connection_errors self;
                      server_connection_errors_max := server_connection_errors_max self;
                      backoff_wait := backoff;
                      backoff_wait_max := backoff_wait_max self;
                      generation_prev := Some generation;
                      timestamp := timestamp self |} in
      match time_sleep backoff with
      | Raise e => (Raise e, self1, ev1)
      | Ok ev2 =>
          let self2 :=
            if 0 <? server_connection_errors self then
              {| rd_console := rd_console self;
                 rd_offset := offset;
                 server_connection_errors := 0;
                 server_connection_errors_max := server_connection_errors_max self;
                 backoff_wait := 1 # 10;
                 backoff_wait_max := backoff_wait_max self;
                 generation_prev := Some generation;
                 timestamp := timestamp self |}
            else self1 in
          (Ok data_len, self2, ev1 ++ ev2)
      end
  | FailsText (ConnectionError tag) =>
      let errors := server_connection_errors self + 1 in
      let with_errors (backoff : Q) :=
        {| rd_console := rd_console self;
           rd_offset := rd_offset self;
           server_connection_errors := errors;
           server_connection_errors_max := server_connection_errors_max self;
           backoff_wait := backoff;
           backoff_wait_max := backoff_wait_max self;
           generation_prev := generation_prev self;
           timestamp := timestamp self |} in
      if server_connection_errors_max self <=? errors then
        (Raise (ConnectionError tag), with_errors (backoff_wait self),
         restore_flags flags_restore)
      else
        let ev1 := [EvWarning "server connection timedout, retry"] in
        match time_sleep (backoff_wait self) with
        | Raise e => (Raise e, with_errors (backoff_wait self), ev1)
        | Ok ev2 =>
            (Ok 0,
             with_errors (cap (backoff_wait_max self) (2 * backoff_wait self)%Q),
             ev1 ++ ev2)
        end
  | FailsText e => (Raise e, self, [])
  end.

(** How a run of the reader loop over a finite script ended. *)
Inductive loop_outcome :=
| Running                 (* every answer was consumed, the loop goes on *)
| Terminated (e : exn).   (* the loop was left with this exception *)

(** The loop of [_console_read_thread_fn] over the transport's answers
    to its successive iterations.  The module's [_flags_set] is never
    assigned, so the [finally] clause does nothing. *)
Fixpoint read_loop (script : list text_response)
    (_flags_restore : option term_flags) (reader : _console_reader_c)
  : loop_outcome * _console_reader_c * list event :=
  match script with
  | [] => (Running, reader, [])
  | resp :: script' =>
      match read resp _flags_restore reader with
      | (Raise e, reader', ev) =>
          (Terminated e, reader',
           ev ++ restore_flags _flags_restore ++ [EvLogException e])
      | (Ok _, reader', ev) =>
          let '(out, reader'', ev') := read_loop script' _flags_restore reader' in
          (out, reader'', ev ++ ev')
      end
  end.

(** [_console_read_thread_fn] *)
Definition _console_read_thread_fn (size : option Z) (console : option string)
    (offset : Z) (backoff_wait_max : Q) (_flags_restore : option term_flags)
    (timestamp : bool) (script : list text_response)
  : loop_outcome * _console_reader_c * list event :=
  let offset := offset_calc size offset in
  read_loop script _flags_restore
    (new_console_reader console offset backoff_wait_max 10 timestamp).

(** ** Synchronising a send with the expectations that follow *)

(** [extension.text_poll_context] *)
Definition text_poll_context (target : target_c) (console : option string)
  : string :=
  _poll_context target console.

(** [extension.send_expect_sync].  The dictionary it writes to is the
    one of the poll state kept under [text_poll_context] of the console
    it resolves to, which the expect loop hands to [poll] and [detect]
    of the expectations on that console: [buffers_poll] of the state.
    The search offset of the detect context becomes the current size of
    the capture file, or 0 when nothing is captured yet. *)
Definition send_expect_sync (self : extension) (console : option string)
    (detect_context : string) (st : state) : result unit * state :=
  match _console_get self console with
  | Raise e => (Raise e, st)
  | Ok console =>
      let detect_context :=
        if String.eqb detect_context "" then console else detect_context in
      let search_offset :=
        match buffers_poll st !! "of" with
        | Some (VFile filename) => Ok (blen (file_contents st filename))
        | Some (VInt z) =>
            if z =? 0 then Ok 0 else Raise (AttributeError "fileno")
        | None => Ok 0
        end in
      match search_offset with
      | Raise e => (Raise e, st)
      | Ok search_offset =>
          (Ok tt,
           set_buffers_poll
             (<[detect_context +:+ "search_offset" := VInt search_offset]>
                (buffers_poll st)) st)
      end
  end.

(** ** Reading the capture back *)

(** The lines a file opened in binary mode iterates over: each ends
    with its line feed, but for a last one without; [cur] is the line
    being read, last byte first. *)
Fixpoint lines_acc (cur : bytes) (data : bytes) : list bytes :=
  match data with
  | [] =>
      match cur with
      | [] => []
      | _ => [rev cur]
      end
  | c :: data' =>
      if Byte.eqb c x0a then rev (c :: cur) :: lines_acc [] data'
      else lines_acc (c :: cur) data'
  end.

Definition file_lines (data : bytes) : list bytes := lines_acc [] data.

Definition ends_with_lf (line : bytes) : bool :=
  match List.last (map Some line) None with
  | Some c => Byte.eqb c x0a
  | None => false
  end.

(** What the loop of [capture_iterator] yields, before decoding: the
    lines up to the one that brings the offset to [offset_to], and
    whether a line feed is added because that line has none. *)
Fixpoint iterate_lines (lines : list bytes) (offset offset_to : Z)
  : list bytes * bool :=
  match lines with
  | [] => ([], false)
  | line :: rest =>
      let offset := offset + blen line in
      if (0 <? offset_to) && (offset_to <=? offset)
      then ([line], negb (ends_with_lf line))
      else
        let '(more, extra) := iterate_lines rest offset offset_to in
        (line :: more, extra)
  end.

Section Capture.

(** [line.decode(encoding = 'utf-8', errors = 'backslashreplace')], with
    its fall back to 'replace'; it never fails. *)
Variable decode : bytes -> pystr.

(** [extension.capture_iterator]: everything the generator yields, in
    order.  [fs] holds the files by name; a missing file gives one empty
    string; seeking to a negative offset fails with EINVAL (errno 22),
    which is raised on. *)
Definition capture_iterator (fs : gmap string bytes) (filename : string)
    (offset_from offset_to : Z) : result (list pystr) :=
  match fs !! filename with
  | None => Ok [[]]
  | Some data =>
      if offset_from <? 0 then Raise (OtherError 22)
      else
        let '(lines, extra) :=
          iterate_lines (file_lines (skipn (Z.to_nat offset_from) data))
            offset_from offset_to in
        Ok (map decode lines ++ if extra then [[10%N]] else [])
  end.

End Capture.

(** ** End-of-line conversion *)

(** The [newline] argument: [None], a [str], a [bytes], a compiled
    pattern, or anything else. *)
Inductive newline_t :=
| NlNone
| NlStr (s : pystr)
| NlBytes (b : bytes)
| NlPattern (p : Pattern)
| NlOther.

(** [_crlf_regex_universal_b], the pattern "(\r+\n|\r|\n)": the three
    alternatives of its group, in order. *)
Definition _crlf_regex_universal_b : list (list Re.node) :=
  [ [Re.NChar (Re.CLit x0d) Re.Plus; Re.NChar (Re.CLit x0a) Re.One];
    [Re.NChar (Re.CLit x0d) Re.One];
    [Re.NChar (Re.CLit x0a) Re.One] ].

(** The length matched at the head of [s] by the first alternative
    that matches there. *)
Fixpoint match_alternatives (alts : list (list Re.node)) (prev : option byte)
    (s : bytes) : option nat :=
  match alts with
  | [] => None
  | p :: alts' =>
      match Re.match_here p prev s with
      | Some n => Some n
      | None => match_alternatives alts' prev s
      end
  end.

(** [re.sub] for alternatives none of which matches the empty string:
    the matches are replaced by [repl] from the left, without overlap;
    [skip] counts the bytes of a match still to pass over, [prev] is
    the byte before [s]. *)
Fixpoint sub_from (alts : list (list Re.node)) (repl : bytes) (skip : nat)
    (prev : option byte) (s : bytes) : bytes :=
  match s with
  | [] => []
  | c :: s' =>
      match skip with
      | S k => sub_from alts repl k (Some c) s'
      | O =>
          match match_alternatives alts prev s with
          | Some (S n) => repl ++ sub_from alts repl n (Some c) s'
          | _ => c :: sub_from alts repl 0 (Some c) s'
          end
      end
  end.

Definition re_sub_alternatives (alts : list (list Re.node)) (repl data : bytes)
  : bytes :=
  sub_from alts repl 0 None data.

(** [data.replace(old, new)] for a non-empty [old]: the occurrences of
    [old] are replaced from the left, without overlap; [skip] counts the
    bytes of an occurrence still to pass over. *)
Fixpoint replace_from (old new : bytes) (skip : nat) (data : bytes) : bytes :=
  match data with
  | [] => []
  | c :: data' =>
      match skip with
      | S k => replace_from old new k data'
      | O =>
          if Re.is_prefix old data
          then new ++ replace_from old new (length old - 1) data'
          else c :: replace_from old new 0 data'
      end
  end.

Definition bytes_replace (old new data : bytes) : bytes :=
  replace_from old new 0 data.

Section NewlineConvert.

(** [re.sub(pattern, repl, data)] for a compiled pattern given by the
    caller. *)
Variable re_sub : Pattern -> bytes -> bytes -> result bytes.

(** [extension._newline_convert] on [bytes] data. *)
Definition _newline_convert (data : bytes) (newline : newline_t)
  : result bytes :=
  try! newline <- match newline with
                  | NlStr s => try! b <- Utf8.encode s; Ok (NlBytes b)
                  | other => Ok other
                  end;
  match newline with
  | NlBytes [] => Ok data
  | NlNone => Ok (re_sub_alternatives _crlf_regex_universal_b [x0a] data)
  | NlPattern p => re_sub p [x0a] data
  | NlBytes b => Ok (bytes_replace b [x0a] data)
  | _ => Raise (AssertionError "can't understand newline")
  end.

(** ** Reading from the console over HTTP *)

(** The answer to a console read request: the stream generation and
    the offset of the first byte sent, from the X-Stream-Gen-Offset
    header, the Content-Length header, and the body as [iter_content]
    hands it over. *)
Record http_response := {
  x_generation : Z;
  x_offset : Z;
  content_length : Z;
  body_chunks : list bytes
}.

Inductive http_answer :=
| Responds (r : http_response)
| HttpFails (e : exn).

(** The server: its answer to the n-th read request, for a console and
    an offset; the maximum size is not part of the request. *)
Definition http_server : Type := nat -> string -> Z -> http_answer.

(** The loop of [_read] over the chunks of the body: each is converted
    and written, its length before conversion counted; the loop stops
    after the chunk that brings the count to [max_size].  Returns the
    count, or the exception of a conversion, and the bytes written. *)
Fixpoint write_chunks (newline : newline_t) (max_size total : Z)
    (chunks : list bytes) : result Z * bytes :=
  match chunks with
  | [] => (Ok total, [])
  | chunk :: rest =>
      match _newline_convert chunk newline with
      | Raise e => (Raise e, [])
      | Ok out =>
          let total := total + blen chunk in
          if (0 <? max_size) && (max_size <=? total) then (Ok total, out)
          else
            let '(r, written) := write_chunks newline max_size total rest in
            (r, out ++ written)
      end
  end.

(** [extension._read] with a file to write to; the file is a capture
    file, whose writes do not fail. *)
Definition _read_to_file (self : extension) (http : http_server)
    (console : option string) (offset max_size : Z) (filename : string)
    (newline : newline_t) (st : state) : result (Z * Z * Z) * state :=
  if offset <? 0 then (Raise (AssertionError "offset"), st)
  else if max_size <? 0 then (Raise (AssertionError "max_size"), st)
  else
    match _console_get self console with
    | Raise e => (Raise e, st)
    | Ok console =>
        let rq := (console, offset, max_size) in
        match http (length (requests st)) console offset with
        | HttpFails e =>
            (Raise e,
             {| buffers_poll := buffers_poll st;
                files := files st;
                testcase_buffers := testcase_buffers st;
                collateral := collateral st;
                requests := requests st ++ [rq] |})
        | Responds r =>
            let '(total, written) :=
              write_chunks newline max_size 0 (body_chunks r) in
            let st' :=
              {| buffers_poll := buffers_poll st;
                 files := <[filename := file_contents st filename ++ written]>
                            (files st);
                 testcase_buffers := testcase_buffers st;
                 collateral := collateral st;
                 requests := requests st ++ [rq] |} in
            match total with
            | Raise e => (Raise e, st')
            | Ok total =>
                (Ok (x_generation r, x_offset r + content_length r, total), st')
            end
        end
    end.

End NewlineConvert.

(** ** Keyboard input of the interactive console *)

(** The loop of [_cmdline_console_write_interactive] over the
    characters of one read from the keyboard: [None] when the second of
    two escapes in a row ends the session, else the characters to send
    and whether the last one was an escape. *)
Fixpoint translate_keys (crlf : pystr) (nl : N) (chars : pystr)
    (_chars : pystr) (one_escape : bool) : option (pystr * bool) :=
  match chars with
  | [] => Some (_chars, one_escape)
  | char :: rest =>
      let _chars :=
        match crlf with
        | _ :: _ => if (char =? nl)%N then _chars ++ crlf else _chars ++ [char]
        | [] => _chars ++ [char]
        end in
      if (char =? 27)%N then
        if one_escape then None
        else translate_keys crlf nl rest _chars true
      else translate_keys crlf nl rest _chars false
  end.

(** The main loop of [_cmdline_console_write_interactive], while the
    reader thread lives: [reads] are the successive texts read from the
    keyboard, the result the texts written to the console, in order.
    An empty read is skipped; the read in which the second escape
    arrives ends the loop before anything of it is written. *)
Fixpoint interactive_writes (crlf : pystr) (nl : N) (reads : list pystr)
    (one_escape : bool) : list pystr :=
  match reads with
  | [] => []
  | chars :: reads' =>
      match chars with
      | [] => interactive_writes crlf nl reads' one_escape
      | _ =>
          match translate_keys crlf nl chars [] one_escape with
          | None => []
          | Some (_chars, one_escape) =>
              _chars :: interactive_writes crlf nl reads' one_escape
          end
      end
  end.

(** [extension.captured_chunk]: the capture from an offset to its end
    (the [size] argument is not used).  A missing file fails with ENOENT
    (errno 2), a negative offset with EINVAL (errno 22). *)
Definition captured_chunk (fs : gmap string bytes) (filename : string)
    (offset_from : Z) : result bytes :=
  match fs !! filename with
  | None => Raise (OtherError 2)
  | Some data =>
      if offset_from <? 0 then Raise (OtherError 22)
      else Ok (skipn (Z.to_nat offset_from) data)
  end.

(** ** The console wall *)

(** The lines of the GNU screen configuration [_cmdline_console_wall]
    writes after its header: "split", "focus top", the two lines that
    start the reader of a console in a window titled with its name,
    "focus down", and the two lines "split -v", "focus right". *)
Inductive screen_line :=
| SplitLine
| FocusTop
| ScreenLine (title : string)
| FocusDown
| SplitVertical.

(** Truth value of an optional integer argument. *)
Definition given (o : option Z) : bool :=
  match o with
  | Some z => negb (z =? 0)
  | None => false
  end.

(** Rows and columns of the wall for [n] consoles; [rows] comes from
    the command line as a positive integer or [None], [columns] as any
    integer or [None].  The square root is that of floats, exact for
    the numbers of consoles there can be. *)
Definition wall_grid (n : Z) (rows columns : option Z) : result (Z * Z) :=
  if given rows && given columns
  then Raise (RuntimeError "can't specify rows and columns")
  else
    match rows with
    | Some rows =>
        if rows =? 0 then Raise ZeroDivisionError
        else Ok (rows, (n + rows - 1) / rows)
    | None =>
        match columns with
        | Some columns =>
            if columns =? 0 then Raise ZeroDivisionError
            else Ok (n / columns, columns)
        | None =>
            let rows := Z.sqrt n in
            if rows =? 0 then Raise ZeroDivisionError
            else Ok (rows, (n + rows - 1) / rows)
        end
    end.

(** The loop over the columns of one row, [k] of them to go:
    [item_iter] holds the names not taken yet, [item] the last one
    taken, [last] is [console_names[-1]].  Returns the lines written,
    what is left of the iterator, the last name taken and [done]. *)
Fixpoint wall_columns (k : nat) (item_iter : list string) (item last : string)
  : list screen_line * (list string * string * bool) :=
  match k with
  | O => ([], (item_iter, item, false))
  | S k' =>
      match item_iter with
      | [] => ([ScreenLine item], ([], item, true))
      | x :: item_iter' =>
          if String.eqb x last then ([ScreenLine x], (item_iter', x, false))
          else
            let sep := match k' with
                       | O => FocusDown
                       | S _ => SplitVertical
                       end in
            let '(more, st) := wall_columns k' item_iter' x last in
            (ScreenLine x :: sep :: more, st)
      end
  end.

(** The loop over the rows, [r] of them to go. *)
Fixpoint wall_rows (r columns : nat) (item_iter : list string)
    (item last : string) : list screen_line :=
  match r with
  | O => []
  | S r' =>
      let '(out, (item_iter', item', done)) :=
        wall_columns columns item_iter item last in
      if done then out
      else out ++ wall_rows r' columns item_iter' item' last
  end.

(** The configuration written for the sorted names of the consoles.
    [item] has no value before the first name is taken; it is not used
    before that. *)
Definition wall_config (console_names : list string) (rows columns : Z)
  : list screen_line :=
  repeat SplitLine (Z.to_nat (rows - 1))
    ++ FocusTop
    :: wall_rows (Z.to_nat rows) (Z.to_nat columns) console_names ""
         (List.last console_names "").

(** [_cmdline_console_wall], from the consoles collected to the
    configuration handed to screen; [None] when there is no console. *)
Definition _cmdline_console_wall (console_names : list string)
    (rows columns : option Z) : result (option (list screen_line)) :=
  match console_names with
  | [] => Ok None
  | _ =>
      try! grid <- wall_grid (Z.of_nat (length console_names)) rows columns;
      Ok (Some (wall_config console_names (fst grid) (snd grid)))
  end.

(** ** The output of the continuous reader *)

(** What an operation on the file the reader writes to does: it
    succeeds, or raises an [IOError] with the given errno. *)
Inductive fd_outcome :=
| FdOk
| FdIOError (errno : nat).

(** The file, as the outcomes of the operations made on it, the next
    one first; once they are used up every operation succeeds. *)
Definition fd_c : Type := list fd_outcome.

(** [errno.EAGAIN]: the file would block. *)
Definition EAGAIN : nat := 11.

(** Code that works on the file: its result, the file afterwards and
    what was done, oldest first. *)
Definition io (A : Type) : Type := fd_c -> result A * fd_c * list event.

Definition io_ret {A} (a : A) : io A := fun fd => (Ok a, fd, []).

Definition io_bind {A B} (m : io A) (k : A -> io B) : io B :=
  fun fd =>
    match m fd with
    | (Ok a, fd', ev) =>
        let '(r, fd'', ev') := k a fd' in (r, fd'', ev ++ ev')
    | (Raise e, fd', ev) => (Raise e, fd', ev)
    end.

Notation "'do!' x <- m ; k" := (io_bind m (fun x => k))
  (at level 10, x name, m at level 9, k at level 10, right associativity).

(** A computation that does not touch the file. *)
Definition io_lift {A} (r : result A) : io A := fun fd => (r, fd, []).

(** [fd.write(data)], not guarded: [text] is the text whose encoding is
    written. *)
Definition fd_write (text : pystr) : io unit :=
  fun fd =>
    match fd with
    | [] => (Ok tt, [], [EvOutput text])
    | FdOk :: fd' => (Ok tt, fd', [EvOutput text])
    | FdIOError errno :: fd' => (Raise (OtherError errno), fd', [])
    end.

(** [fd.flush()] *)
Definition fd_flush : io unit :=
  fun fd =>
    match fd with
    | [] => (Ok tt, [], [])
    | FdOk :: fd' => (Ok tt, fd', [])
    | FdIOError errno :: fd' => (Raise (OtherError errno), fd', [])
    end.

(** [f_write_retry_eagain]: the write is made again, after half a
    second, as long as it raises an [IOError] whose errno is EAGAIN;
    any other one is raised on. *)
Fixpoint f_write_retry_eagain (text : pystr) (fd : fd_c)
  : result unit * fd_c * list event :=
  match fd with
  | [] => (Ok tt, [], [EvOutput text])
  | FdOk :: fd' => (Ok tt, fd', [EvOutput text])
  | FdIOError errno :: fd' =>
      if (errno =? EAGAIN)%nat then
        let '(r, fd'', ev) := f_write_retry_eagain text fd' in
        (r, fd'', EvSleep (1 # 2) :: ev)
      else (Raise (OtherError errno), fd', [])
  end.

(** The characters [str.splitlines] ends a line at, a carriage return
    followed by a line feed counting as one end. *)
Definition is_line_boundary (c : N) : bool :=
  existsb (N.eqb c) [10; 11; 12; 13; 28; 29; 30; 133; 8232; 8233]%N.

(** [data.splitlines(True)]; [cur] is the line being read, last
    character first. *)
Fixpoint splitlines_acc (cur : pystr) (data : pystr) : list pystr :=
  match data with
  | [] =>
      match cur with
      | [] => []
      | _ => [rev cur]
      end
  | c :: data' =>
      if (c =? 13)%N then
        match data' with
        | d :: data'' =>
            if (d =? 10)%N then rev (d :: c :: cur) :: splitlines_acc [] data''
            else rev (c :: cur) :: splitlines_acc [] data'
        | [] => [rev (c :: cur)]
        end
      else if is_line_boundary c then rev (c :: cur) :: splitlines_acc [] data'
      else splitlines_acc (c :: cur) data'
  end.

Definition splitlines (data : pystr) : list pystr := splitlines_acc [] data.

Section ReaderOutput.

(** The text of the time stamp, [utcnow().strftime(...)]; it is plain
    ASCII, which always encodes. *)
Variable stamp : pystr.

(** The loop of [_console_reader_c.read] over the lines of the data. *)
Fixpoint write_lines (with_stamp : bool) (lines : list pystr) : io unit :=
  match lines with
  | [] => io_ret tt
  | line :: lines' =>
      do! _ <- (if with_stamp then fd_write stamp else io_ret tt);
      do! _ <- (io_lift (Utf8.encode line));
      do! _ <- (f_write_retry_eagain line);
      do! _ <- (if existsb (N.eqb 10) line then f_write_retry_eagain [13%N]
                else io_ret tt);
      write_lines with_stamp lines'
  end.

(** What [read] does with the data it was given: nothing when there
    are none, else the lines are written, each followed by a carriage
    return if it holds a line feed, and the file is flushed.  Returns
    [data_len]. *)
Definition write_data (self : _console_reader_c) (data : pystr) : io Z :=
  match data with
  | [] => io_ret 0
  | _ =>
      do! _ <- (write_lines (timestamp self) (splitlines data));
      do! _ <- fd_flush;
      io_ret (plen data)
  end.

(** [_console_reader_c.read] with its output to the file: as [read],
    but for the data being written line by line, which can fail and
    can wait.  An answer of the transport that is an exception is dealt
    with before the file is touched. *)
Definition read_to_fd (resp : text_response) (flags_restore : option term_flags)
    (self : _console_reader_c) (fd : fd_c)
  : result Z * _console_reader_c * fd_c * list event :=
  match resp with
  | ReadText generation new_offset data =>
      let restarted := match generation_prev self with
                       | Some g => negb (g =? generation)
                       | None => false
                       end in
      let offset := if restarted then plen data else new_offset in
      let ev0 := if restarted then [EvWarning "console was restarted"] else [] in
      let with_backoff (errors : Z) (backoff : Q) :=
        {| rd_console := rd_console self;
           rd_offset := offset;
           server_connection_errors := errors;
           server_connection_errors_max := server_connection_errors_max self;
           backoff_wait := backoff;
           backoff_wait_max := backoff_wait_max self;
           generation_prev := Some generation;
           timestamp := timestamp self |} in
      match write_data self data fd with
      | (Raise e, fd', ev1) =>
          (Raise e,
           with_backoff (server_connection_errors self) (backoff_wait self),
           fd', ev0 ++ ev1)
      | (Ok data_len, fd', ev1) =>
          let backoff := if data_len =? 0 then (2 * backoff_wait self)%Q
                         else 1 # 10 in
          let backoff := cap (backoff_wait_max self) backoff in
          match time_sleep backoff with
          | Raise e =>
              (Raise e, with_backoff (server_connection_errors self) backoff,
               fd', ev0 ++ ev1)
          | Ok ev2 =>
              (Ok data_len,
               (if 0 <? server_connection_errors self
                then with_backoff 0 (1 # 10)
                else with_backoff (server_connection_errors self) backoff),
               fd', ev0 ++ ev1 ++ ev2)
          end
      end
  | FailsText _ =>
      let '(r, self', ev) := read resp flags_restore self in
      (r, self', fd, ev)
  end.

(** The loop of [_console_read_thread_fn], with the output to the
    file. *)
Fixpoint read_loop_to_fd (script : list text_response)
    (_flags_restore : option term_flags) (reader : _console_reader_c)
    (fd : fd_c) : loop_outcome * _console_reader_c * list event :=
  match script with
  | [] => (Running, reader, [])
  | resp :: script' =>
      match read_to_fd resp _flags_restore reader fd with
      | (Raise e, reader', _, ev) =>
          (Terminated e, reader',
           ev ++ restore_flags _flags_restore ++ [EvLogException e])
      | (Ok _, reader', fd', ev) =>
          let '(out, reader'', ev') :=
            read_loop_to_fd script' _flags_restore reader' fd' in
          (out, reader'', ev ++ ev')
      end
  end.

(** [_console_read_thread_fn], with the output to the file. *)
Definition _console_read_thread_fn_to_fd (size : option Z)
    (console : option string) (fd : fd_c) (offset : Z) (backoff_wait_max : Q)
    (_flags_restore : option term_flags) (timestamp : bool)
    (script : list text_response)
  : loop_outcome * _console_reader_c * list event :=
  let offset := offset_calc size offset in
  read_loop_to_fd script _flags_restore
    (new_console_reader console offset backoff_wait_max 10 timestamp) fd.

End ReaderOutput.

(** ** Notions used to state the properties *)

(** [needle] occurs in [hay] at position [i]. *)
Definition occurs_at (needle hay : bytes) (i : nat) : Prop :=
  exists pre post, hay = pre ++ needle ++ post /\ length pre = i.

(** The match object of a literal [b] found at position [i]. *)
Definition match_at (b : bytes) (i : nat) : Re.Match :=
  {| Re.m_start := i; Re.m_end := (i + length b)%nat |}.

(** The token [re.escape] makes the lexer read for the byte [c]. *)
Definition tok_of (c : byte) : Re.tok :=
  if Re.is_special c then Re.TEsc c else Re.TRaw c.

(** The state once the search offset [s] of the context behind [key]
    is in the dictionary: [detect] stores 0 for a context it has not
    seen yet. *)
Definition init_cursor (key : string) (s : Z) (st : state) : state :=
  set_buffers_poll (<[key := VInt s]> (buffers_poll st)) st.

(** What [regex_set] compiles a plain [bytes] pattern to. *)
Definition compiled_literal (b : bytes) : Pattern :=
  {| pattern := SrcBytes (Re.escape b);
     run := Re.search_nodes (Re.literal b) |}.

(** The bytes a plain (not compiled) pattern stands for. *)
Definition plain_bytes (text : pyobj) : result bytes :=
  match text with
  | PStr s => Utf8.encode s
  | PBytes b => Ok b
  | _ => Raise (TypeError "not a plain pattern")
  end.

(** ** A console session used in the examples

    A target with one console, [serial0], on which [login:] is
    expected; the transport first answers with generation 1 and the
    body [body_A], then reports generation 2 (the target was power
    cycled) and, read again from the start, the body [body_B]. *)

Definition a_target : target_c :=
  {| want_name := "target";
     target_id := "t0";
     fullid := "local/t0";
     console_default := "serial0";
     report_file_prefix := "report-" |}.

Definition expect_login (ctx : string) (report : report_t)
  : expect_text_on_console_c :=
  {| target := a_target;
     poll_period := 1 # 4;
     timeout := Some (30 # 1);
     regex := compiled_literal (bytes_of_string "login:");
     name := "login_";
     _console := None;
     previous_max := 4096;
     detect_context := ctx;
     report := report |}.

(** The 13 characters of the specification's first scenario, as they
    are written there: the fifth is a backslash, the sixth an "n". *)
Definition body_A : bytes := bytes_of_string "boot\nlogin: ".

(** The same with a line feed after "boot": 12 bytes. *)
Definition body_A_lf : bytes :=
  bytes_of_string "boot" ++ [x0a] ++ bytes_of_string "login: ".

Definition body_B : bytes := bytes_of_string "boot\n".

Definition session_transport : transport :=
  fun n rq =>
    match n with
    | 0%nat => Read 1 13 body_A
    | 1%nat => Read 2 13 []
    | 2%nat => Read 2 6 body_B
    | _ => Fails (ReadTimeout n)
    end.

Definition empty_state : state :=
  {| buffers_poll := ∅;
     files := ∅;
     testcase_buffers := ∅;
     collateral := ∅;
     requests := [] |}.

(** After the first poll: the capture file holds [body_A]. *)
Definition state_A : state :=
  snd (poll session_transport (Some 0) (expect_login "" ReportNone) empty_state).

(** After a first detection of [login:] by the default context. *)
Definition state_A_detected : state :=
  snd (detect (expect_login "" ReportNone) state_A).

(** After the poll that sees the restart. *)
Definition state_B : state :=
  snd (poll session_transport (Some 0) (expect_login "" ReportNone) state_A_detected).

(** A capture of 50 bytes that ends in [login:], then goes on. *)
Definition body_C : bytes :=
  repeat "."%byte 44 ++ bytes_of_string "login:" ++ bytes_of_string " ok".

Definition state_C : state :=
  snd (poll (fun _ _ => Read 1 53 body_C) (Some 0)
         (expect_login "" ReportNone) empty_state).

(** The errors that tell of a malformed pattern: what [re.compile]
    raises, what a search with a [str] pattern on bytes raises, and the
    assertions on [text_or_regex]. *)
Definition is_pattern_error (e : exn) : bool :=
  match e with
  | re_error _ => true
  | TypeError msg =>
      String.eqb msg "cannot use a string pattern on a bytes-like object"
  | AssertionError msg => String.prefix "text_or_regex" msg
  | _ => false
  end.

(** A transport that raises no pattern error of its own. *)
Definition pattern_blind (srv : transport) : Prop :=
  forall n rq e, srv n rq = Fails e -> is_pattern_error e = false.

(** A transport that times out on the first [n] calls, then answers. *)
Definition flaky_transport (n : nat) : transport :=
  fun i rq => if (i <? n)%nat then Fails (ReadTimeout i) else Read 1 13 body_A.

(** A transport that times out on its calls 0 to 3, answers call 4
    with a restarted console (generation 2), and times out again on the
    calls after that. *)
Definition restart_after_timeouts : transport :=
  fun i rq =>
    if (i <? 4)%nat then Fails (ReadTimeout i)
    else if (i =? 4)%nat then Read 2 6 body_B
    else Fails (ReadTimeout i).

(** The state right after the poll context was initialised. *)
Definition fresh_state : state :=
  snd (_poll_context_init (Some 0) a_target "serial0" 4096 empty_state).

(** A transport that never answers with a new offset before the offset
    it was asked to read from. *)
Definition never_behind (srv : transport) : Prop :=
  forall n console offset max_size generation new_offset data,
    srv n (console, offset, max_size) = Read generation new_offset data ->
    offset <= new_offset.

(** A state with no poll context yet, where a capture file of an
    earlier run is still around. *)
Definition stale_state : state :=
  {| buffers_poll := ∅;
     files := {[ "report-console-target.t0.serial0.txt" := body_A ]};
     testcase_buffers := ∅;
     collateral := ∅;
     requests := [] |}.

(** [n] connection failures in a row, tagged 0 to [n - 1]. *)
Definition failures (n : nat) : list text_response :=
  map (fun i => FailsText (ConnectionError i)) (seq 0 n).

(** What holds of a reader from its construction on, when the backoff
    ceiling it is given is not negative: the failure count, the backoff
    and the ceiling are not negative. *)
Definition reader_ok (self : _console_reader_c) : Prop :=
  0 <= server_connection_errors self
  /\ (0 <= backoff_wait self)%Q
  /\ (0 <= backoff_wait_max self)%Q.

(** The console interface of a target with the one console [serial0]
    and no chunking. *)
Definition a_console : extension :=
  {| aliases := ∅;
     console_list := ["serial0"];
     _default := None;
     default_property := None;
     chunk_size := ∅;
     interchunk_wait := ∅ |}.

(** ** Further notions used to state properties *)

(** A compiled pattern whose matches lie inside the searched bytes, as
    those of [re] do. *)
Definition bounded_pattern (p : Pattern) : Prop :=
  forall data m,
    run p data = Some m ->
    (Re.m_start m <= Re.m_end m /\ Re.m_end m <= length data)%nat.

(** From [st] to [st'] the capture file [f] only grew at its end, and
    no other file and no collateral entry changed. *)
Definition capture_grows (f : string) (st st' : state) : Prop :=
  (exists extra, file_contents st' f = file_contents st f ++ extra)
  /\ (forall other, other <> f -> files st' !! other = files st !! other)
  /\ collateral st' = collateral st.

(** [n] polls in a row, as the expect loop makes them, up to the first
    one that raises. *)
Fixpoint polls (n : nat) (srv : transport) (self : expect_text_on_console_c)
    (st : state) : result unit * state :=
  match n with
  | O => (Ok tt, st)
  | S n' =>
      match _poll srv self st with
      | (Ok _, st') => polls n' srv self st'
      | (Raise e, st') => (Raise e, st')
      end
  end.

(** The offsets asked for by a list of requests. *)
Definition offsets_asked (rqs : list request) : list Z :=
  map (fun rq => snd (fst rq)) rqs.

(** The lengths of the sleeps among the reader's doings. *)
Definition sleeps (ev : list event) : list Q :=
  flat_map (fun e => match e with EvSleep q => [q] | _ => [] end) ev.

(** The backoff is at most the ceiling, or is the initial 0.1 s. *)
Definition backoff_within (self : _console_reader_c) : Prop :=
  (backoff_wait self <= backoff_wait_max self)%Q \/ backoff_wait self = 1 # 10.

(** A target with a serial and an SSH console, the second one also
    known as [preferred]. *)
Definition two_consoles : extension :=
  {| aliases := {[ "preferred" := "ssh0" ]};
     console_list := ["serial0"; "ssh0"];
     _default := None;
     default_property := None;
     chunk_size := ∅;
     interchunk_wait := ∅ |}.

(** Whether [s] is a run of carriage returns followed by a line feed. *)
Fixpoint crs_then_lf (s : bytes) : bool :=
  match s with
  | [] => false
  | c :: s' => Byte.eqb c x0a || (Byte.eqb c x0d && crs_then_lf s')
  end.

(** Universal end-of-line conversion, told byte by byte: a carriage
    return goes when only carriage returns separate it from a line
    feed, any other one becomes a line feed, all else stays. *)
Fixpoint universal_newlines (s : bytes) : bytes :=
  match s with
  | [] => []
  | c :: s' =>
      if Byte.eqb c x0d then
        if crs_then_lf s' then universal_newlines s'
        else x0a :: universal_newlines s'
      else c :: universal_newlines s'
  end.

(** Two escapes in a row somewhere in the keys typed. *)
Definition double_escape (chars : pystr) : Prop :=
  exists pre post, chars = pre ++ 27%N :: 27%N :: post.

(** The keys as they are sent: the terminal's end of line replaced by
    [crlf], when there is one to replace it with. *)
Definition keys_sent (crlf : pystr) (nl : N) (chars : pystr) : pystr :=
  match crlf with
  | [] => chars
  | _ => flat_map (fun c => if (c =? nl)%N then crlf else [c]) chars
  end.

(** The keys typed, after an escape still pending from the read
    before, if there is one. *)
Definition after_escape (one_escape : bool) (chars : pystr) : pystr :=
  if one_escape then 27%N :: chars else chars.

(** Lines as a file gives them: none is empty, and each but the last
    ends with a line feed. *)
Fixpoint whole_lines (ls : list bytes) : Prop :=
  match ls with
  | [] => True
  | l :: rest =>
      l <> [] /\ (rest <> [] -> ends_with_lf l = true) /\ whole_lines rest
  end.

(** One line: bytes without a line feed, then a line feed or the end
    of the file. *)
Definition one_line (l : bytes) : Prop :=
  exists body, (l = body ++ [x0a] \/ (l = body /\ body <> []))
               /\ ~ In x0a body.

(** A server that answers a read from 0 with twelve bytes, in three
    chunks. *)
Definition chunked_server : http_server :=
  fun _ _ _ =>
    Responds {| x_generation := 1;
                x_offset := 0;
                content_length := 12;
                body_chunks := [bytes_of_string "boot";
                                bytes_of_string " log";
                                bytes_of_string "in: "] |}.

(** The titles of the windows a configuration starts, in order. *)
Definition windows (config : list screen_line) : list string :=
  flat_map (fun l => match l with ScreenLine t => [t] | _ => [] end) config.

(** The number of regions a configuration divides the terminal into:
    one, and one more for every split. *)
Definition regions (config : list screen_line) : nat :=
  S (length (List.filter (fun l => match l with
                                   | SplitLine | SplitVertical => true
                                   | _ => false
                                   end) config)).

(** * Properties *)

(** ** The regular expression engine *)

Lemma byte_eqb_refl (c : byte) : Byte.eqb c c = true.
Proof. now apply byte_dec_lb. Qed.

Lemma byte_eqb_eq (c d : byte) : Byte.eqb c d = true <-> c = d.
Proof. split; [apply byte_dec_bl | apply byte_dec_lb]. Qed.

Lemma span_le cs s : (Re.span cs s <= length s)%nat.
Proof.
  induction s as [|c s IH]; simpl; [lia|].
  destruct (Re.charset_mem cs c); simpl; lia.
Qed.

Lemma backtrack_bound k lo prev s j n :
  (forall pv t m, k pv t = Some m -> (m <= length t)%nat) ->
  (j <= length s)%nat ->
  Re.backtrack k lo prev s j = Some n -> (n <= length s)%nat.
Proof.
  intros Hk. induction j as [|j IH]; simpl; intros Hj H.
  - destruct (lo <=? 0)%nat; [|discriminate].
    destruct (k _ _) as [m|] eqn:E; [|discriminate].
    injection H as <-. apply Hk in E. rewrite length_skipn in E. lia.
  - destruct (if (lo <=? S j)%nat then _ else None) as [m|] eqn:E.
    + injection H as <-.
      destruct (lo <=? S j)%nat; [|discriminate].
      apply Hk in E. rewrite length_skipn in E. lia.
    + apply IH; [lia | exact H].
Qed.

Lemma match_here_bound p : forall prev s n,
  Re.match_here p prev s = Some n -> (n <= length s)%nat.
Proof.
  induction p as [|nd p IH]; intros prev s n H; simpl in H.
  - injection H as <-. lia.
  - destruct nd as [cs q | |].
    + destruct q.
      * destruct s as [|c s]; [discriminate|].
        destruct (Re.charset_mem cs c); [|discriminate].
        destruct (Re.match_here p (Some c) s) as [m|] eqn:E; [|discriminate].
        injection H as <-. apply IH in E. simpl. lia.
      * eapply backtrack_bound; [exact IH | | exact H].
        pose proof (span_le cs s). destruct (Re.span cs s); lia.
      * eapply backtrack_bound; [exact IH | | exact H]. apply span_le.
      * eapply backtrack_bound; [exact IH | | exact H]. apply span_le.
    + destruct (Re.at_bol prev); [eauto | discriminate].
    + destruct (Re.at_eol s); [eauto | discriminate].
Qed.

Lemma search_from_bound p : forall s prev i m,
  Re.search_from p prev s i = Some m ->
  (i <= Re.m_start m /\ Re.m_start m <= Re.m_end m
   /\ Re.m_end m <= i + length s)%nat.
Proof.
  induction s as [|c s IH]; intros prev i m H; simpl in H.
  - destruct (Re.match_here p prev []) as [n|] eqn:E; [|discriminate].
    injection H as <-. apply match_here_bound in E. simpl in *. lia.
  - destruct (Re.match_here p prev (c :: s)) as [n|] eqn:E.
    + injection H as <-. apply match_here_bound in E. simpl in *. lia.
    + apply IH in H. simpl. lia.
Qed.

Lemma search_nodes_bound p data m :
  Re.search_nodes p data = Some m ->
  (Re.m_start m <= Re.m_end m /\ Re.m_end m <= length data)%nat.
Proof. intros H. apply search_from_bound in H. lia. Qed.

Lemma match_here_literal b : forall prev s,
  Re.match_here (Re.literal b) prev s
  = if Re.is_prefix b s then Some (length b) else None.
Proof.
  induction b as [|c b IH]; intros prev s; simpl; [reflexivity|].
  destruct s as [|d s]; [reflexivity|].
  destruct (Byte.eqb c d); simpl; [|reflexivity].
  rewrite IH. destruct (Re.is_prefix b s); reflexivity.
Qed.

Lemma search_from_literal b : forall s prev i,
  Re.search_from (Re.literal b) prev s i
  = option_map (match_at b) (Re.find_from b s i).
Proof.
  induction s as [|d s IH]; intros prev i; simpl;
    rewrite match_here_literal.
  - destruct (Re.is_prefix b []); reflexivity.
  - destruct (Re.is_prefix b (d :: s)); [reflexivity | apply IH].
Qed.

Lemma search_literal b data :
  Re.search_nodes (Re.literal b) data = option_map (match_at b) (Re.find b data).
Proof. apply search_from_literal. Qed.

Lemma is_prefix_spec b : forall s,
  Re.is_prefix b s = true <-> exists t, s = b ++ t.
Proof.
  induction b as [|c b IH]; intros s; simpl.
  - split; [intros _; now exists s | reflexivity].
  - destruct s as [|d s].
    + split; [discriminate | intros [t H]; discriminate].
    + rewrite andb_true_iff, byte_eqb_eq, IH. split.
      * intros [-> [t ->]]. now exists t.
      * intros [t H]. injection H as -> ->. split; [reflexivity | now exists t].
Qed.

Lemma is_prefix_occurs b s : Re.is_prefix b s = true <-> occurs_at b s 0.
Proof.
  rewrite is_prefix_spec. split.
  - intros [t ->]. now exists [], t.
  - intros (pre & post & -> & Hl). destruct pre; [|discriminate]. now exists post.
Qed.

Lemma occurs_at_cons b d s i : occurs_at b (d :: s) (S i) <-> occurs_at b s i.
Proof.
  split.
  - intros (pre & post & H & Hl). destruct pre as [|x pre]; [discriminate|].
    injection H as -> ->. injection Hl as <-. now exists pre, post.
  - intros (pre & post & -> & <-). now exists (d :: pre), post.
Qed.

Lemma occurs_at_nil b i : occurs_at b [] i -> i = 0%nat.
Proof.
  intros (pre & post & H & <-). destruct pre; [reflexivity | discriminate].
Qed.

Lemma find_from_some b : forall s i r,
  Re.find_from b s i = Some r <->
  exists j, r = (i + j)%nat /\ occurs_at b s j
            /\ forall j', (j' < j)%nat -> ~ occurs_at b s j'.
Proof.
  induction s as [|d s IH]; intros i r; simpl.
  - destruct (Re.is_prefix b []) eqn:E.
    + apply is_prefix_occurs in E. split.
      * intros [= <-]. exists 0%nat. repeat split; [lia | exact E | lia].
      * intros (j & -> & Hj & _). apply occurs_at_nil in Hj as ->. f_equal. lia.
    + split; [discriminate|]. intros (j & _ & Hj & _).
      pose proof (occurs_at_nil _ _ Hj) as ->.
      apply is_prefix_occurs in Hj. congruence.
  - destruct (Re.is_prefix b (d :: s)) eqn:E.
    + apply is_prefix_occurs in E. split.
      * intros [= <-]. exists 0%nat. repeat split; [lia | exact E | lia].
      * intros (j & -> & Hj & Hmin). destruct j as [|j]; [f_equal; lia|].
        exfalso. apply (Hmin 0%nat); [lia | exact E].
    + rewrite IH. split.
      * intros (j & -> & Hj & Hmin). exists (S j). repeat split; [lia | |].
        -- apply (proj2 (occurs_at_cons b d s j)), Hj.
        -- intros [|j'] Hlt Ho.
           ++ apply is_prefix_occurs in Ho. congruence.
           ++ apply occurs_at_cons in Ho. apply (Hmin j'); [lia | exact Ho].
      * intros (j & -> & Hj & Hmin). destruct j as [|j].
        -- apply is_prefix_occurs in Hj. congruence.
        -- exists j. repeat split; [lia | apply (proj1 (occurs_at_cons b d s j)), Hj |].
           intros j' Hlt Ho. apply (Hmin (S j')); [lia | apply (proj2 (occurs_at_cons b d s j')), Ho].
Qed.

Lemma find_some b data i :
  Re.find b data = Some i <->
  occurs_at b data i /\ forall j, (j < i)%nat -> ~ occurs_at b data j.
Proof.
  unfold Re.find. rewrite find_from_some. split.
  - intros (j & -> & H). exact H.
  - intros H. exists i. split; [reflexivity | exact H].
Qed.

Lemma find_from_none b : forall s i,
  Re.find_from b s i = None <-> forall j, ~ occurs_at b s j.
Proof.
  induction s as [|d s IH]; intros i; simpl.
  - destruct (Re.is_prefix b []) eqn:E.
    + split; [discriminate|]. intros H. apply is_prefix_occurs in E.
      now apply H in E.
    + split; [|reflexivity]. intros _ j Hj.
      pose proof (occurs_at_nil _ _ Hj) as ->.
      apply is_prefix_occurs in Hj. congruence.
  - destruct (Re.is_prefix b (d :: s)) eqn:E.
    + split; [discriminate|]. intros H. apply is_prefix_occurs in E.
      now apply H in E.
    + rewrite IH. split.
      * intros H [|j] Hj.
        -- apply is_prefix_occurs in Hj. congruence.
        -- apply occurs_at_cons in Hj. now apply H in Hj.
      * intros H j Hj. apply (H (S j)). apply (proj2 (occurs_at_cons b d s j)), Hj.
Qed.

Lemma find_none b data :
  Re.find b data = None <-> forall j, ~ occurs_at b data j.
Proof. apply find_from_none. Qed.

Lemma special_not_alnum c : Re.is_special c = true -> Re.is_alnum c = false.
Proof. destruct c; intros H; try reflexivity; discriminate H. Qed.

Lemma plain_not_backslash c : Re.is_special c = false -> Byte.eqb c x5c = false.
Proof. destruct c; intros H; try reflexivity; discriminate H. Qed.

Lemma plain_is_literal c :
  Re.is_special c = false ->
  Re.atom_of (Re.GTok (Re.TRaw c)) = Some (Re.AChar (Re.CLit c))
  /\ Re.is_raw "[" (Re.TRaw c) = false.
Proof. destruct c; intros H; try (split; reflexivity); discriminate H. Qed.

Lemma atom_of_tok_of c :
  Re.atom_of (Re.GTok (tok_of c)) = Some (Re.AChar (Re.CLit c)).
Proof.
  unfold tok_of. destruct (Re.is_special c) eqn:E; [reflexivity|].
  now apply plain_is_literal.
Qed.

Lemma lex_escape b : Re.lex (Re.escape b) = Some (map tok_of b).
Proof.
  induction b as [|c b IH]; [reflexivity|].
  cbn [Re.escape map]. unfold tok_of at 1.
  destruct (Re.is_special c) eqn:E.
  - cbn [Re.lex]. rewrite (special_not_alnum _ E), IH. reflexivity.
  - cbn [Re.lex]. rewrite (plain_not_backslash _ E), IH. reflexivity.
Qed.

Lemma group_tok_of b :
  Re.group None (map tok_of b) = Some (map Re.GTok (map tok_of b)).
Proof.
  induction b as [|c b IH]; [reflexivity|].
  cbn [map Re.group].
  assert (Hraw : Re.is_raw "[" (tok_of c) = false).
  { unfold tok_of. destruct (Re.is_special c) eqn:E; [reflexivity|].
    now apply plain_is_literal. }
  rewrite Hraw, IH. reflexivity.
Qed.

Lemma nodes_tok_of b :
  Re.nodes (map Re.GTok (map tok_of b)) = Some (Re.literal b).
Proof.
  induction b as [|c b IH]; [reflexivity|].
  cbn [map Re.nodes]. rewrite atom_of_tok_of.
  destruct b as [|c' b]; [reflexivity|].
  cbn [map] in *. unfold Re.repeat_of. rewrite atom_of_tok_of.
  rewrite IH. reflexivity.
Qed.

(** Compiling an escaped pattern gives the literal pattern. *)
Lemma parse_escape b : Re.parse (Re.escape b) = Some (Re.literal b).
Proof.
  unfold Re.parse. rewrite lex_escape, group_tok_of. apply nodes_tok_of.
Qed.

Example re_dot_is_special :
  option_map (fun p => Re.search_nodes p (bytes_of_string "xxabc"))
    (Re.parse (bytes_of_string "a.c"))
  = Some (Some {| Re.m_start := 2; Re.m_end := 5 |}).
Proof. reflexivity. Qed.

Example re_set_and_repeats :
  option_map (fun p => Re.search_nodes p (bytes_of_string "id=4521;"))
    (Re.parse (bytes_of_string "[0-9]+;?"))
  = Some (Some {| Re.m_start := 3; Re.m_end := 8 |}).
Proof. reflexivity. Qed.

Example re_escape_quotes_specials :
  Re.escape (bytes_of_string "a.c*[") = bytes_of_string "a\.c\*\[".
Proof. reflexivity. Qed.

(** ** The detector *)

Lemma search_offset_keys_differ (ctx : string) :
  ctx +:+ "search_offset" <> ctx +:+ "search_offset_prev".
Proof. intros H. apply String.app_inj in H. discriminate H. Qed.

Lemma blen_zero (b : bytes) : (blen b =? 0) = true <-> b = [].
Proof.
  unfold blen. rewrite Z.eqb_eq. destruct b; simpl; [tauto|].
  split; [lia | discriminate].
Qed.

Lemma init_cursor_present key s st :
  buffers_poll st !! key = Some (VInt s) -> init_cursor key s st = st.
Proof.
  intros H. unfold init_cursor, set_buffers_poll. destruct st as [bp fs tb co rq].
  simpl in *. now rewrite insert_id.
Qed.

(** [detect] on a state with captured data: the search runs on the
    capture from the stored search offset on. *)
Lemma detect_unfold self st filename s :
  buffers_poll st !! "of" = Some (VFile filename) ->
  file_contents st filename <> [] ->
  get_int (buffers_poll st) (detect_context_of self +:+ "search_offset") 0 = Ok s ->
  detect self st =
    let st0 := init_cursor (detect_context_of self +:+ "search_offset") s st in
    match Pattern_search (regex self) (slice_from (file_contents st filename) s) with
    | Raise e => (Raise e, st0)
    | Ok None => (Ok None, st0)
    | Ok (Some m) => found self (detect_context_of self) s m st0
    end.
Proof.
  intros Hof Hne Hs. unfold detect. rewrite Hof.
  destruct (blen (file_contents st filename) =? 0) eqn:E.
  { apply blen_zero in E. contradiction. }
  unfold get_int in Hs. cbv zeta.
  destruct (buffers_poll st !! (detect_context_of self +:+ "search_offset"))
    as [[z|f]|] eqn:Ek.
  - injection Hs as ->. rewrite Ek. rewrite (init_cursor_present _ _ _ Ek).
    reflexivity.
  - discriminate.
  - injection Hs as <-. unfold init_cursor.
    unfold set_buffers_poll at 1 2. cbn [buffers_poll].
    rewrite lookup_insert_eq. reflexivity.
Qed.

Lemma found_buffers self ctx s m st :
  buffers_poll (snd (found self ctx s m st)) =
    <[ctx +:+ "search_offset" := VInt (s + Z.of_nat (Re.m_end m))]>
      (<[ctx +:+ "search_offset_prev" := VInt s]> (buffers_poll st)).
Proof. unfold found. destruct (report self) as [|[| |]|]; reflexivity. Qed.

Lemma found_files self ctx s m st :
  files (snd (found self ctx s m st)) = files st.
Proof. unfold found. destruct (report self) as [|[| |]|]; reflexivity. Qed.

(** Every offset [detect] reports lies at or after the offset the
    search started from. *)
Lemma found_offsets self ctx s m st md :
  fst (found self ctx s m st) = Ok (Some md) ->
  s <= offset md /\ offset md <= offset_match_start md
  /\ offset_match_start md - offset md = Z.of_nat (Re.m_start m)
  /\ offset_match_end md - offset md = Z.of_nat (Re.m_end m).
Proof.
  unfold found. destruct (report self) as [|[| |]|]; cbn [fst];
    intros H; try discriminate H; injection H as <-; cbn; lia.
Qed.

Lemma detect_offsets self st md s :
  get_int (buffers_poll st) (detect_context_of self +:+ "search_offset") 0 = Ok s ->
  fst (detect self st) = Ok (Some md) ->
  s <= offset md /\ s <= offset_match_start md
  /\ offset_match_start md <= offset_match_end md + (offset_match_start md - offset md).
Proof.
  intros Hs H.
  destruct (buffers_poll st !! "of") as [[z|filename]|] eqn:Hof;
    try (unfold detect in H; rewrite Hof in H; discriminate H).
  destruct (file_contents st filename) as [|c data] eqn:Hdata.
  { unfold detect in H. rewrite Hof, Hdata in H. discriminate H. }
  rewrite (detect_unfold self st filename s Hof) in H;
    [| rewrite Hdata; discriminate | exact Hs].
  cbv zeta in H.
  destruct (Pattern_search _ _) as [[m|]|e]; try discriminate H.
  apply found_offsets in H. lia.
Qed.

(** C1. No double match: when [detect] finds a match ending at
    relative offset [e] of the region searched from the stored search
    offset [s], it stores [s + e] as the context's search offset and
    [s] as its previous one, leaving the capture as it is; whatever a
    second [detect] on that state reports starts at or after [s + e],
    the end of the first match. *)
Theorem detect_no_double_match self st filename s m :
  buffers_poll st !! "of" = Some (VFile filename) ->
  file_contents st filename <> [] ->
  get_int (buffers_poll st) (detect_context_of self +:+ "search_offset") 0 = Ok s ->
  Pattern_search (regex self) (slice_from (file_contents st filename) s)
    = Ok (Some m) ->
  let b := s + Z.of_nat (Re.m_end m) in
  let st1 := snd (detect self st) in
  buffers_poll st1 !! (detect_context_of self +:+ "search_offset") = Some (VInt b)
  /\ buffers_poll st1 !! (detect_context_of self +:+ "search_offset_prev")
     = Some (VInt s)
  /\ files st1 = files st
  /\ forall md2, fst (detect self st1) = Ok (Some md2) ->
       b <= offset md2 /\ b <= offset_match_start md2.
Proof.
  intros Hof Hne Hs Hm b st1.
  assert (Hbp : buffers_poll st1 =
    <[detect_context_of self +:+ "search_offset" := VInt b]>
      (<[detect_context_of self +:+ "search_offset_prev" := VInt s]>
         (buffers_poll
            (init_cursor (detect_context_of self +:+ "search_offset") s st)))).
  { subst st1. rewrite (detect_unfold self st filename s Hof Hne Hs).
    cbv zeta. rewrite Hm. apply found_buffers. }
  assert (Hfiles : files st1 = files st).
  { subst st1. rewrite (detect_unfold self st filename s Hof Hne Hs).
    cbv zeta. rewrite Hm, found_files. reflexivity. }
  assert (Hcur : buffers_poll st1 !! (detect_context_of self +:+ "search_offset")
                 = Some (VInt b)).
  { rewrite Hbp. apply lookup_insert_eq. }
  repeat split.
  - exact Hcur.
  - rewrite Hbp, lookup_insert_ne by apply search_offset_keys_differ.
    apply lookup_insert_eq.
  - exact Hfiles.
  - eapply (detect_offsets self st1 md2 b); [|eassumption].
    unfold get_int. now rewrite Hcur.
  - eapply (detect_offsets self st1 md2 b); [|eassumption].
    unfold get_int. now rewrite Hcur.
Qed.

Lemma detect_no_double_match_witness :
  buffers_poll state_A_detected !! "serial0search_offset" = Some (VInt 12)
  /\ buffers_poll state_A_detected !! "serial0search_offset_prev" = Some (VInt 0)
  /\ files state_A_detected = files state_A
  /\ forall md2,
       fst (detect (expect_login "" ReportNone) state_A_detected) = Ok (Some md2) ->
       12 <= offset md2 /\ 12 <= offset_match_start md2.
Proof.
  apply (detect_no_double_match (expect_login "" ReportNone) state_A
           "report-console-target.t0.serial0.txt" 0
           {| Re.m_start := 6; Re.m_end := 12 |}).
  - vm_compute. reflexivity.
  - vm_compute. discriminate.
  - vm_compute. reflexivity.
  - vm_compute. reflexivity.
Defined.

(** What [detect] attaches and reports for each report policy, for a
    match at relative [a, e) of the region searched from [s]: with no
    policy or policy 0, and with a policy [n] that is at least [e], the
    offsets are the absolute ones; with a policy [0 < n < e] the local
    search offset is rewound to [s + e - n] and every reported offset is
    computed from that. *)
Lemma found_result self ctx s m st :
  let a := Z.of_nat (Re.m_start m) in
  let e := Z.of_nat (Re.m_end m) in
  let md_at (base : Z) (key : option string) :=
    {| console_output :=
         match key with
         | Some k => Some (k, generator_factory (console self) base (base + e))
         | None => None
         end;
       md_target := target self;
       md_console := console self;
       md_pattern := pattern (regex self);
       offset := base;
       offset_match_start := base + a;
       offset_match_end := base + e |} in
  match report self with
  | ReportNone =>
      fst (found self ctx s m st) = Ok (Some (md_at s (Some "console output")))
  | ReportInt n =>
      if n =? 0 then fst (found self ctx s m st) = Ok (Some (md_at s None))
      else if e <=? n then
        fst (found self ctx s m st)
        = Ok (Some (md_at s (Some "console output (partial)")))
      else
        fst (found self ctx s m st)
        = Ok (Some (md_at (s + e - n) (Some "console output (partial)")))
  | ReportOther => exists msg, fst (found self ctx s m st) = Raise (AssertionError msg)
  end.
Proof.
  intros a e md_at. unfold found. destruct (report self) as [|n|].
  - reflexivity.
  - destruct (n =? 0) eqn:E0.
    + apply Z.eqb_eq in E0 as ->. reflexivity.
    + apply Z.eqb_neq in E0. fold e.
      replace (fst (match n with 0 => _ | _ => _ end))
        with (Ok (A := option match_data)
                (Some (md_at (Z.max s (s + e - n)) (Some "console output (partial)"))))
        by (destruct n; [contradiction | reflexivity | reflexivity]).
      destruct (e <=? n) eqn:E1.
      * apply Z.leb_le in E1. rewrite Z.max_l by lia. reflexivity.
      * apply Z.leb_gt in E1. rewrite Z.max_r by lia. reflexivity.
  - eexists. reflexivity.
Qed.

(** C4. With report policy 5 on the capture "boot\nlogin: " (13
    characters, [login:] at 6 to 12) a fresh context's [detect] reports
    the match from 13 to 19: the offsets are computed from the rewound
    search offset 7, not from the search offset 0. *)
Theorem detect_offsets_shifted_by_report :
  Re.find (bytes_of_string "login:") body_A = Some 6%nat
  /\ file_contents state_A "report-console-target.t0.serial0.txt" = body_A
  /\ exists md,
       fst (detect (expect_login "" (ReportInt 5)) state_A) = Ok (Some md)
       /\ offset md = 7
       /\ offset_match_start md = 13
       /\ offset_match_end md = 19.
Proof.
  split; [vm_compute; reflexivity|].
  split; [vm_compute; reflexivity|].
  eexists. split; [vm_compute; reflexivity|].
  cbn. auto.
Qed.

(** With no report policy the same detection reports 6 to 12; on the
    capture with a line feed after "boot" it reports 5 to 11. *)
Lemma detect_scenario_A :
  exists md,
    fst (detect (expect_login "" ReportNone) state_A) = Ok (Some md)
    /\ offset md = 0 /\ offset_match_start md = 6 /\ offset_match_end md = 12.
Proof. eexists. split; [vm_compute; reflexivity|]. cbn. auto. Qed.

Lemma find_login_line_feed :
  run (regex (expect_login "" ReportNone)) body_A_lf
  = Some {| Re.m_start := 5; Re.m_end := 11 |}.
Proof. vm_compute. reflexivity. Qed.

(** C5. With report policy 5 on a capture where [login:] ends at
    offset 50, searched from 0, [detect] attaches the window from 45 to
    95, not 45 to 50; the stored search offset is 50. *)
Theorem detect_report_window_overruns :
  length body_C = 53%nat
  /\ Re.find (bytes_of_string "login:") body_C = Some 44%nat
  /\ exists md,
       fst (detect (expect_login "" (ReportInt 5)) state_C) = Ok (Some md)
       /\ console_output md
          = Some ("console output (partial)", generator_factory "serial0" 45 95)
       /\ offset_match_end md = 95
       /\ buffers_poll (snd (detect (expect_login "" (ReportInt 5)) state_C))
            !! "serial0search_offset" = Some (VInt 50).
Proof.
  split; [reflexivity|].
  split; [vm_compute; reflexivity|].
  eexists. split; [vm_compute; reflexivity|].
  repeat split; vm_compute; reflexivity.
Qed.

(** The parts of the report policy that hold for every match: policy 0
    attaches nothing, no policy attaches the window from the search
    offset to the end of the match, a policy that covers the whole match
    does the same, and the stored search offset is the end of the match
    whatever the policy. *)
Lemma found_report_policy self ctx s m st md :
  fst (found self ctx s m st) = Ok (Some md) ->
  let e := Z.of_nat (Re.m_end m) in
  (report self = ReportInt 0 -> console_output md = None)
  /\ (report self = ReportNone ->
      console_output md
      = Some ("console output", generator_factory (console self) s (s + e)))
  /\ (forall n, report self = ReportInt n -> 0 < n -> e <= n ->
      console_output md
      = Some ("console output (partial)", generator_factory (console self) s (s + e)))
  /\ buffers_poll (snd (found self ctx s m st)) !! (ctx +:+ "search_offset")
     = Some (VInt (s + e)).
Proof.
  intros H e. pose proof (found_result self ctx s m st) as R. cbv zeta in R.
  repeat split.
  - intros Hr. rewrite Hr in R. cbn in R. rewrite R in H. now injection H as <-.
  - intros Hr. rewrite Hr in R. rewrite R in H. now injection H as <-.
  - intros n Hr Hn He. rewrite Hr in R.
    destruct (n =? 0) eqn:E0; [apply Z.eqb_eq in E0; lia|].
    fold e in R. destruct (e <=? n) eqn:E1; [|apply Z.leb_gt in E1; lia].
    rewrite R in H. now injection H as <-.
  - rewrite found_buffers. apply lookup_insert_eq.
Qed.

(** ** Patterns *)

Lemma re_compile_escape b : re_compile (Re.escape b) = Ok (compiled_literal b).
Proof. unfold re_compile. now rewrite parse_escape. Qed.

Lemma regex_set_plain text b :
  plain_bytes text = Ok b -> regex_set text = Ok (compiled_literal b).
Proof.
  destruct text as [s'|b'| | |]; cbn; intros H; try discriminate H.
  - rewrite H. cbn. apply re_compile_escape.
  - injection H as ->. apply re_compile_escape.
Qed.

Lemma Pattern_search_literal b data :
  Pattern_search (compiled_literal b) data
  = Ok (option_map (match_at b) (Re.find b data)).
Proof. unfold Pattern_search. cbn. now rewrite search_literal. Qed.

(** C9. A pattern given as a [str] or a [bytes] is escaped (a [str]
    after being encoded as UTF-8) and compiled without error, and the
    compiled pattern finds exactly the first occurrence of those bytes:
    [detect] searches the capture from the stored search offset for the
    bytes themselves. *)
Theorem plain_pattern_is_searched_literally text b :
  plain_bytes text = Ok b ->
  exists p,
    regex_set text = Ok p
    /\ pattern p = SrcBytes (Re.escape b)
    /\ (forall data,
          Pattern_search p data = Ok (option_map (match_at b) (Re.find b data)))
    /\ (forall data i,
          Re.find b data = Some i <->
          occurs_at b data i /\ forall j, (j < i)%nat -> ~ occurs_at b data j)
    /\ (forall data, Re.find b data = None <-> forall j, ~ occurs_at b data j)
    /\ (forall self st filename s,
          regex self = p ->
          buffers_poll st !! "of" = Some (VFile filename) ->
          file_contents st filename <> [] ->
          get_int (buffers_poll st) (detect_context_of self +:+ "search_offset") 0
            = Ok s ->
          detect self st =
            let st0 := init_cursor (detect_context_of self +:+ "search_offset") s st in
            match Re.find b (slice_from (file_contents st filename) s) with
            | None => (Ok None, st0)
            | Some i => found self (detect_context_of self) s (match_at b i) st0
            end).
Proof.
  intros H. exists (compiled_literal b).
  split; [now apply regex_set_plain|].
  split; [reflexivity|].
  split; [apply Pattern_search_literal|].
  split; [apply find_some|].
  split; [apply find_none|].
  intros self st filename s Hp Hof Hne Hs.
  rewrite (detect_unfold self st filename s Hof Hne Hs). cbv zeta.
  rewrite Hp, Pattern_search_literal.
  destruct (Re.find b _); reflexivity.
Qed.

Lemma plain_pattern_is_searched_literally_witness :
  plain_bytes (PStr (pystr_of_string "a.c")) = Ok (bytes_of_string "a.c")
  /\ exists p,
       regex_set (PStr (pystr_of_string "a.c")) = Ok p
       /\ Pattern_search p (bytes_of_string "abc a.c")
          = Ok (Some {| Re.m_start := 4; Re.m_end := 7 |}).
Proof.
  split; [reflexivity|].
  destruct (plain_pattern_is_searched_literally
              (PStr (pystr_of_string "a.c")) (bytes_of_string "a.c") eq_refl)
    as (p & Hp & _ & Hsearch & _).
  exists p. split; [exact Hp|]. rewrite Hsearch. reflexivity.
Defined.

(** The same characters compiled as a regular expression do match
    "abc": there the dot stands for any character. *)
Lemma compiled_dot_matches_any :
  exists p,
    re_compile (bytes_of_string "a.c") = Ok p
    /\ regex_set (PPattern p) = Ok p
    /\ Pattern_search p (bytes_of_string "abc a.c")
       = Ok (Some {| Re.m_start := 0; Re.m_end := 3 |}).
Proof. eexists. repeat split; reflexivity. Qed.

Lemma plain_star_and_bracket_are_literal :
  exists p,
    regex_set (PBytes (bytes_of_string "[a]*")) = Ok p
    /\ Pattern_search p (bytes_of_string "aaa") = Ok None
    /\ Pattern_search p (bytes_of_string "x[a]*")
       = Ok (Some {| Re.m_start := 1; Re.m_end := 5 |}).
Proof. eexists. repeat split; reflexivity. Qed.

(** [regex_set] leaves a pattern over bytes, or fails. *)
Lemma regex_set_bytes text p :
  regex_set text = Ok p -> exists b, pattern p = SrcBytes b.
Proof.
  unfold regex_set, re_compile.
  destruct text as [s|b|q| |]; try discriminate.
  - destruct (Utf8.encode s) as [b|]; cbn; [|discriminate].
    destruct (Re.parse _); [|discriminate]. intros [= <-]. now eexists.
  - destruct (Re.parse _); [|discriminate]. intros [= <-]. now eexists.
  - destruct (pattern q) as [s|b] eqn:E.
    + destruct (Utf8.encode_with _ s) as [b|]; cbn; [|discriminate].
      destruct (Re.parse _); [|discriminate]. intros [= <-]. now eexists.
    + intros [= <-]. eauto.
Qed.

Lemma found_no_pattern_error self ctx s m st e :
  fst (found self ctx s m st) = Raise e -> is_pattern_error e = false.
Proof.
  unfold found. destruct (report self) as [|[| |]|]; cbn; intros H;
    try discriminate H; now injection H as <-.
Qed.

Lemma detect_no_pattern_error self st e b :
  pattern (regex self) = SrcBytes b ->
  fst (detect self st) = Raise e -> is_pattern_error e = false.
Proof.
  intros Hb. unfold detect.
  destruct (buffers_poll st !! "of") as [[z|filename]|]; cbn [fst];
    try discriminate; [now intros [= <-]|].
  destruct (blen _ =? 0); cbn [fst]; [discriminate|].
  match goal with
  | |- context [buffers_poll ?st' !! ?k] =>
      destruct (buffers_poll st' !! k) as [[z|f]|]
  end; cbn [fst]; try (now intros [= <-]).
  unfold Pattern_search. rewrite Hb.
  destruct (run _ _) as [m|]; cbn [fst]; [|discriminate].
  apply found_no_pattern_error.
Qed.

(** ** The poller *)

Lemma read_full_spec srv c off mx f st :
  let rq := (c, off, mx) in
  match srv (length (requests st)) rq with
  | Read g o d =>
      fst (read_full srv c off mx f st) = Ok (g, o, blen d)
      /\ files (snd (read_full srv c off mx f st))
         = <[f := file_contents st f ++ d]> (files st)
  | Fails e =>
      fst (read_full srv c off mx f st) = Raise e
      /\ files (snd (read_full srv c off mx f st)) = files st
  end
  /\ requests (snd (read_full srv c off mx f st)) = requests st ++ [rq]
  /\ buffers_poll (snd (read_full srv c off mx f st)) = buffers_poll st
  /\ collateral (snd (read_full srv c off mx f st)) = collateral st.
Proof.
  intros rq. unfold read_full. fold rq.
  destruct (srv (length (requests st)) rq); cbn; auto.
Qed.

Lemma length_requests_snoc (l : list request) rq i :
  (length (l ++ [rq]) + i = length l + S i)%nat.
Proof. rewrite length_app. simpl. lia. Qed.

(** The retry loop returns the first answer that is not a timeout,
    after as many timeouts as the budget left allows. *)
Lemma read_retrying_success srv self ro f g o d : forall k fuel rc last st tags,
  (k < fuel)%nat ->
  rc + Z.of_nat k < 3 ->
  (forall i, (i < k)%nat ->
     srv (length (requests st) + i)%nat (console self, ro, max_size)
     = Fails (ReadTimeout (tags i))) ->
  srv (length (requests st) + k)%nat (console self, ro, max_size) = Read g o d ->
  exists st',
    read_retrying fuel srv self ro f rc last st = (Ok (g, o, blen d), st')
    /\ requests st' = requests st ++ repeat (console self, ro, max_size) (S k)
    /\ buffers_poll st' = buffers_poll st
    /\ files st' = <[f := file_contents st f ++ d]> (files st)
    /\ collateral st' = collateral st.
Proof.
  induction k as [|k IH]; intros fuel rc last st tags Hfuel Hrc Htm Hok.
  - destruct fuel as [|fuel]; [lia|]. cbn [read_retrying].
    replace (rc <? 3) with true by (symmetry; apply Z.ltb_lt; lia).
    pose proof (read_full_spec srv (console self) ro max_size f st) as R.
    cbv zeta in R. rewrite Nat.add_0_r in Hok. rewrite Hok in R.
    destruct R as ((R1 & R2) & R3 & R4 & R5).
    destruct (read_full srv (console self) ro max_size f st) as [r st'].
    cbn in *. subst r. exists st'. auto.
  - destruct fuel as [|fuel]; [lia|]. cbn [read_retrying].
    replace (rc <? 3) with true by (symmetry; apply Z.ltb_lt; lia).
    pose proof (read_full_spec srv (console self) ro max_size f st) as R.
    cbv zeta in R. pose proof (Htm 0%nat ltac:(lia)) as H0.
    rewrite Nat.add_0_r in H0. rewrite H0 in R.
    destruct R as ((R1 & R2) & R3 & R4 & R5).
    destruct (read_full srv (console self) ro max_size f st) as [r st1].
    cbn in R1, R2, R3, R4, R5. subst r.
    destruct (IH fuel (rc + 1) (Some (ReadTimeout (tags 0%nat)))
                (count_timeout self st1) (fun i => tags (S i)))
      as (st' & E & Q1 & Q2 & Q3 & Q4).
    + lia.
    + lia.
    + intros i Hi. cbn [count_timeout requests]. rewrite R3, length_requests_snoc.
      apply Htm. lia.
    + cbn [count_timeout requests]. rewrite R3, length_requests_snoc. exact Hok.
    + exists st'. split; [exact E|].
      cbn [count_timeout requests buffers_poll files collateral] in Q1, Q2, Q3, Q4.
      unfold file_contents in Q3. cbn [count_timeout files] in Q3.
      rewrite R3 in Q1. rewrite R4 in Q2. rewrite R2 in Q3. rewrite R5 in Q4.
      repeat split; try assumption.
      rewrite Q1, <- app_assoc. reflexivity.
Qed.

(** When every attempt the budget allows times out, the loop raises
    the last timeout. *)
Lemma read_retrying_exhausted srv self ro f : forall k fuel rc last st tags,
  (k <= fuel)%nat ->
  rc + Z.of_nat k = 3 ->
  (forall i, (i < k)%nat ->
     srv (length (requests st) + i)%nat (console self, ro, max_size)
     = Fails (ReadTimeout (tags i))) ->
  exists st',
    read_retrying fuel srv self ro f rc last st
    = (Raise (match k with
              | O => match last with
                     | Some e => e
                     | None => TypeError "exceptions must derive from BaseException"
                     end
              | S k' => ReadTimeout (tags k')
              end), st')
    /\ requests st' = requests st ++ repeat (console self, ro, max_size) k
    /\ buffers_poll st' = buffers_poll st
    /\ files st' = files st.
Proof.
  induction k as [|k IH]; intros fuel rc last st tags Hfuel Hrc Htm.
  - exists st. replace rc with 3 by lia.
    destruct fuel; cbn; rewrite app_nil_r; destruct last; auto.
  - destruct fuel as [|fuel]; [lia|]. cbn [read_retrying].
    replace (rc <? 3) with true by (symmetry; apply Z.ltb_lt; lia).
    pose proof (read_full_spec srv (console self) ro max_size f st) as R.
    cbv zeta in R. pose proof (Htm 0%nat ltac:(lia)) as H0.
    rewrite Nat.add_0_r in H0. rewrite H0 in R.
    destruct R as ((R1 & R2) & R3 & R4 & R5).
    destruct (read_full srv (console self) ro max_size f st) as [r st1].
    cbn in R1, R2, R3, R4, R5. subst r.
    destruct (IH fuel (rc + 1) (Some (ReadTimeout (tags 0%nat)))
                (count_timeout self st1) (fun i => tags (S i)))
      as (st' & E & Q1 & Q2 & Q3).
    + lia.
    + lia.
    + intros i Hi. cbn [count_timeout requests]. rewrite R3, length_requests_snoc.
      apply Htm. lia.
    + exists st'. split.
      * rewrite E. destruct k; reflexivity.
      * cbn [count_timeout requests buffers_poll files] in Q1, Q2, Q3.
        rewrite R3 in Q1. rewrite R4 in Q2. rewrite R2 in Q3.
        repeat split; try assumption.
        rewrite Q1, <- app_assoc. reflexivity.
Qed.

(** C3. Retry budget of one poll call.  The first read of a poll is
    attempted up to 4 times.  After [k] consecutive read timeouts,
    [k <= 3], and an answer whose generation is not newer than the
    stored one, the poll succeeds after exactly [k + 1] reads of the
    same offset.  When that answer tells of a newer generation the poll
    reads once more, from offset 0, and this read is outside the
    budget: if it answers the poll succeeds, and if it times out the
    timeout leaves the poll at once.  When the first 4 attempts all time
    out the poll raises the fourth timeout after exactly 4 attempts and
    leaves the poll state as it was, so nothing after the fourth
    failure is waited for. *)
Theorem poll_retry_budget srv self st filename ro k tags :
  buffers_poll st !! "of" = Some (VFile filename) ->
  get_int (buffers_poll st) "read_offset" 0 = Ok ro ->
  (k <= 4)%nat ->
  (forall i, (i < k)%nat ->
     srv (length (requests st) + i)%nat (console self, ro, max_size)
     = Fails (ReadTimeout (tags i))) ->
  (forall g o d,
     (k < 4)%nat ->
     srv (length (requests st) + k)%nat (console self, ro, max_size) = Read g o d ->
     (buffers_poll st !! "generation" = None
      \/ exists gp, buffers_poll st !! "generation" = Some (VInt gp) /\ g <= gp) ->
     fst (_poll srv self st) = Ok tt
     /\ requests (snd (_poll srv self st))
        = requests st ++ repeat (console self, ro, max_size) (S k))
  /\ (forall g o d gp,
        (k < 4)%nat ->
        srv (length (requests st) + k)%nat (console self, ro, max_size) = Read g o d ->
        buffers_poll st !! "generation" = Some (VInt gp) ->
        gp < g ->
        requests (snd (_poll srv self st))
        = requests st ++ repeat (console self, ro, max_size) (S k)
            ++ [(console self, 0, max_size)]
        /\ ((exists g2 o2 d2,
               srv (length (requests st) + S k)%nat (console self, 0, max_size)
               = Read g2 o2 d2) ->
            fst (_poll srv self st) = Ok tt)
        /\ (forall t,
              srv (length (requests st) + S k)%nat (console self, 0, max_size)
              = Fails (ReadTimeout t) ->
              fst (_poll srv self st) = Raise (ReadTimeout t)))
  /\ (k = 4%nat ->
      fst (_poll srv self st) = Raise (ReadTimeout (tags 3%nat))
      /\ requests (snd (_poll srv self st))
         = requests st ++ repeat (console self, ro, max_size) 4
      /\ buffers_poll (snd (_poll srv self st)) = buffers_poll st
      /\ files (snd (_poll srv self st)) = files st).
Proof.
  intros Hof Hro Hk Htm. unfold _poll. rewrite Hro, Hof. split; [|split].
  - intros g o d Hlt Hok Hgen.
    destruct (read_retrying_success srv self ro filename g o d k 4 (-1) None st tags
                ltac:(lia) ltac:(lia) Htm Hok) as (st1 & E & Q1 & Q2 & Q3 & Q4).
    rewrite E. unfold after_read. rewrite Q2.
    destruct Hgen as [-> | (gp & -> & Hle)].
    + cbn. split; [reflexivity | exact Q1].
    + replace (gp <? g) with false by (symmetry; apply Z.ltb_ge; lia).
      cbn. split; [reflexivity | exact Q1].
  - intros g o d gp Hlt Hok Hgen Hnew.
    destruct (read_retrying_success srv self ro filename g o d k 4 (-1) None st tags
                ltac:(lia) ltac:(lia) Htm Hok) as (st1 & E & Q1 & Q2 & Q3 & Q4).
    rewrite E. unfold after_read. rewrite Q2, Hgen.
    replace (gp <? g) with true by (symmetry; apply Z.ltb_lt; lia).
    pose proof (read_full_spec srv (console self) 0 max_size filename st1) as R.
    cbv zeta in R.
    assert (Hidx : length (requests st1) = (length (requests st) + S k)%nat)
      by (rewrite Q1, length_app, repeat_length; reflexivity).
    rewrite Hidx in R. destruct R as (R1 & R3 & _).
    assert (Hreq : requests (snd (read_full srv (console self) 0 max_size filename st1))
                   = requests st ++ repeat (console self, ro, max_size) (S k)
                       ++ [(console self, 0, max_size)])
      by (rewrite R3, Q1, <- app_assoc; reflexivity).
    destruct (read_full srv (console self) 0 max_size filename st1)
      as [[[[g' o'] n']|e'] st2] eqn:Er; cbn [fst snd] in *.
    + split; [exact Hreq|]. split; [reflexivity|].
      intros t Ht. rewrite Ht in R1. destruct R1 as [R1 _]. discriminate R1.
    + split.
      { destruct e'; exact Hreq. }
      split.
      * intros (g2 & o2 & d2 & H2). rewrite H2 in R1.
        destruct R1 as [R1 _]. discriminate R1.
      * intros t Ht. rewrite Ht in R1. destruct R1 as [[= ->] _]. reflexivity.
  - intros ->.
    destruct (read_retrying_exhausted srv self ro filename 4 4 (-1) None st tags
                ltac:(lia) ltac:(lia) Htm) as (st' & E & Q1 & Q2 & Q3).
    rewrite E. cbn. auto.
Qed.

Lemma poll_retry_budget_witness :
  fst (_poll (flaky_transport 3) (expect_login "" ReportNone) fresh_state) = Ok tt
  /\ requests (snd (_poll (flaky_transport 3) (expect_login "" ReportNone)
                      fresh_state))
     = repeat ("serial0", 0, max_size) 4.
Proof.
  destruct (poll_retry_budget (flaky_transport 3) (expect_login "" ReportNone)
              fresh_state "report-console-target.t0.serial0.txt" 0 3 (fun i => i))
    as [Hsteady _].
  - vm_compute. reflexivity.
  - vm_compute. reflexivity.
  - lia.
  - intros i Hi. change (length (requests fresh_state)) with 0%nat.
    unfold flaky_transport.
    replace (0 + i <? 3)%nat with true; [reflexivity|].
    symmetry. apply Nat.ltb_lt. lia.
  - apply (Hsteady 1 13 body_A).
    + lia.
    + reflexivity.
    + left. vm_compute. reflexivity.
Defined.

(** The read that follows a restart is not retried: after three
    timeouts the fourth attempt answers, with a newer generation, and
    the timeout of the read from offset 0 ends the poll. *)
Lemma poll_restart_read_not_retried :
  buffers_poll state_A !! "generation" = Some (VInt 1)
  /\ get_int (buffers_poll state_A) "read_offset" 0 = Ok 13
  /\ length (requests state_A) = 1%nat
  /\ restart_after_timeouts 1%nat ("serial0", 13, max_size) = Fails (ReadTimeout 1)
  /\ restart_after_timeouts 2%nat ("serial0", 13, max_size) = Fails (ReadTimeout 2)
  /\ restart_after_timeouts 3%nat ("serial0", 13, max_size) = Fails (ReadTimeout 3)
  /\ restart_after_timeouts 4%nat ("serial0", 13, max_size) = Read 2 6 body_B
  /\ fst (_poll restart_after_timeouts (expect_login "" ReportNone) state_A)
     = Raise (ReadTimeout 5)
  /\ requests (snd (_poll restart_after_timeouts (expect_login "" ReportNone)
                      state_A))
     = requests state_A ++ repeat ("serial0", 13, max_size) 4
         ++ [("serial0", 0, max_size)].
Proof. repeat split; vm_compute; reflexivity. Qed.

(** Four timeouts in a row: the poll raises the fourth, and the fifth
    answer of the transport is never asked for. *)
Lemma poll_four_timeouts :
  fst (_poll (flaky_transport 5) (expect_login "" ReportNone) fresh_state)
  = Raise (ReadTimeout 3)
  /\ length (requests (snd (_poll (flaky_transport 5) (expect_login "" ReportNone)
                              fresh_state))) = 4%nat.
Proof. split; vm_compute; reflexivity. Qed.

(** *** Restart of the console *)

Lemma file_contents_insert st' st f data :
  files st' = <[f := data]> (files st) -> file_contents st' f = data.
Proof. intros H. unfold file_contents. now rewrite H, lookup_insert_eq. Qed.

(** The poll of a restart: one read at the stored offset, one from 0. *)
Lemma poll_restart srv self st filename ro gp g1 o1 d1 g2 o2 d2 :
  buffers_poll st !! "of" = Some (VFile filename) ->
  get_int (buffers_poll st) "read_offset" 0 = Ok ro ->
  buffers_poll st !! "generation" = Some (VInt gp) ->
  srv (length (requests st)) (console self, ro, max_size) = Read g1 o1 d1 ->
  gp < g1 ->
  srv (S (length (requests st))) (console self, 0, max_size) = Read g2 o2 d2 ->
  exists st',
    _poll srv self st = (Ok tt, st')
    /\ requests st'
       = requests st ++ [(console self, ro, max_size); (console self, 0, max_size)]
    /\ buffers_poll st'
       = <["read_offset" := VInt o2]> (<["generation" := VInt g2]> (buffers_poll st))
    /\ file_contents st' filename = file_contents st filename ++ d1 ++ d2.
Proof.
  intros Hof Hro Hgen H1 Hlt H2. unfold _poll. rewrite Hro, Hof.
  destruct (read_retrying_success srv self ro filename g1 o1 d1 0 4 (-1) None st
              (fun i => i) ltac:(lia) ltac:(lia))
    as (st1 & E & Q1 & Q2 & Q3 & Q4).
  { intros i Hi. lia. }
  { now rewrite Nat.add_0_r. }
  rewrite E. unfold after_read. rewrite Q2, Hgen.
  replace (gp <? g1) with true by (symmetry; apply Z.ltb_lt; lia).
  pose proof (read_full_spec srv (console self) 0 max_size filename st1) as R.
  cbv zeta in R. rewrite Q1, length_app in R. cbn [length repeat] in R.
  replace (length (requests st) + 1)%nat with (S (length (requests st))) in R by lia.
  rewrite H2 in R. destruct R as ((R1 & R2) & R3 & R4 & R5).
  destruct (read_full srv (console self) 0 max_size filename st1) as [r st2].
  cbn in R1, R2, R3, R4, R5. subst r. cbn.
  eexists. split; [reflexivity|]. cbn.
  repeat split.
  - rewrite R3, <- app_assoc. reflexivity.
  - now rewrite R4, Q2.
  - unfold file_contents at 1. cbn. rewrite R2, lookup_insert_eq.
    rewrite (file_contents_insert _ _ _ _ Q3), <- app_assoc. reflexivity.
Qed.

(** A successful retry loop returns an answer of the transport to a
    read at the offset asked, and leaves the dictionary alone. *)
Lemma read_retrying_ok_inv srv self ro f : forall fuel rc last st g o tb st',
  read_retrying fuel srv self ro f rc last st = (Ok (g, o, tb), st') ->
  buffers_poll st' = buffers_poll st
  /\ exists n d, srv n (console self, ro, max_size) = Read g o d.
Proof.
  induction fuel as [|fuel IH]; intros rc last st g o tb st' H; cbn in H.
  - destruct (rc <? 3); [discriminate|]. destruct last; discriminate.
  - destruct (rc <? 3); [|destruct last; discriminate].
    pose proof (read_full_spec srv (console self) ro max_size f st) as R.
    cbv zeta in R.
    destruct (srv (length (requests st)) (console self, ro, max_size))
      as [g' o' d'|e] eqn:Es;
      destruct R as ((R1 & R2) & R3 & R4 & R5);
      destruct (read_full srv (console self) ro max_size f st) as [r st1];
      cbn in R1, R4; subst r.
    + injection H as -> -> <- <-. split; [exact R4 | eauto].
    + destruct e; try discriminate H.
      apply IH in H as (Hb & Hex). cbn in Hb. split; [congruence | exact Hex].
Qed.

(** Without a generation increase the read offset stored by a
    successful poll is the new offset of a read from the old one. *)
Lemma poll_backward_only_on_restart srv self st st' ro ro' :
  never_behind srv ->
  get_int (buffers_poll st) "read_offset" 0 = Ok ro ->
  _poll srv self st = (Ok tt, st') ->
  buffers_poll st' !! "read_offset" = Some (VInt ro') ->
  ro' < ro ->
  exists gp g n o d,
    buffers_poll st !! "generation" = Some (VInt gp)
    /\ srv n (console self, ro, max_size) = Read g o d
    /\ gp < g.
Proof.
  intros Hmono Hro H Hro' Hlt. unfold _poll in H. rewrite Hro in H.
  destruct (buffers_poll st !! "of") as [[z|filename]|]; try discriminate H.
  destruct (read_retrying 4 srv self ro filename (-1) None st) as [[[[g o] tb]|e] st1] eqn:E.
  2:{ destruct e; discriminate H. }
  apply read_retrying_ok_inv in E as (Hbp & n & d & Hsrv).
  pose proof (Hmono _ _ _ _ _ _ _ Hsrv) as Hge.
  unfold after_read in H. rewrite Hbp in H.
  destruct (buffers_poll st !! "generation") as [[gp|fl]|] eqn:Eg.
  - destruct (gp <? g) eqn:El.
    + apply Z.ltb_lt in El. exists gp, g, n, o, d. auto.
    + cbn in H. injection H as <-. cbn in Hro'.
      rewrite lookup_insert_eq in Hro'. injection Hro' as <-. lia.
  - discriminate H.
  - cbn in H. injection H as <-. cbn in Hro'.
    rewrite lookup_insert_eq in Hro'. injection Hro' as <-. lia.
Qed.

Lemma occurs_at_skipn b l n j :
  (n <= length l)%nat ->
  occurs_at b (skipn n l) j <-> occurs_at b l (n + j).
Proof.
  intros Hn. split.
  - intros (pre & post & H & <-). exists (firstn n l ++ pre), post. split.
    + rewrite <- app_assoc, <- H. symmetry. apply firstn_skipn.
    + rewrite length_app, firstn_length_le by exact Hn. reflexivity.
  - intros (pre & post & -> & Hl). exists (skipn n pre), post. split.
    + rewrite skipn_app. replace (n - length pre)%nat with 0%nat by lia.
      reflexivity.
    + rewrite length_skipn. lia.
Qed.

(** With a plain pattern and a search offset inside the capture,
    [detect] finds nothing exactly when no occurrence of the pattern in
    the capture starts at or after the search offset. *)
Lemma detect_plain_none_iff self st filename b s :
  regex self = compiled_literal b ->
  buffers_poll st !! "of" = Some (VFile filename) ->
  file_contents st filename <> [] ->
  get_int (buffers_poll st) (detect_context_of self +:+ "search_offset") 0 = Ok s ->
  0 <= s <= blen (file_contents st filename) ->
  fst (detect self st) = Ok None <->
  forall j, occurs_at b (file_contents st filename) j -> (j < Z.to_nat s)%nat.
Proof.
  intros Hre Hof Hne Hs Hrange.
  rewrite (detect_unfold self st filename s Hof Hne Hs). cbv zeta.
  rewrite Hre, Pattern_search_literal.
  unfold slice_from. replace (s <? 0) with false by (symmetry; apply Z.ltb_ge; lia).
  assert (Hn : (Z.to_nat s <= length (file_contents st filename))%nat)
    by (unfold blen in Hrange; lia).
  destruct (Re.find b _) as [i|] eqn:Ef.
  - split.
    + cbn [option_map]. intros H. exfalso. revert H.
      unfold found. destruct (report self) as [|[| |]|]; discriminate.
    + intros H. apply find_some in Ef as [Ho _].
      apply (occurs_at_skipn _ _ _ _ Hn) in Ho. apply H in Ho. lia.
  - split; [|reflexivity]. intros _ j Hj.
    destruct (Nat.lt_ge_cases j (Z.to_nat s)) as [Hlt|Hge]; [exact Hlt|].
    exfalso. replace j with (Z.to_nat s + (j - Z.to_nat s))%nat in Hj by lia.
    apply (occurs_at_skipn _ _ _ _ Hn) in Hj.
    revert Hj. apply find_none. exact Ef.
Qed.

(** C2 (as amended). When the read answers with a generation above the
    stored one, the poll reads again from offset 0, stores the
    generation and the new offset of that second read, and appends the
    bytes of both reads to the capture, whose earlier bytes stay.  With
    a transport that never answers behind the offset asked, a successful
    poll lowers the stored read offset only on such a generation
    increase.  After the restart, a [detect] for a plain pattern finds
    nothing exactly when no occurrence of the pattern in the capture,
    old bytes included, starts at or after its context's search
    offset. *)
Theorem poll_generation_reset srv self st filename ro :
  buffers_poll st !! "of" = Some (VFile filename) ->
  get_int (buffers_poll st) "read_offset" 0 = Ok ro ->
  (forall gp g1 o1 d1 g2 o2 d2,
     buffers_poll st !! "generation" = Some (VInt gp) ->
     srv (length (requests st)) (console self, ro, max_size) = Read g1 o1 d1 ->
     gp < g1 ->
     srv (S (length (requests st))) (console self, 0, max_size) = Read g2 o2 d2 ->
     exists st',
       _poll srv self st = (Ok tt, st')
       /\ requests st'
          = requests st ++ [(console self, ro, max_size); (console self, 0, max_size)]
       /\ buffers_poll st' !! "generation" = Some (VInt g2)
       /\ buffers_poll st' !! "read_offset" = Some (VInt o2)
       /\ file_contents st' filename = file_contents st filename ++ d1 ++ d2
       /\ forall other b s,
            regex other = compiled_literal b ->
            get_int (buffers_poll st')
              (detect_context_of other +:+ "search_offset") 0 = Ok s ->
            file_contents st' filename <> [] ->
            0 <= s <= blen (file_contents st' filename) ->
            fst (detect other st') = Ok None <->
            forall j, occurs_at b (file_contents st filename ++ d1 ++ d2) j ->
                      (j < Z.to_nat s)%nat)
  /\ (forall st' ro',
        never_behind srv ->
        _poll srv self st = (Ok tt, st') ->
        buffers_poll st' !! "read_offset" = Some (VInt ro') ->
        ro' < ro ->
        exists gp g n o d,
          buffers_poll st !! "generation" = Some (VInt gp)
          /\ srv n (console self, ro, max_size) = Read g o d
          /\ gp < g).
Proof.
  intros Hof Hro. split.
  - intros gp g1 o1 d1 g2 o2 d2 Hgen H1 Hlt H2.
    destruct (poll_restart srv self st filename ro gp g1 o1 d1 g2 o2 d2
                Hof Hro Hgen H1 Hlt H2) as (st' & E & Q1 & Q2 & Q3).
    exists st'. split; [exact E|]. split; [exact Q1|].
    split; [rewrite Q2, lookup_insert_ne by discriminate; apply lookup_insert_eq|].
    split; [rewrite Q2; apply lookup_insert_eq|].
    split; [exact Q3|].
    intros other b s Hre Hs Hne Hrange.
    assert (Hof' : buffers_poll st' !! "of" = Some (VFile filename)).
    { rewrite Q2, !lookup_insert_ne by discriminate. exact Hof. }
    rewrite <- Q3.
    exact (detect_plain_none_iff other st' filename b s Hre Hof' Hne Hs Hrange).
  - intros st' ro' Hmono E Hro' Hlt.
    exact (poll_backward_only_on_restart srv self st st' ro ro' Hmono Hro E Hro' Hlt).
Qed.

Lemma poll_generation_reset_witness :
  buffers_poll state_B !! "generation" = Some (VInt 2)
  /\ buffers_poll state_B !! "read_offset" = Some (VInt 6)
  /\ file_contents state_B "report-console-target.t0.serial0.txt"
     = body_A ++ [] ++ body_B
  /\ (fst (detect (expect_login "" ReportNone) state_B) = Ok None <->
      forall j, occurs_at (bytes_of_string "login:") (body_A ++ [] ++ body_B) j ->
                (j < 12)%nat).
Proof.
  destruct (poll_generation_reset session_transport (expect_login "" ReportNone)
              state_A_detected "report-console-target.t0.serial0.txt" 13)
    as [Hrestart _].
  - vm_compute. reflexivity.
  - vm_compute. reflexivity.
  - destruct (Hrestart 1 2 13 [] 2 6 body_B) as (st' & E & _ & Q2 & Q3 & Q4 & Q5).
    + vm_compute. reflexivity.
    + reflexivity.
    + lia.
    + reflexivity.
    + assert (Est : state_B = st').
      { unfold state_B, poll.
        change (buffers_poll state_A_detected !! "of")
          with (Some (VFile "report-console-target.t0.serial0.txt")).
        now rewrite E. }
      rewrite Est. split; [exact Q2|]. split; [exact Q3|].
      change (file_contents state_A_detected "report-console-target.t0.serial0.txt")
        with body_A in Q4, Q5.
      split; [exact Q4|].
      apply (Q5 (expect_login "" ReportNone) (bytes_of_string "login:") 12).
      * reflexivity.
      * rewrite <- Est. vm_compute. reflexivity.
      * rewrite <- Est. vm_compute. discriminate.
      * rewrite <- Est. vm_compute. split; discriminate.
Defined.

(** The detection of the second scenario: after the restart the
    context that found [login:] finds nothing. *)
Lemma detect_scenario_B :
  fst (detect (expect_login "" ReportNone) state_B) = Ok None.
Proof. vm_compute. reflexivity. Qed.

(** The capture is not cut at a restart: a context that has not yet
    searched past the old [login:] finds it again after the restart,
    although the bytes read since do not hold it. *)
Lemma stale_match_after_reset :
  fst (poll session_transport (Some 0) (expect_login "" ReportNone) state_A_detected)
  = Ok tt
  /\ buffers_poll state_A_detected !! "generation" = Some (VInt 1)
  /\ buffers_poll state_B !! "generation" = Some (VInt 2)
  /\ buffers_poll state_B !! "read_offset" = Some (VInt 6)
  /\ Re.find (bytes_of_string "login:") body_B = None
  /\ exists md,
       fst (detect (expect_login "crash" ReportNone) state_B) = Ok (Some md)
       /\ offset_match_start md = 6
       /\ offset_match_end md = 12.
Proof.
  repeat split; try (vm_compute; reflexivity).
  eexists. split; [vm_compute; reflexivity|]. cbn. auto.
Qed.

(** *** First use of a poll context *)

(** C6. Initialising a poll context that has no read offset yet
    succeeds: a capture file left from before is removed and an empty
    one opened, registered as collateral and stored under ['of']; the
    read offset stored is [max(0, size - lookback_max)], taking 0 for
    the size of a disabled console, so with no size and a lookback that
    is not negative it is 0. *)
Theorem poll_context_init_read_offset size target console lookback_max st :
  buffers_poll st !! "read_offset" = None ->
  let filename := capture_filename target (Some console) in
  exists st',
    _poll_context_init size target console lookback_max st = (Ok tt, st')
    /\ files st' !! filename = Some []
    /\ (forall other, other <> filename -> files st' !! other = files st !! other)
    /\ filename ∈ collateral st'
    /\ buffers_poll st' !! "of" = Some (VFile filename)
    /\ buffers_poll st' !! "read_offset"
       = Some (VInt (Z.max 0 (default 0 size - lookback_max)))
    /\ (size = None -> 0 <= lookback_max ->
        buffers_poll st' !! "read_offset" = Some (VInt 0)).
Proof.
  intros Hfresh filename. unfold _poll_context_init. rewrite Hfresh.
  fold filename. eexists. split; [reflexivity|]. cbn.
  assert (Hro : (if default 0 size - lookback_max <? 0 then 0
                 else default 0 size - lookback_max)
                = Z.max 0 (default 0 size - lookback_max)).
  { destruct (default 0 size - lookback_max <? 0) eqn:E;
      [apply Z.ltb_lt in E | apply Z.ltb_ge in E]; lia. }
  repeat split.
  - unfold open_append, rm_f. rewrite lookup_delete_eq. apply lookup_insert_eq.
  - intros other Hother. unfold open_append, rm_f. rewrite lookup_delete_eq.
    rewrite lookup_insert_ne by congruence. now apply lookup_delete_ne.
  - set_solver.
  - apply lookup_insert_eq.
  - rewrite lookup_insert_ne by discriminate. rewrite lookup_insert_eq.
    destruct size; cbn in *; now rewrite Hro.
  - intros -> Hlb. rewrite lookup_insert_ne by discriminate.
    rewrite lookup_insert_eq. cbn.
    destruct (0 - lookback_max <? 0) eqn:E; [reflexivity|].
    apply Z.ltb_ge in E. do 2 f_equal. lia.
Qed.

Lemma poll_context_init_read_offset_witness :
  exists st',
    _poll_context_init None a_target "serial0" 4096 stale_state = (Ok tt, st')
    /\ files st' !! "report-console-target.t0.serial0.txt" = Some []
    /\ buffers_poll st' !! "read_offset" = Some (VInt 0).
Proof.
  assert (Hfresh : buffers_poll stale_state !! "read_offset" = None)
    by (vm_compute; reflexivity).
  destruct (poll_context_init_read_offset None a_target "serial0" 4096
              stale_state Hfresh)
    as (st' & E & Hfile & _ & _ & _ & _ & Hzero).
  exists st'. split; [exact E|]. split; [exact Hfile|].
  apply Hzero; [reflexivity | lia].
Defined.

(** With a remote size of 10000 bytes and a lookback of 4096 the first
    read asks for offset 5904. *)
Lemma poll_context_init_lookback :
  buffers_poll (snd (_poll_context_init (Some 10000) a_target "serial0" 4096
                       empty_state)) !! "read_offset" = Some (VInt 5904).
Proof. vm_compute. reflexivity. Qed.

(** *** No pattern error while polling *)

Lemma read_retrying_no_pattern_error srv self ro f :
  pattern_blind srv ->
  forall fuel rc last st e,
    (forall e', last = Some e' -> is_pattern_error e' = false) ->
    fst (read_retrying fuel srv self ro f rc last st) = Raise e ->
    is_pattern_error e = false.
Proof.
  intros Hsrv. induction fuel as [|fuel IH]; intros rc last st e Hlast H; cbn in H.
  - destruct (rc <? 3); cbn in H; [now injection H as <-|].
    destruct last as [e'|]; cbn in H; injection H as <-; auto.
  - destruct (rc <? 3).
    + unfold read_full in H.
      destruct (srv (length (requests st)) (console self, ro, max_size))
        as [g o d|e'] eqn:Es; [discriminate H|].
      pose proof (Hsrv _ _ _ Es) as Hblind.
      destruct e'; try (cbn in H; injection H as <-; exact Hblind).
      eapply IH; [|exact H]. intros e' [= <-]. reflexivity.
    + destruct last as [e'|]; cbn in H; injection H as <-; auto.
Qed.

Lemma _poll_no_pattern_error srv self st e :
  pattern_blind srv ->
  fst (_poll srv self st) = Raise e -> is_pattern_error e = false.
Proof.
  intros Hsrv. unfold _poll, get_int.
  destruct (buffers_poll st !! "read_offset") as [[ro|fl]|]; cbn [fst];
    try (now intros [= <-]).
  all: destruct (buffers_poll st !! "of") as [[z|filename]|]; cbn [fst];
    try (now intros [= <-]).
  all: match goal with
       | |- context [read_retrying _ _ _ ?ro _ _ _ _] =>
           pose proof (read_retrying_no_pattern_error srv self ro filename Hsrv
                         4%nat (-1) None st) as Hretry;
           destruct (read_retrying 4 srv self ro filename (-1) None st)
             as [[[[g o] tb]|e1] st1]
       end.
  all: try (specialize (Hretry e1 ltac:(discriminate) eq_refl);
            destruct e1; cbn; intros [= <-]; auto).
  all: unfold after_read;
    destruct (buffers_poll st1 !! "generation") as [[gp|fl]|];
    try (cbn; discriminate); try (cbn; now intros [= <-]).
  all: destruct (gp <? g); [|cbn; discriminate].
  all: unfold read_full;
    destruct (srv (length (requests st1)) (console self, 0, max_size))
      as [g2 o2 d2|e2] eqn:Es; [cbn; discriminate|].
  all: pose proof (Hsrv _ _ _ Es) as Hblind;
    destruct e2; cbn; intros [= <-]; auto.
Qed.

Lemma poll_no_pattern_error srv size self st e :
  pattern_blind srv ->
  fst (poll srv size self st) = Raise e -> is_pattern_error e = false.
Proof.
  intros Hsrv. unfold poll.
  destruct (buffers_poll st !! "of"); [now apply _poll_no_pattern_error|].
  unfold _poll_context_init.
  destruct (buffers_poll st !! "read_offset"); cbn [fst].
  - now intros [= <-].
  - now apply _poll_no_pattern_error.
Qed.

(** ** Construction of an expectation *)

Lemma init_regex nm text console pp t pm name target dc report self :
  __init__ nm text console pp t pm name target dc report = Ok self ->
  is_pattern_type text = true /\ regex_set text = Ok (regex self).
Proof.
  unfold __init__, py_assert. destruct target as [tgt|]; [|discriminate].
  destruct (is_pattern_type text); cbn [rbind]; [|discriminate].
  destruct (match t with Some t0 => Qle_bool 0 t0 | None => true end);
    cbn [rbind]; [|discriminate].
  destruct (negb (Qle_bool pp 0)); cbn [rbind]; [|discriminate].
  destruct (0 <? pm); cbn [rbind]; [|discriminate].
  destruct (regex_set text) as [p|]; cbn [rbind]; [|discriminate].
  destruct (match name with
            | Some n => if String.eqb n "" then default_name nm p else Ok n
            | None => default_name nm p
            end); cbn [rbind]; [|discriminate].
  intros [= <-]. auto.
Qed.

(** C8. An expectation built on something that is not a [str], a
    [bytes] or a compiled pattern fails in the constructor with an
    assertion error.  An expectation that was built holds a pattern over
    bytes: no [detect] on it raises a pattern error, and no [poll]
    either, whatever the state. *)
Theorem pattern_checked_at_construction
    nm text console pp t pm name target dc report :
  (is_pattern_type text = false ->
   exists msg,
     __init__ nm text console pp t pm name target dc report
     = Raise (AssertionError msg))
  /\ (forall self,
        __init__ nm text console pp t pm name target dc report = Ok self ->
        is_pattern_type text = true
        /\ regex_set text = Ok (regex self)
        /\ (exists b, pattern (regex self) = SrcBytes b)
        /\ (forall st e,
              fst (detect self st) = Raise e -> is_pattern_error e = false)
        /\ (forall srv size st e,
              pattern_blind srv ->
              fst (poll srv size self st) = Raise e -> is_pattern_error e = false)).
Proof.
  split.
  - intros Hty. unfold __init__. destruct target; [|eauto].
    rewrite Hty. cbn. eauto.
  - intros self H. apply init_regex in H as [Hty Hre].
    destruct (regex_set_bytes _ _ Hre) as [b Hb].
    split; [exact Hty|]. split; [exact Hre|]. split; [eauto|]. split.
    + intros st e. now apply (detect_no_pattern_error self st e b).
    + intros srv size st e. apply poll_no_pattern_error.
Qed.

Lemma pattern_checked_at_construction_witness :
  is_pattern_type (PInt 5) = false
  /\ (exists msg,
        __init__ (fun _ => Ok "five") (PInt 5) None (1 # 4) (Some (30 # 1)) 4096
          None (Some a_target) "" ReportNone
        = Raise (AssertionError msg))
  /\ exists self,
       __init__ (fun _ => Ok "login_") (PStr (pystr_of_string "login:")) None
         (1 # 4) (Some (30 # 1)) 4096 None (Some a_target) "" ReportNone
       = Ok self
       /\ forall st e, fst (detect self st) = Raise e -> is_pattern_error e = false.
Proof.
  split; [reflexivity|]. split.
  - apply (pattern_checked_at_construction (fun _ => Ok "five") (PInt 5)).
    reflexivity.
  - exists (expect_login "" ReportNone). split; [reflexivity|].
    apply (pattern_checked_at_construction (fun _ => Ok "login_")
             (PStr (pystr_of_string "login:")) None (1 # 4) (Some (30 # 1)) 4096
             None (Some a_target) "" ReportNone).
    reflexivity.
Defined.

(** A compiled pattern over [str] is compiled again from its text,
    also in the constructor. *)
Lemma str_pattern_recompiled :
  exists p,
    regex_set (PPattern {| pattern := SrcStr (pystr_of_string "log.n");
                           run := fun _ => None |}) = Ok p
    /\ pattern p = SrcBytes (bytes_of_string "log.n")
    /\ Pattern_search p (bytes_of_string "a logon")
       = Ok (Some {| Re.m_start := 2; Re.m_end := 7 |}).
Proof. eexists. repeat split; reflexivity. Qed.

(** ** The continuous reader *)

Lemma time_sleep_ok q : (0 <= q)%Q -> time_sleep q = Ok [EvSleep q].
Proof.
  intros H. unfold time_sleep. apply Qle_bool_iff in H. now rewrite H.
Qed.

Lemma cap_nonneg bmax b : (0 <= bmax)%Q -> (0 <= b)%Q -> (0 <= cap bmax b)%Q.
Proof. intros H1 H2. unfold cap. now destruct (Qle_bool bmax b). Qed.

Lemma double_nonneg b : (0 <= b)%Q -> (0 <= 2 * b)%Q.
Proof. intros H. apply Qmult_le_0_compat; [discriminate | exact H]. Qed.

(** One failed iteration below the maximum. *)
Lemma read_failure_retries self tag flags :
  server_connection_errors self + 1 < server_connection_errors_max self ->
  (0 <= backoff_wait self)%Q ->
  read (FailsText (ConnectionError tag)) flags self
  = (Ok 0,
     {| rd_console := rd_console self;
        rd_offset := rd_offset self;
        server_connection_errors := server_connection_errors self + 1;
        server_connection_errors_max := server_connection_errors_max self;
        backoff_wait := cap (backoff_wait_max self) (2 * backoff_wait self)%Q;
        backoff_wait_max := backoff_wait_max self;
        generation_prev := generation_prev self;
        timestamp := timestamp self |},
     [EvWarning "server connection timedout, retry"; EvSleep (backoff_wait self)]).
Proof.
  intros Hlt Hb. unfold read.
  replace (server_connection_errors_max self <=? server_connection_errors self + 1)
    with false by (symmetry; apply Z.leb_gt; lia).
  now rewrite (time_sleep_ok _ Hb).
Qed.

(** One failed iteration that reaches the maximum. *)
Lemma read_failure_raises self tag flags :
  server_connection_errors_max self <= server_connection_errors self + 1 ->
  read (FailsText (ConnectionError tag)) flags self
  = (Raise (ConnectionError tag),
     {| rd_console := rd_console self;
        rd_offset := rd_offset self;
        server_connection_errors := server_connection_errors self + 1;
        server_connection_errors_max := server_connection_errors_max self;
        backoff_wait := backoff_wait self;
        backoff_wait_max := backoff_wait_max self;
        generation_prev := generation_prev self;
        timestamp := timestamp self |},
     restore_flags flags).
Proof.
  intros Hge. unfold read.
  now replace (server_connection_errors_max self <=? server_connection_errors self + 1)
    with true by (symmetry; apply Z.leb_le; lia).
Qed.

(** A successful iteration restarts the count. *)
Lemma read_success_resets self g o data flags :
  reader_ok self ->
  exists self' ev,
    read (ReadText g o data) flags self = (Ok (plen data), self', ev)
    /\ server_connection_errors self' = 0
    /\ server_connection_errors_max self' = server_connection_errors_max self
    /\ reader_ok self'.
Proof.
  intros (Hc & Hb & Hmax). unfold read.
  set (backoff := cap (backoff_wait_max self)
                    (if plen data =? 0 then (2 * backoff_wait self)%Q else 1 # 10)).
  assert (Hnew : (0 <= backoff)%Q).
  { apply cap_nonneg; [exact Hmax|].
    destruct (plen data =? 0); [now apply double_nonneg | discriminate]. }
  rewrite (time_sleep_ok _ Hnew).
  destruct (0 <? server_connection_errors self) eqn:E.
  - eexists _, _. split; [reflexivity|]. unfold reader_ok. cbn.
    repeat split; auto; try lia. discriminate.
  - apply Z.ltb_ge in E. eexists _, _. split; [reflexivity|]. unfold reader_ok. cbn.
    repeat split; auto; lia.
Qed.

Lemma read_failure_keeps_ok self tag flags r self' ev :
  reader_ok self ->
  read (FailsText (ConnectionError tag)) flags self = (r, self', ev) ->
  reader_ok self'
  /\ server_connection_errors self' = server_connection_errors self + 1
  /\ server_connection_errors_max self' = server_connection_errors_max self.
Proof.
  intros (Hc & Hb & Hmax) H.
  destruct (Z.le_gt_cases (server_connection_errors_max self)
              (server_connection_errors self + 1)) as [Hge|Hlt].
  - rewrite (read_failure_raises self tag flags Hge) in H. injection H as <- <- <-.
    unfold reader_ok. cbn. repeat split; auto; lia.
  - rewrite (read_failure_retries self tag flags ltac:(lia) Hb) in H.
    injection H as <- <- <-. unfold reader_ok. cbn. repeat split; auto; try lia.
    apply cap_nonneg; [exact Hmax | now apply double_nonneg].
Qed.

Lemma new_console_reader_ok console offset bmax emax ts :
  (0 <= bmax)%Q -> reader_ok (new_console_reader console offset bmax emax ts).
Proof. intros H. unfold reader_ok. cbn. repeat split; [lia | discriminate | exact H]. Qed.

(** The loop goes on over a script that leaves it running. *)
Lemma read_loop_app flags : forall s1 s2 self self1 ev1,
  read_loop s1 flags self = (Running, self1, ev1) ->
  read_loop (s1 ++ s2) flags self
  = let '(out, self2, ev2) := read_loop s2 flags self1 in
    (out, self2, ev1 ++ ev2).
Proof.
  induction s1 as [|resp s1 IH]; intros s2 self self1 ev1 H; cbn in H.
  - injection H as <- <-. cbn. now destruct (read_loop s2 flags self) as [[? ?] ?].
  - cbn [app read_loop].
    destruct (read resp flags self) as [[[n|e] self'] ev]; [|discriminate H].
    destruct (read_loop s1 flags self') as [[out1 self1'] ev1'] eqn:E1.
    injection H as -> -> <-.
    rewrite (IH s2 self' self1 ev1' E1).
    destruct (read_loop s2 flags self1) as [[out2 self2] ev2].
    now rewrite app_assoc.
Qed.

(** Failures in a row below the maximum leave the loop running. *)
Lemma read_loop_failures flags : forall (tags : list nat) self,
  reader_ok self ->
  server_connection_errors self + Z.of_nat (length tags)
    < server_connection_errors_max self ->
  exists self' ev,
    read_loop (map (fun i => FailsText (ConnectionError i)) tags) flags self
    = (Running, self', ev)
    /\ reader_ok self'
    /\ server_connection_errors self'
       = server_connection_errors self + Z.of_nat (length tags)
    /\ server_connection_errors_max self' = server_connection_errors_max self.
Proof.
  induction tags as [|tag tags IH]; intros self Hok Hlt.
  - exists self, []. cbn. repeat split; try apply Hok; lia.
  - cbn [map read_loop length] in *.
    destruct Hok as (Hc & Hb & Hmax).
    rewrite (read_failure_retries self tag flags ltac:(lia) Hb).
    match goal with
    | |- context [read_loop _ flags ?s] =>
        destruct (IH s) as (self' & ev & E & Hok' & Hcount & Hmax')
    end.
    + unfold reader_ok. cbn. repeat split; [lia | | exact Hmax].
      apply cap_nonneg; [exact Hmax | now apply double_nonneg].
    + cbn. lia.
    + rewrite E. eexists _, _. split; [reflexivity|].
      cbn in Hcount, Hmax'. repeat split; try apply Hok'; [lia | exact Hmax'].
Qed.

Lemma failures_S n :
  failures (S n) = failures n ++ [FailsText (ConnectionError n)].
Proof. unfold failures. now rewrite seq_S, map_app. Qed.

(** With the maximum of 10 that [_console_read_thread_fn] sets, the
    loop is still running after fewer than 10 failures in a row and is
    left on the tenth. *)
Lemma thread_fn_failures size console offset bmax flags ts n :
  (0 <= bmax)%Q ->
  let run := _console_read_thread_fn size console offset bmax flags ts (failures n) in
  ((n < 10)%nat ->
   fst (fst run) = Running
   /\ server_connection_errors (snd (fst run)) = Z.of_nat n)
  /\ (n = 10%nat ->
      fst (fst run) = Terminated (ConnectionError 9)
      /\ server_connection_errors (snd (fst run)) = 10
      /\ exists ev,
           snd run = ev ++ restore_flags flags ++ restore_flags flags
                        ++ [EvLogException (ConnectionError 9)]).
Proof.
  intros Hb run. subst run. unfold _console_read_thread_fn.
  set (reader := new_console_reader console (offset_calc size offset) bmax 10 ts).
  assert (Hok : reader_ok reader) by now apply new_console_reader_ok.
  split.
  - intros Hn.
    destruct (read_loop_failures flags (seq 0 n) reader Hok)
      as (self' & ev & E & _ & Hcount & _).
    { rewrite length_seq. cbn. lia. }
    unfold failures. rewrite E. cbn. rewrite Hcount, length_seq. cbn.
    split; [reflexivity | lia].
  - intros ->. rewrite failures_S.
    destruct (read_loop_failures flags (seq 0 9) reader Hok)
      as (self' & ev & E & Hok' & Hcount & Hmax).
    { cbn. lia. }
    rewrite (read_loop_app flags _ _ _ _ _ E).
    cbn [read_loop].
    rewrite (read_failure_raises self' 9%nat flags)
      by (rewrite Hmax, Hcount; cbn; lia).
    cbn. rewrite Hcount. cbn. split; [reflexivity|]. split; [reflexivity|].
    exists ev. reflexivity.
Qed.

(** C7 (as amended). Each connection failure adds one to the count of
    consecutive failures.  The reader raises the error, after restoring
    the terminal flags it was given, exactly when the count has reached
    the maximum (it is then greater than or equal to it); the loop
    restores the flags again, logs the error and ends.  Below the
    maximum the reader warns, sleeps the current backoff and doubles it
    up to the ceiling.  A successful iteration sets the count back to 0.
    With the maximum of 10 the loop is left on the tenth failure in a
    row. *)
Theorem reader_failure_budget self tag flags :
  reader_ok self ->
  (forall r self' ev,
     read (FailsText (ConnectionError tag)) flags self = (r, self', ev) ->
     server_connection_errors self' = server_connection_errors self + 1
     /\ (r = Raise (ConnectionError tag) <->
         server_connection_errors_max self <= server_connection_errors self')
     /\ (r = Raise (ConnectionError tag) ->
         ev = restore_flags flags /\ backoff_wait self' = backoff_wait self)
     /\ (server_connection_errors self' < server_connection_errors_max self ->
         r = Ok 0
         /\ ev = [EvWarning "server connection timedout, retry";
                  EvSleep (backoff_wait self)]
         /\ backoff_wait self'
            = cap (backoff_wait_max self) (2 * backoff_wait self)%Q))
  /\ (forall script,
        server_connection_errors_max self <= server_connection_errors self + 1 ->
        fst (fst (read_loop (FailsText (ConnectionError tag) :: script) flags self))
        = Terminated (ConnectionError tag)
        /\ snd (read_loop (FailsText (ConnectionError tag) :: script) flags self)
           = restore_flags flags ++ restore_flags flags
               ++ [EvLogException (ConnectionError tag)])
  /\ (forall g o data,
        exists self' ev,
          read (ReadText g o data) flags self = (Ok (plen data), self', ev)
          /\ server_connection_errors self' = 0)
  /\ (forall size console offset bmax ts n,
        (0 <= bmax)%Q ->
        let run := _console_read_thread_fn size console offset bmax flags ts
                     (failures n) in
        ((n < 10)%nat ->
         fst (fst run) = Running
         /\ server_connection_errors (snd (fst run)) = Z.of_nat n)
        /\ (n = 10%nat ->
            fst (fst run) = Terminated (ConnectionError 9)
            /\ server_connection_errors (snd (fst run)) = 10)).
Proof.
  intros Hok. pose proof Hok as (Hc & Hb & Hmax). split; [|split; [|split]].
  - intros r self' ev H.
    destruct (Z.le_gt_cases (server_connection_errors_max self)
                (server_connection_errors self + 1)) as [Hge|Hlt].
    + rewrite (read_failure_raises self tag flags Hge) in H.
      injection H as <- <- <-. cbn. repeat split; auto; try lia.
    + rewrite (read_failure_retries self tag flags ltac:(lia) Hb) in H.
      injection H as <- <- <-. cbn. repeat split; auto; try lia; discriminate.
  - intros script Hge. cbn [read_loop].
    rewrite (read_failure_raises self tag flags Hge). cbn. auto.
  - intros g o data.
    destruct (read_success_resets self g o data flags Hok)
      as (self' & ev & E & Hzero & _).
    eauto.
  - intros size console offset bmax ts n Hbmax run.
    destruct (thread_fn_failures size console offset bmax flags ts n Hbmax)
      as [Hrun Hstop].
    split; [exact Hrun|]. intros Hn. destruct (Hstop Hn) as (H1 & H2 & _). auto.
Qed.

Lemma reader_failure_budget_witness :
  reader_ok (new_console_reader None 0 (2 # 1) 10 false)
  /\ forall r self' ev,
       read (FailsText (ConnectionError 0)) None
         (new_console_reader None 0 (2 # 1) 10 false) = (r, self', ev) ->
       r = Ok 0
       /\ ev = [EvWarning "server connection timedout, retry"; EvSleep (1 # 10)]
       /\ backoff_wait self' = cap (2 # 1) (2 * (1 # 10))%Q.
Proof.
  assert (Hok : reader_ok (new_console_reader None 0 (2 # 1) 10 false)).
  { unfold reader_ok. cbn. repeat split; [lia | discriminate | discriminate]. }
  split; [exact Hok|]. intros r self' ev E.
  destruct (reader_failure_budget (new_console_reader None 0 (2 # 1) 10 false)
              0%nat None Hok) as (Hread & _).
  destruct (Hread r self' ev E) as (Hcount & _ & _ & Hretry).
  apply Hretry. rewrite Hcount. cbn. lia.
Defined.

(** The tenth failure in a row ends the loop although the count, 10,
    does not exceed the maximum of 10. *)
Lemma reader_stops_on_reaching_maximum :
  let run := _console_read_thread_fn None None 0 (2 # 1) None false (failures 10) in
  fst (fst run) = Terminated (ConnectionError 9)
  /\ server_connection_errors (snd (fst run)) = 10
  /\ server_connection_errors_max (snd (fst run)) = 10
  /\ ~ (server_connection_errors_max (snd (fst run))
        < server_connection_errors (snd (fst run))).
Proof.
  vm_compute. repeat split; try reflexivity. discriminate.
Qed.

(** ** Writing to the console *)

(** C10. [write] raises on every [bytes] argument, before anything is
    sent: it calls [encode] on it.  Whenever a call reaches the
    transport, the data was a [str], sent as it is in one call. *)
Theorem write_rejects_bytes self console chunk_size_arg interchunk_wait_arg :
  (forall b,
     write self (PBytes b) console chunk_size_arg interchunk_wait_arg
     = (Raise (AttributeError "'bytes' object has no attribute 'encode'"), []))
  /\ (forall data r calls,
        write self data console chunk_size_arg interchunk_wait_arg = (r, calls) ->
        calls <> [] ->
        exists s c, data = PStr s /\ calls = [(c, s)] /\ r = Ok tt).
Proof.
  split; [reflexivity|].
  intros data r calls H Hcalls. unfold write in H.
  destruct data as [s|b|p|z|]; try (injection H as <- <-; contradiction).
  destruct (_console_get self console) as [c|e];
    [|injection H as <- <-; contradiction].
  destruct (match chunk_size_arg with
            | Some n => Some n
            | None => chunk_size self !! c
            end) as [n|].
  - destruct (n =? 0); injection H as <- <-; contradiction.
  - injection H as <- <-. eauto.
Qed.

Lemma write_rejects_bytes_witness :
  write a_console (PStr (pystr_of_string "ls")) None None None
  = (Ok tt, [("serial0", pystr_of_string "ls")])
  /\ exists s c,
       PStr (pystr_of_string "ls") = PStr s
       /\ [("serial0", pystr_of_string "ls")] = [(c, s)]
       /\ Ok tt = Ok tt.
Proof.
  split; [reflexivity|].
  apply (proj2 (write_rejects_bytes a_console None None None)
           (PStr (pystr_of_string "ls")) (Ok tt)
           [("serial0", pystr_of_string "ls")]).
  - reflexivity.
  - discriminate.
Defined.

(** The same text as [bytes] is refused; with a chunk size given even a
    [str] is refused, before the first chunk is sent. *)
Lemma write_examples :
  fst (write a_console (PBytes (bytes_of_string "ls")) None None None)
  = Raise (AttributeError "'bytes' object has no attribute 'encode'")
  /\ write a_console (PStr (pystr_of_string "ls")) None (Some 1) None
     = (Raise (TypeError "'float' object cannot be interpreted as an integer"), []).
Proof. split; reflexivity. Qed.

(** * Further properties *)

(** ** Keys of the poll dictionary *)

Lemma list_ascii_app (a b : string) :
  list_ascii_of_string (a +:+ b)
  = list_ascii_of_string a ++ list_ascii_of_string b.
Proof. induction a as [|c a IH]; simpl; [reflexivity | f_equal; exact IH]. Qed.

Lemma list_ascii_inj (a b : string) :
  list_ascii_of_string a = list_ascii_of_string b -> a = b.
Proof.
  intros H. rewrite <- (string_of_list_ascii_of_string a),
    <- (string_of_list_ascii_of_string b). now rewrite H.
Qed.

Lemma append_inj_r (a b t : string) : a +:+ t = b +:+ t -> a = b.
Proof.
  intros H. apply list_ascii_inj.
  apply (f_equal list_ascii_of_string) in H. rewrite !list_ascii_app in H.
  now apply app_inv_tail in H.
Qed.

Lemma append_length (a b : string) :
  String.length (a +:+ b) = (String.length a + String.length b)%nat.
Proof. induction a as [|c a IH]; simpl; [reflexivity | f_equal; exact IH]. Qed.

(** The two keys of a context are told apart from those of every other
    context by their last character. *)
Lemma cursor_keys_cross (ctx1 ctx2 : string) :
  ctx1 +:+ "search_offset" <> ctx2 +:+ "search_offset_prev".
Proof.
  intros H. apply (f_equal list_ascii_of_string) in H.
  rewrite !list_ascii_app in H.
  apply (f_equal last) in H. rewrite !last_app in H. discriminate H.
Qed.

Lemma cursor_key_not_fixed (ctx key : string) :
  key = "of" \/ key = "read_offset" \/ key = "generation" ->
  ctx +:+ "search_offset" <> key /\ ctx +:+ "search_offset_prev" <> key.
Proof.
  intros Hkey. split; intros H; apply (f_equal String.length) in H;
    rewrite append_length in H;
    destruct Hkey as [-> | [-> | ->]]; cbn in H; lia.
Qed.

(** ** More on the detector *)

(** [detect] writes nothing but the two keys of its own context. *)
Lemma detect_frame self st :
  files (snd (detect self st)) = files st
  /\ testcase_buffers (snd (detect self st)) = testcase_buffers st
  /\ collateral (snd (detect self st)) = collateral st
  /\ requests (snd (detect self st)) = requests st
  /\ forall key,
       key <> detect_context_of self +:+ "search_offset" ->
       key <> detect_context_of self +:+ "search_offset_prev" ->
       buffers_poll (snd (detect self st)) !! key = buffers_poll st !! key.
Proof.
  unfold detect.
  destruct (buffers_poll st !! "of") as [[z|filename]|]; cbn [snd]; auto.
  destruct (blen (file_contents st filename) =? 0); cbn [snd]; auto.
  set (key1 := detect_context_of self +:+ "search_offset").
  set (st0 := match buffers_poll st !! key1 with
              | Some _ => st
              | None => set_buffers_poll (<[key1 := VInt 0]> (buffers_poll st)) st
              end).
  assert (H0 : files st0 = files st /\ testcase_buffers st0 = testcase_buffers st
               /\ collateral st0 = collateral st /\ requests st0 = requests st
               /\ forall key, key <> key1 ->
                    buffers_poll st0 !! key = buffers_poll st !! key).
  { subst st0. destruct (buffers_poll st !! key1); cbn; repeat split; auto.
    intros key Hk. now rewrite lookup_insert_ne by congruence. }
  destruct H0 as (F1 & F2 & F3 & F4 & F5).
  destruct (buffers_poll st0 !! key1) as [[s|f]|]; cbn [snd];
    try (repeat split; auto; fail).
  destruct (Pattern_search (regex self) _) as [[m|]|e]; cbn [snd];
    try (repeat split; auto; fail).
  unfold found. subst key1.
  destruct (report self) as [|[| |]|]; cbn; repeat split; auto;
    intros key Hk1 Hk2; rewrite !lookup_insert_ne by congruence; now apply F5.
Qed.

(** X1. Context isolation: a [detect] leaves the search offsets of
    every other detect context, the read offset, the generation, the
    capture handle and the capture files as they were. *)
Theorem detect_context_isolation self st ctx2 :
  ctx2 <> detect_context_of self ->
  let st' := snd (detect self st) in
  buffers_poll st' !! (ctx2 +:+ "search_offset")
    = buffers_poll st !! (ctx2 +:+ "search_offset")
  /\ buffers_poll st' !! (ctx2 +:+ "search_offset_prev")
     = buffers_poll st !! (ctx2 +:+ "search_offset_prev")
  /\ buffers_poll st' !! "of" = buffers_poll st !! "of"
  /\ buffers_poll st' !! "read_offset" = buffers_poll st !! "read_offset"
  /\ buffers_poll st' !! "generation" = buffers_poll st !! "generation"
  /\ files st' = files st.
Proof.
  intros Hctx st'. subst st'.
  destruct (detect_frame self st) as (F1 & _ & _ & _ & F5).
  assert (Hfixed : forall key,
            key = "of" \/ key = "read_offset" \/ key = "generation" ->
            buffers_poll (snd (detect self st)) !! key = buffers_poll st !! key).
  { intros key Hkey.
    destruct (cursor_key_not_fixed (detect_context_of self) key Hkey) as [H1 H2].
    apply F5; congruence. }
  repeat split; auto.
  - apply F5.
    + intros H. apply append_inj_r in H. contradiction.
    + apply cursor_keys_cross.
  - apply F5.
    + intros H. symmetry in H. revert H. apply cursor_keys_cross.
    + intros H. apply append_inj_r in H. contradiction.
Qed.

Lemma detect_context_isolation_witness :
  buffers_poll state_A_detected !! "crashsearch_offset" = None
  /\ buffers_poll state_A_detected !! "read_offset" = Some (VInt 13)
  /\ files state_A_detected = files state_A.
Proof.
  destruct (detect_context_isolation (expect_login "" ReportNone) state_A "crash")
    as (H1 & _ & _ & H4 & _ & H6).
  - vm_compute. discriminate.
  - split; [|split].
    + etransitivity; [exact H1 | vm_compute; reflexivity].
    + etransitivity; [exact H4 | vm_compute; reflexivity].
    + exact H6.
Defined.

(** X2. A [detect] that finds nothing does not move the search offset
    of its context: read with the default 0, it is what it was, and so
    is the previous search offset. *)
Theorem detect_no_match_keeps_cursor self st :
  fst (detect self st) = Ok None ->
  get_int (buffers_poll (snd (detect self st)))
    (detect_context_of self +:+ "search_offset") 0
  = get_int (buffers_poll st) (detect_context_of self +:+ "search_offset") 0
  /\ buffers_poll (snd (detect self st))
       !! (detect_context_of self +:+ "search_offset_prev")
     = buffers_poll st !! (detect_context_of self +:+ "search_offset_prev").
Proof.
  unfold detect.
  destruct (buffers_poll st !! "of") as [[z|filename]|]; cbn [fst snd];
    try discriminate; auto.
  destruct (blen (file_contents st filename) =? 0); cbn [fst snd]; auto.
  remember (detect_context_of self +:+ "search_offset") as key1 eqn:Hk1.
  destruct (buffers_poll st !! key1) as [[s|f]|] eqn:Ek.
  - rewrite Ek.
    destruct (Pattern_search (regex self) _) as [[m|]|e]; cbn [fst snd];
      try discriminate; auto.
    unfold found. destruct (report self) as [|[| |]|]; discriminate.
  - rewrite Ek. discriminate.
  - cbv beta iota. cbn [set_buffers_poll buffers_poll]. rewrite lookup_insert_eq.
    destruct (Pattern_search (regex self) _) as [[m|]|e]; cbn [fst snd];
      try discriminate.
    + unfold found. destruct (report self) as [|[| |]|]; discriminate.
    + intros _. cbn [set_buffers_poll buffers_poll]. unfold get_int.
      rewrite Ek, lookup_insert_eq. split; [reflexivity|].
      apply lookup_insert_ne. subst key1. apply cursor_keys_cross.
Qed.

Lemma detect_no_match_keeps_cursor_witness :
  get_int (buffers_poll (snd (detect (expect_login "" ReportNone) state_B)))
    "serial0search_offset" 0 = Ok 12.
Proof.
  destruct (detect_no_match_keeps_cursor (expect_login "" ReportNone) state_B)
    as [H _].
  - vm_compute. reflexivity.
  - etransitivity; [exact H | vm_compute; reflexivity].
Defined.

Lemma slice_from_length data s :
  0 <= s <= blen data ->
  Z.of_nat (length (slice_from data s)) = blen data - s.
Proof.
  unfold slice_from, blen. intros H.
  replace (s <? 0) with false by (symmetry; apply Z.ltb_ge; lia).
  rewrite length_skipn. lia.
Qed.

(** What [re.compile] returns finds its matches inside the data. *)
Lemma re_compile_bounded src p : re_compile src = Ok p -> bounded_pattern p.
Proof.
  unfold re_compile. destruct (Re.parse src) as [nodes|]; [|discriminate].
  intros [= <-] data m H. cbn in H. now apply search_nodes_bound in H.
Qed.

Lemma regex_set_bounded text p :
  regex_set text = Ok p ->
  (forall q, text = PPattern q -> bounded_pattern q) ->
  bounded_pattern p.
Proof.
  unfold regex_set. destruct text as [s|b|q| |]; try discriminate.
  - destruct (Utf8.encode s); cbn; [|discriminate]. intros H _.
    now apply re_compile_bounded in H.
  - intros H _. now apply re_compile_bounded in H.
  - destruct (pattern q).
    + destruct (Utf8.encode_with _ s); cbn; [|discriminate]. intros H _.
      now apply re_compile_bounded in H.
    + intros [= <-] H. now apply H.
Qed.

(** X3. The search offset of a context never moves backward in a
    [detect]; and when it lies inside the capture and the pattern's
    matches lie inside the searched bytes, it stays inside the
    capture. *)
Theorem detect_cursor_monotone self st filename s :
  buffers_poll st !! "of" = Some (VFile filename) ->
  get_int (buffers_poll st) (detect_context_of self +:+ "search_offset") 0 = Ok s ->
  exists s',
    get_int (buffers_poll (snd (detect self st)))
      (detect_context_of self +:+ "search_offset") 0 = Ok s'
    /\ s <= s'
    /\ (bounded_pattern (regex self) ->
        0 <= s <= blen (file_contents st filename) ->
        s' <= blen (file_contents st filename)).
Proof.
  intros Hof Hs.
  destruct (file_contents st filename) as [|c data] eqn:Hdata.
  { exists s. unfold detect. rewrite Hof, Hdata. cbn. split; [exact Hs|].
    split; lia. }
  rewrite (detect_unfold self st filename s Hof); [|rewrite Hdata; discriminate|exact Hs].
  cbv zeta. rewrite Hdata.
  set (key1 := detect_context_of self +:+ "search_offset").
  assert (Hinit : get_int (buffers_poll (init_cursor key1 s st)) key1 0 = Ok s).
  { unfold init_cursor, get_int. cbn. now rewrite lookup_insert_eq. }
  unfold Pattern_search.
  destruct (pattern (regex self)) as [src|src].
  { exists s. cbn. split; [exact Hinit|]. split; lia. }
  destruct (run (regex self) (slice_from (c :: data) s)) as [m|] eqn:Em.
  2:{ exists s. cbn. split; [exact Hinit|]. split; lia. }
  exists (s + Z.of_nat (Re.m_end m)). split.
  - rewrite found_buffers. unfold get_int. subst key1.
    now rewrite lookup_insert_eq.
  - split; [lia|]. intros Hb Hrange. apply Hb in Em as [_ Hend].
    pose proof (slice_from_length (c :: data) s Hrange). lia.
Qed.

Lemma detect_cursor_monotone_witness :
  bounded_pattern (regex (expect_login "" ReportNone))
  /\ exists s',
       get_int (buffers_poll (snd (detect (expect_login "" ReportNone) state_A)))
         "serial0search_offset" 0 = Ok s'
       /\ 0 <= s' <= 13.
Proof.
  assert (Hb : bounded_pattern (regex (expect_login "" ReportNone))).
  { apply (re_compile_bounded (Re.escape (bytes_of_string "login:"))).
    apply re_compile_escape. }
  split; [exact Hb|].
  destruct (detect_cursor_monotone (expect_login "" ReportNone) state_A
              "report-console-target.t0.serial0.txt" 0)
    as (s' & E & Hle & Hin).
  - vm_compute. reflexivity.
  - vm_compute. reflexivity.
  - exists s'. split; [exact E|]. split; [exact Hle|].
    apply (Hin Hb). vm_compute. split; discriminate.
Defined.

(** X5. After a [detect] that found a match from search offset [s]
    ending at relative offset [e], [on_timeout] reports offset [s + e],
    previous offset [s] and the output window from [s] to [s + e]: the
    bytes the last match consumed. *)
Theorem on_timeout_after_match self st filename s m :
  buffers_poll st !! "of" = Some (VFile filename) ->
  file_contents st filename <> [] ->
  get_int (buffers_poll st) (detect_context_of self +:+ "search_offset") 0 = Ok s ->
  Pattern_search (regex self) (slice_from (file_contents st filename) s)
    = Ok (Some m) ->
  on_timeout self (snd (detect self st))
  = Ok {| td_console := console self;
          td_offset := s + Z.of_nat (Re.m_end m);
          td_offset_prev := s;
          td_console_output :=
            generator_factory (console self) s (s + Z.of_nat (Re.m_end m)) |}.
Proof.
  intros Hof Hne Hs Hm.
  rewrite (detect_unfold self st filename s Hof Hne Hs). cbv zeta. rewrite Hm.
  unfold on_timeout, get_int. rewrite found_buffers.
  rewrite lookup_insert_ne by apply search_offset_keys_differ.
  rewrite !lookup_insert_eq. reflexivity.
Qed.

Lemma on_timeout_after_match_witness :
  on_timeout (expect_login "" ReportNone) state_A_detected
  = Ok {| td_console := "serial0";
          td_offset := 12;
          td_offset_prev := 0;
          td_console_output := generator_factory "serial0" 0 12 |}.
Proof.
  apply (on_timeout_after_match (expect_login "" ReportNone) state_A
           "report-console-target.t0.serial0.txt" 0
           {| Re.m_start := 6; Re.m_end := 12 |}).
  - vm_compute. reflexivity.
  - vm_compute. discriminate.
  - vm_compute. reflexivity.
  - vm_compute. reflexivity.
Defined.

(** ** More on the poller *)

Lemma capture_grows_same f st st' :
  files st' = files st -> collateral st' = collateral st ->
  capture_grows f st st'.
Proof.
  intros Hf Hc. repeat split; auto.
  - exists []. unfold file_contents. now rewrite Hf, app_nil_r.
  - intros other _. now rewrite Hf.
Qed.

Lemma capture_grows_refl f st : capture_grows f st st.
Proof. now apply capture_grows_same. Qed.

Lemma capture_grows_trans f st1 st2 st3 :
  capture_grows f st1 st2 -> capture_grows f st2 st3 -> capture_grows f st1 st3.
Proof.
  intros ([e1 H1] & O1 & C1) ([e2 H2] & O2 & C2). repeat split.
  - exists (e1 ++ e2). now rewrite H2, H1, app_assoc.
  - intros other Ho. now rewrite O2, O1.
  - congruence.
Qed.

Lemma read_full_grows srv c off mx f st :
  capture_grows f st (snd (read_full srv c off mx f st))
  /\ buffers_poll (snd (read_full srv c off mx f st)) = buffers_poll st
  /\ testcase_buffers (snd (read_full srv c off mx f st)) = testcase_buffers st.
Proof.
  unfold read_full. destruct (srv _ _) as [g o d|e]; cbn.
  - split; [|auto]. repeat split; cbn.
    + exists d. unfold file_contents at 1. cbn. now rewrite lookup_insert_eq.
    + intros other Ho. now apply lookup_insert_ne.
  - split; [|auto]. now apply capture_grows_same.
Qed.

Lemma count_timeout_grows self f st : capture_grows f st (count_timeout self st).
Proof. now apply capture_grows_same. Qed.

Lemma read_retrying_frame srv self ro f : forall fuel rc last st,
  capture_grows f st (snd (read_retrying fuel srv self ro f rc last st))
  /\ buffers_poll (snd (read_retrying fuel srv self ro f rc last st))
     = buffers_poll st.
Proof.
  induction fuel as [|fuel IH]; intros rc last st; cbn.
  - destruct (rc <? 3); [|destruct last]; cbn;
      (split; [apply capture_grows_refl | reflexivity]).
  - destruct (rc <? 3).
    2:{ destruct last; cbn; (split; [apply capture_grows_refl | reflexivity]). }
    destruct (read_full_grows srv (console self) ro max_size f st) as (G & B & _).
    destruct (read_full srv (console self) ro max_size f st) as [[r|e] st1];
      cbn [snd] in G, B; [now split|].
    destruct e; try (now split).
    destruct (IH (rc + 1) (Some (ReadTimeout tag)) (count_timeout self st1))
      as (G' & B').
    split.
    + eapply capture_grows_trans; [exact G|]. exact G'.
    + rewrite B'. exact B.
Qed.

Lemma after_read_frame srv self f r st :
  capture_grows f st (snd (after_read srv self f r st))
  /\ (forall key, key <> "read_offset" -> key <> "generation" ->
        buffers_poll (snd (after_read srv self f r st)) !! key
        = buffers_poll st !! key)
  /\ (forall e, fst (after_read srv self f r st) = Raise e ->
        buffers_poll (snd (after_read srv self f r st)) = buffers_poll st).
Proof.
  destruct r as [[g o] tb]. unfold after_read.
  destruct (buffers_poll st !! "generation") as [[gp|fl]|].
  - destruct (gp <? g).
    + destruct (read_full_grows srv (console self) 0 max_size f st) as (G & B & _).
      destruct (read_full srv (console self) 0 max_size f st)
        as [[[[g2 o2] tb2]|e] st1]; cbn [fst snd] in *.
      * split; [eapply capture_grows_trans; [exact G | now apply capture_grows_same]|].
        split; [|discriminate].
        intros key K1 K2. cbn. rewrite !lookup_insert_ne by congruence.
        now rewrite B.
      * split; [exact G|]. split; [intros; now rewrite B | intros; exact B].
    + cbn. split; [now apply capture_grows_same|]. split; [|discriminate].
      intros key K1 K2. now rewrite lookup_insert_ne by congruence.
  - cbn. split; [now apply capture_grows_same|]. auto.
  - cbn. split; [now apply capture_grows_same|]. split; [|discriminate].
    intros key K1 K2. now rewrite !lookup_insert_ne by congruence.
Qed.

Lemma wrap_http_error_snd {A} (r : result A * state) :
  snd (wrap_http_error r) = snd r.
Proof. destruct r as [[a|e] st]; [reflexivity|]. destruct e; reflexivity. Qed.

Lemma wrap_http_error_raise {A} (r : result A * state) e :
  fst (wrap_http_error r) = Raise e -> exists e', fst r = Raise e'.
Proof.
  destruct r as [[a|e'] st]; [discriminate|]. intros _. now exists e'.
Qed.

(** What [_poll] leaves alone, whatever the transport does. *)
Lemma _poll_frame srv self st :
  (forall f, buffers_poll st !! "of" = Some (VFile f) ->
     capture_grows f st (snd (_poll srv self st)))
  /\ (forall key, key <> "read_offset" -> key <> "generation" ->
        buffers_poll (snd (_poll srv self st)) !! key = buffers_poll st !! key)
  /\ (forall e, fst (_poll srv self st) = Raise e ->
        buffers_poll (snd (_poll srv self st)) = buffers_poll st).
Proof.
  unfold _poll.
  destruct (get_int (buffers_poll st) "read_offset" 0) as [ro|e0].
  2:{ cbn. split; [intros f _; apply capture_grows_refl | auto]. }
  destruct (buffers_poll st !! "of") as [[z|filename]|].
  1,3: cbn; (split; [discriminate | auto]).
  rewrite wrap_http_error_snd.
  destruct (read_retrying_frame srv self ro filename 4 (-1) None st) as (G & B).
  destruct (read_retrying 4 srv self ro filename (-1) None st) as [[r|e] st1];
    cbn [snd] in G, B.
  - destruct (after_read_frame srv self filename r st1) as (G' & K' & E').
    split; [|split].
    + intros f [= <-]. eapply capture_grows_trans; eauto.
    + intros key K1 K2. now rewrite K', B.
    + intros e He. apply wrap_http_error_raise in He as [e' He'].
      now rewrite (E' e' He'), B.
  - cbn [fst snd]. split; [intros f [= <-]; exact G|].
    split; [intros; now rewrite B | intros; exact B].
Qed.

(** X4. The capture is append-only under polling: once the capture
    file is open, a poll, whether it succeeds, restarts or raises, only
    adds bytes at the end of that file and changes no other file. *)
Theorem poll_capture_append_only srv size self st f :
  buffers_poll st !! "of" = Some (VFile f) ->
  (exists extra,
     file_contents (snd (poll srv size self st)) f = file_contents st f ++ extra)
  /\ (forall other, other <> f ->
        files (snd (poll srv size self st)) !! other = files st !! other).
Proof.
  intros Hof. unfold poll. rewrite Hof.
  destruct (_poll_frame srv self st) as (G & _).
  destruct (G f Hof) as (H1 & H2 & _). auto.
Qed.

Lemma poll_capture_append_only_witness :
  exists extra,
    file_contents state_B "report-console-target.t0.serial0.txt"
    = body_A ++ extra.
Proof.
  destruct (poll_capture_append_only session_transport (Some 0)
              (expect_login "" ReportNone) state_A_detected
              "report-console-target.t0.serial0.txt") as [[extra H] _].
  - vm_compute. reflexivity.
  - exists extra. etransitivity; [exact H|]. f_equal.
Defined.

(** X6. A poll that raises leaves the poll dictionary as it was: read
    offset, generation and search offsets are those from before, also
    when the read that failed is the one after a restart. *)
Theorem poll_failure_keeps_dictionary srv self st e :
  fst (_poll srv self st) = Raise e ->
  buffers_poll (snd (_poll srv self st)) = buffers_poll st.
Proof.
  destruct (_poll_frame srv self st) as (_ & _ & H). apply H.
Qed.

Lemma poll_failure_keeps_dictionary_witness :
  buffers_poll (snd (_poll (flaky_transport 5) (expect_login "" ReportNone)
                       fresh_state))
  = buffers_poll fresh_state.
Proof.
  apply (poll_failure_keeps_dictionary (flaky_transport 5)
           (expect_login "" ReportNone) fresh_state (ReadTimeout 3)).
  vm_compute. reflexivity.
Defined.

(** X7. Polling never moves a search offset: whatever the transport
    answers and whether the context is initialised by this poll or not,
    the two keys of every detect context are left as they were. *)
Theorem poll_keeps_search_offsets srv size self st ctx :
  buffers_poll (snd (poll srv size self st)) !! (ctx +:+ "search_offset")
  = buffers_poll st !! (ctx +:+ "search_offset")
  /\ buffers_poll (snd (poll srv size self st)) !! (ctx +:+ "search_offset_prev")
     = buffers_poll st !! (ctx +:+ "search_offset_prev").
Proof.
  assert (Hkeys : forall key,
            key <> "of" -> key <> "read_offset" -> key <> "generation" ->
            buffers_poll (snd (poll srv size self st)) !! key
            = buffers_poll st !! key).
  { intros key K1 K2 K3. unfold poll.
    destruct (buffers_poll st !! "of").
    - destruct (_poll_frame srv self st) as (_ & H & _). now apply H.
    - unfold _poll_context_init.
      destruct (buffers_poll st !! "read_offset"); [reflexivity|].
      match goal with
      | |- context [_poll srv self ?s] =>
          destruct (_poll_frame srv self s) as (_ & H & _)
      end.
      rewrite H by assumption. cbn.
      now rewrite !lookup_insert_ne by congruence. }
  destruct (cursor_key_not_fixed ctx "of" ltac:(auto)) as [A1 A2].
  destruct (cursor_key_not_fixed ctx "read_offset" ltac:(auto)) as [B1 B2].
  destruct (cursor_key_not_fixed ctx "generation" ltac:(auto)) as [C1 C2].
  split; apply Hkeys; assumption.
Qed.

(** X8. An HTTP error of the transport is not retried and reaches the
    caller as [blocked_e]: [_poll] never raises a bare [HTTPError], and
    when the first read raises one the poll ends after that one
    request. *)
Theorem poll_http_error_is_blocked srv self st filename ro tag :
  buffers_poll st !! "of" = Some (VFile filename) ->
  get_int (buffers_poll st) "read_offset" 0 = Ok ro ->
  (forall t, fst (_poll srv self st) <> Raise (HTTPError t))
  /\ (srv (length (requests st)) (console self, ro, max_size) = Fails (HTTPError tag) ->
      fst (_poll srv self st)
      = Raise (blocked_e "error reading console" (HTTPError tag))
      /\ requests (snd (_poll srv self st))
         = requests st ++ [(console self, ro, max_size)]).
Proof.
  intros Hof Hro. unfold _poll. rewrite Hro, Hof. split.
  - intros t. unfold wrap_http_error.
    destruct (match read_retrying 4 srv self ro filename (-1) None st with
              | (Ok r, st') => after_read srv self filename r st'
              | (Raise e, st') => (Raise e, st')
              end) as [[u|e] st']; [discriminate|].
    destruct e; discriminate.
  - intros Hsrv. cbn [read_retrying]. cbn [Z.ltb Z.compare].
    unfold read_full. rewrite Hsrv. cbn. auto.
Qed.

Lemma poll_http_error_is_blocked_witness :
  fst (_poll (fun _ _ => Fails (HTTPError 7)) (expect_login "" ReportNone)
         fresh_state)
  = Raise (blocked_e "error reading console" (HTTPError 7)).
Proof.
  apply (poll_http_error_is_blocked (fun _ _ => Fails (HTTPError 7))
           (expect_login "" ReportNone) fresh_state
           "report-console-target.t0.serial0.txt" 0 7%nat).
  - vm_compute. reflexivity.
  - vm_compute. reflexivity.
  - reflexivity.
Defined.

Lemma count_timeout_counter self st :
  default 0 (testcase_buffers (count_timeout self st) !! timeout_counter_name self)
  = default 0 (testcase_buffers st !! timeout_counter_name self) + 1.
Proof. unfold count_timeout. cbn. now rewrite lookup_insert_eq. Qed.

Lemma read_retrying_counter srv self ro f : forall k fuel rc last st tags,
  (forall i, (i < k)%nat ->
     srv (length (requests st) + i)%nat (console self, ro, max_size)
     = Fails (ReadTimeout (tags i))) ->
  (rc + Z.of_nat k = 3 /\ (k <= fuel)%nat
   \/ rc + Z.of_nat k < 3 /\ (k < fuel)%nat
      /\ forall t, srv (length (requests st) + k)%nat (console self, ro, max_size)
                   <> Fails (ReadTimeout t)) ->
  default 0 (testcase_buffers (snd (read_retrying fuel srv self ro f rc last st))
               !! timeout_counter_name self)
  = default 0 (testcase_buffers st !! timeout_counter_name self) + Z.of_nat k.
Proof.
  induction k as [|k IH]; intros fuel rc last st tags Htm Hend.
  - rewrite Z.add_0_r. destruct Hend as [[Hrc _]|(Hrc & Hfuel & Hnot)].
    + replace rc with 3 by lia. destruct fuel; cbn; destruct last; reflexivity.
    + destruct fuel as [|fuel]; [lia|]. cbn [read_retrying].
      replace (rc <? 3) with true by (symmetry; apply Z.ltb_lt; lia).
      destruct (read_full_grows srv (console self) ro max_size f st) as (_ & _ & T).
      unfold read_full in *. rewrite Nat.add_0_r in Hnot.
      destruct (srv (length (requests st)) (console self, ro, max_size))
        as [g o d|e]; [reflexivity|].
      destruct e; try reflexivity. now destruct (Hnot tag).
  - assert (Hfuel : (0 < fuel)%nat) by (destruct Hend as [[_ ?]|(_ & ? & _)]; lia).
    destruct fuel as [|fuel]; [lia|]. cbn [read_retrying].
    replace (rc <? 3) with true by (symmetry; apply Z.ltb_lt; lia).
    pose proof (read_full_spec srv (console self) ro max_size f st) as R.
    cbv zeta in R. pose proof (Htm 0%nat ltac:(lia)) as H0.
    rewrite Nat.add_0_r in H0. rewrite H0 in R.
    destruct R as ((R1 & R2) & R3 & R4 & R5).
    destruct (read_full_grows srv (console self) ro max_size f st) as (_ & _ & T).
    destruct (read_full srv (console self) ro max_size f st) as [r st1].
    cbn in R1, R3, T. subst r.
    rewrite (IH fuel (rc + 1) (Some (ReadTimeout (tags 0%nat)))
               (count_timeout self st1) (fun i => tags (S i))).
    + rewrite count_timeout_counter, T. lia.
    + intros i Hi. cbn [count_timeout requests]. rewrite R3, length_requests_snoc.
      apply Htm. lia.
    + cbn [count_timeout requests]. rewrite R3.
      destruct Hend as [[Hrc Hf]|(Hrc & Hf & Hnot)]; [left; lia|].
      right. split; [lia|]. split; [lia|]. intros t.
      rewrite length_requests_snoc. apply Hnot.
Qed.

Lemma after_read_counter srv self f r st :
  testcase_buffers (snd (after_read srv self f r st)) = testcase_buffers st.
Proof.
  destruct r as [[g o] tb]. unfold after_read.
  destruct (buffers_poll st !! "generation") as [[gp|fl]|]; try reflexivity.
  destruct (gp <? g); [|reflexivity].
  destruct (read_full_grows srv (console self) 0 max_size f st) as (_ & _ & T).
  destruct (read_full srv (console self) 0 max_size f st)
    as [[[[g2 o2] tb2]|e] st1]; exact T.
Qed.

(** X9. Every read timeout met by the retry loop is counted once in
    the test case's counter for the console: a poll that meets [k]
    timeouts in a row, then another answer or the end of its budget of
    4 attempts, adds [k] to it. *)
Theorem poll_counts_timeouts srv self st filename ro k tags :
  buffers_poll st !! "of" = Some (VFile filename) ->
  get_int (buffers_poll st) "read_offset" 0 = Ok ro ->
  (k <= 4)%nat ->
  (forall i, (i < k)%nat ->
     srv (length (requests st) + i)%nat (console self, ro, max_size)
     = Fails (ReadTimeout (tags i))) ->
  ((k < 4)%nat ->
   forall t, srv (length (requests st) + k)%nat (console self, ro, max_size)
             <> Fails (ReadTimeout t)) ->
  default 0 (testcase_buffers (snd (_poll srv self st)) !! timeout_counter_name self)
  = default 0 (testcase_buffers st !! timeout_counter_name self) + Z.of_nat k.
Proof.
  intros Hof Hro Hk Htm Hnot. unfold _poll. rewrite Hro, Hof.
  rewrite wrap_http_error_snd.
  pose proof (read_retrying_counter srv self ro filename k 4 (-1) None st tags Htm)
    as Hc.
  destruct (read_retrying 4 srv self ro filename (-1) None st) as [[r|e] st1];
    cbn [snd] in *.
  - rewrite after_read_counter. apply Hc.
    destruct (Nat.eq_dec k 4%nat) as [->|Hne]; [left; lia|].
    right. split; [lia|]. split; [lia|]. apply Hnot. lia.
  - apply Hc.
    destruct (Nat.eq_dec k 4%nat) as [->|Hne]; [left; lia|].
    right. split; [lia|]. split; [lia|]. apply Hnot. lia.
Qed.

Lemma poll_counts_timeouts_witness :
  default 0 (testcase_buffers
               (snd (_poll (flaky_transport 3) (expect_login "" ReportNone)
                       fresh_state))
               !! "HTTP read timeouts from console serial0") = 3.
Proof.
  apply (poll_counts_timeouts (flaky_transport 3) (expect_login "" ReportNone)
           fresh_state "report-console-target.t0.serial0.txt" 0 3 (fun i => i)).
  - vm_compute. reflexivity.
  - vm_compute. reflexivity.
  - lia.
  - intros i Hi. change (length (requests fresh_state)) with 0%nat.
    unfold flaky_transport.
    replace (0 + i <? 3)%nat with true; [reflexivity|].
    symmetry. apply Nat.ltb_lt. lia.
  - intros _ t. discriminate.
Defined.

(** One poll answered at once with the generation already seen (or
    with the first generation ever). *)
Lemma _poll_steady srv self st filename ro g o d :
  buffers_poll st !! "of" = Some (VFile filename) ->
  get_int (buffers_poll st) "read_offset" 0 = Ok ro ->
  (buffers_poll st !! "generation" = None
   \/ exists gp, buffers_poll st !! "generation" = Some (VInt gp) /\ g <= gp) ->
  srv (length (requests st)) (console self, ro, max_size) = Read g o d ->
  exists st',
    _poll srv self st = (Ok tt, st')
    /\ requests st' = requests st ++ [(console self, ro, max_size)]
    /\ file_contents st' filename = file_contents st filename ++ d
    /\ buffers_poll st' !! "of" = Some (VFile filename)
    /\ buffers_poll st' !! "read_offset" = Some (VInt o)
    /\ exists gp, buffers_poll st' !! "generation" = Some (VInt gp) /\ g <= gp.
Proof.
  intros Hof Hro Hgen Hsrv. unfold _poll. rewrite Hro, Hof.
  destruct (read_retrying_success srv self ro filename g o d 0 4 (-1) None st
              (fun i => i) ltac:(lia) ltac:(lia))
    as (st1 & E & Q1 & Q2 & Q3 & Q4).
  { intros i Hi. lia. }
  { now rewrite Nat.add_0_r. }
  rewrite E. unfold after_read. rewrite Q2.
  destruct Hgen as [Hnone|(gp & Hsome & Hle)].
  - rewrite Hnone. cbn. eexists. split; [reflexivity|]. cbn.
    split; [exact Q1|]. split.
    { unfold file_contents at 1. cbn. now rewrite Q3, lookup_insert_eq. }
    split; [rewrite !lookup_insert_ne by discriminate; exact Hof|].
    split; [apply lookup_insert_eq|].
    exists g. split; [|lia].
    rewrite lookup_insert_ne by discriminate. apply lookup_insert_eq.
  - rewrite Hsome.
    replace (gp <? g) with false by (symmetry; apply Z.ltb_ge; lia).
    cbn. eexists. split; [reflexivity|]. cbn.
    split; [exact Q1|]. split.
    { unfold file_contents at 1. cbn. now rewrite Q3, lookup_insert_eq. }
    split; [rewrite lookup_insert_ne by discriminate; exact Hof|].
    split; [apply lookup_insert_eq|].
    exists gp. split; [|exact Hle].
    rewrite lookup_insert_ne by discriminate. exact Hsome.
Qed.

Lemma last_default_irrelevant (x : Z) (l : list Z) (d1 d2 : Z) :
  List.last (x :: l) d1 = List.last (x :: l) d2.
Proof.
  revert x. induction l as [|y l IH]; intros x; [reflexivity|].
  change (List.last (y :: l) d1 = List.last (y :: l) d2). apply IH.
Qed.

Lemma last_cons_default (l : list Z) (o ro : Z) :
  List.last l o = List.last (o :: l) ro.
Proof.
  destruct l as [|x l]; [reflexivity|].
  change (List.last (x :: l) o = List.last (x :: l) ro).
  apply last_default_irrelevant.
Qed.

(** X10. Round trip of the capture: polls answered one after the other
    under one generation append the bodies in order, each poll asks for
    the offset the one before was given, and the read offset ends at
    the last offset given. *)
Theorem polls_round_trip srv self g : forall answers st filename ro,
  buffers_poll st !! "of" = Some (VFile filename) ->
  get_int (buffers_poll st) "read_offset" 0 = Ok ro ->
  (buffers_poll st !! "generation" = None
   \/ exists gp, buffers_poll st !! "generation" = Some (VInt gp) /\ g <= gp) ->
  (forall i o d rq,
     answers !! i = Some (o, d) ->
     srv (length (requests st) + i)%nat rq = Read g o d) ->
  exists st',
    polls (length answers) srv self st = (Ok tt, st')
    /\ file_contents st' filename
       = file_contents st filename ++ concat (map snd answers)
    /\ get_int (buffers_poll st') "read_offset" 0
       = Ok (List.last (map fst answers) ro)
    /\ offsets_asked (requests st')
       = offsets_asked (requests st) ++ removelast (ro :: map fst answers).
Proof.
  induction answers as [|[o d] answers IH]; intros st filename ro Hof Hro Hgen Hsrv.
  - exists st. cbn. rewrite !app_nil_r. auto.
  - cbn [length polls].
    destruct (_poll_steady srv self st filename ro g o d Hof Hro Hgen)
      as (st1 & E & R1 & F1 & O1 & P1 & G1).
    { rewrite <- (Nat.add_0_r (length (requests st))). now apply Hsrv. }
    rewrite E.
    destruct (IH st1 filename o O1) as (st' & E' & F' & P' & A').
    + unfold get_int. now rewrite P1.
    + right. exact G1.
    + intros i o' d' rq Hi. rewrite R1, length_requests_snoc. now apply Hsrv.
    + exists st'. split; [exact E'|]. split.
      { rewrite F', F1. cbn. now rewrite <- app_assoc. }
      split.
      { rewrite P'. cbn [map fst]. f_equal. apply last_cons_default. }
      rewrite A', R1. unfold offsets_asked. rewrite map_app, <- app_assoc.
      cbn [map fst snd app]. f_equal.
Qed.

Lemma polls_round_trip_witness :
  exists st',
    polls 2 (fun n _ => if (n =? 0)%nat then Read 1 13 body_A else Read 1 19 body_B)
      (expect_login "" ReportNone) fresh_state = (Ok tt, st')
    /\ file_contents st' "report-console-target.t0.serial0.txt"
       = body_A ++ body_B
    /\ offsets_asked (requests st') = [0; 13].
Proof.
  destruct (polls_round_trip
              (fun n _ => if (n =? 0)%nat then Read 1 13 body_A else Read 1 19 body_B)
              (expect_login "" ReportNone) 1 [(13, body_A); (19, body_B)]
              fresh_state "report-console-target.t0.serial0.txt" 0)
    as (st' & E & F & _ & A).
  - vm_compute. reflexivity.
  - vm_compute. reflexivity.
  - left. vm_compute. reflexivity.
  - intros [|[|i]] o d rq H; cbn in H; try discriminate; now injection H as <- <-.
  - exists st'. split; [exact E|]. split.
    + etransitivity; [exact F|]. vm_compute. reflexivity.
    + exact A.
Defined.

(** ** More on the continuous reader *)

Lemma cap_le bmax b : (cap bmax b <= bmax)%Q.
Proof.
  unfold cap. destruct (Qle_bool bmax b) eqn:E; [apply Qle_refl|].
  apply Qlt_le_weak, Qnot_le_lt. intros H. apply Qle_bool_iff in H. congruence.
Qed.

Lemma sleeps_app ev1 ev2 : sleeps (ev1 ++ ev2) = sleeps ev1 ++ sleeps ev2.
Proof. apply flat_map_app. Qed.

Lemma time_sleep_sleeps q r :
  time_sleep q = Ok r -> sleeps r = [q].
Proof. unfold time_sleep. destruct (Qle_bool 0 q); [|discriminate]. now intros [= <-]. Qed.

Lemma sleeps_restore flags : sleeps (restore_flags flags) = [].
Proof. destruct flags as [[|]|]; reflexivity. Qed.

(** One iteration keeps the backoff within bounds and sleeps within
    them. *)
Lemma read_backoff_within resp flags self :
  backoff_within self ->
  let '(r, self', ev) := read resp flags self in
  backoff_within self'
  /\ backoff_wait_max self' = backoff_wait_max self
  /\ forall q, In q (sleeps ev) ->
       (q <= backoff_wait_max self)%Q \/ q = 1 # 10.
Proof.
  intros Hw. unfold read.
  destruct resp as [g o data|e].
  - set (b := cap (backoff_wait_max self)
                (if plen data =? 0 then (2 * backoff_wait self)%Q else 1 # 10)).
    assert (Hb : (b <= backoff_wait_max self)%Q) by apply cap_le.
    destruct (time_sleep b) as [ev2|e2] eqn:Es.
    + apply time_sleep_sleeps in Es.
      assert (Hq : forall q, In q (sleeps
                 ((if match generation_prev self with
                      | Some g0 => negb (g0 =? g) | None => false end
                   then [EvWarning "console was restarted"] else [])
                  ++ (if 0 <? plen data then [EvOutput data] else [])) ++ sleeps ev2) ->
               (q <= backoff_wait_max self)%Q \/ q = 1 # 10).
      { intros q Hin. apply in_app_or in Hin as [Hin|Hin].
        - destruct (match generation_prev self with
                    | Some g0 => negb (g0 =? g) | None => false end),
            (0 <? plen data); cbn in Hin; contradiction.
        - rewrite Es in Hin. destruct Hin as [<-|[]]. now left. }
      destruct (0 <? server_connection_errors self); cbn;
        (split; [|split; [reflexivity|]]);
        try (intros q Hin; rewrite sleeps_app in Hin; now apply Hq).
      * now right.
      * now left.
    + cbn. split; [now left|]. split; [reflexivity|].
      intros q Hin.
      destruct (match generation_prev self with
                | Some g0 => negb (g0 =? g) | None => false end),
        (0 <? plen data); cbn in Hin; contradiction.
  - destruct e; try (cbn; split; [exact Hw|]; split; [reflexivity|];
                     intros q []).
    destruct (server_connection_errors_max self <=? server_connection_errors self + 1).
    + cbn. split; [exact Hw|]. split; [reflexivity|].
      intros q Hin. rewrite sleeps_restore in Hin. destruct Hin.
    + destruct (time_sleep (backoff_wait self)) as [ev2|e2] eqn:Es.
      * apply time_sleep_sleeps in Es. cbn.
        split; [left; apply cap_le|]. split; [reflexivity|].
        intros q Hin. change (In q (sleeps ev2)) in Hin. rewrite Es in Hin.
        destruct Hin as [<-|[]].
        destruct Hw as [Hw|Hw]; [now left | now right].
      * cbn. split; [exact Hw|]. split; [reflexivity|]. intros q [].
Qed.

(** *** The output to the file *)

(** Code on the file all of whose sleeps last half a second. *)
Lemma f_write_retry_eagain_sleeps text : forall fd q,
  In q (sleeps (snd (f_write_retry_eagain text fd))) -> q = 1 # 2.
Proof.
  induction fd as [|[|errno] fd IH]; intros q; cbn [f_write_retry_eagain].
  - intros [].
  - intros [].
  - destruct (errno =? EAGAIN)%nat; [|intros []].
    destruct (f_write_retry_eagain text fd) as [[r fd''] ev].
    cbn [snd] in *. intros [<-|Hin]; [reflexivity | now apply IH].
Qed.

Lemma io_bind_sleeps {A B} (m : io A) (k : A -> io B) (P : Q -> Prop) :
  (forall fd q, In q (sleeps (snd (m fd))) -> P q) ->
  (forall a fd q, In q (sleeps (snd (k a fd))) -> P q) ->
  forall fd q, In q (sleeps (snd (io_bind m k fd))) -> P q.
Proof.
  intros Hm Hk fd q. unfold io_bind. specialize (Hm fd).
  destruct (m fd) as [[[a|e] fd'] ev]; cbn [snd] in *.
  - specialize (Hk a fd').
    destruct (k a fd') as [[r fd''] ev']. cbn [snd] in *.
    rewrite sleeps_app. intros Hin.
    apply in_app_or in Hin as [Hin|Hin]; [now apply Hm | now apply Hk].
  - apply Hm.
Qed.

Lemma fd_write_sleeps text fd q : In q (sleeps (snd (fd_write text fd))) -> q = 1 # 2.
Proof. destruct fd as [|[|errno] fd]; intros []. Qed.

Lemma fd_flush_sleeps fd q : In q (sleeps (snd (fd_flush fd))) -> q = 1 # 2.
Proof. destruct fd as [|[|errno] fd]; intros []. Qed.

Lemma write_lines_sleeps stamp with_stamp : forall lines fd q,
  In q (sleeps (snd (write_lines stamp with_stamp lines fd))) -> q = 1 # 2.
Proof.
  induction lines as [|line lines IH]; [intros fd q []|].
  cbn [write_lines].
  apply io_bind_sleeps.
  { destruct with_stamp; [apply fd_write_sleeps | intros fd q []]. }
  intros _. apply io_bind_sleeps; [intros fd q []|].
  intros _. apply io_bind_sleeps; [apply f_write_retry_eagain_sleeps|].
  intros _. apply io_bind_sleeps; [|intros _; exact IH].
  destruct (existsb (N.eqb 10) line);
    [apply f_write_retry_eagain_sleeps | intros fd q []].
Qed.

Lemma write_data_sleeps stamp self data fd q :
  In q (sleeps (snd (write_data stamp self data fd))) -> q = 1 # 2.
Proof.
  unfold write_data. destruct data as [|c data]; [intros []|].
  revert fd q. apply io_bind_sleeps; [apply write_lines_sleeps|].
  intros _. apply io_bind_sleeps; [apply fd_flush_sleeps|].
  intros _ fd q [].
Qed.

Lemma write_data_len stamp self data fd n :
  fst (fst (write_data stamp self data fd)) = Ok n -> n = plen data.
Proof.
  unfold write_data. destruct data as [|c data]; [now intros [= <-]|].
  unfold io_bind, io_ret.
  destruct (write_lines stamp (timestamp self) (splitlines (c :: data)) fd)
    as [[[u|e] fd1] ev1]; [|discriminate].
  destruct (fd_flush fd1) as [[[u'|e'] fd2] ev2]; [|discriminate].
  now intros [= <-].
Qed.

(** When the output succeeds, an iteration returns what [read] returns
    and leaves the reader as [read] leaves it. *)
Lemma read_to_fd_agrees stamp resp flags self fd :
  (forall g o data e,
     resp = ReadText g o data ->
     fst (fst (write_data stamp self data fd)) <> Raise e) ->
  fst (fst (read_to_fd stamp resp flags self fd)) = fst (read resp flags self).
Proof.
  intros Hok. destruct resp as [g o data|e].
  - cbn [read_to_fd read]. specialize (Hok g o data).
    pose proof (write_data_len stamp self data fd) as Hlen.
    destruct (write_data stamp self data fd) as [[[n|e] fd'] ev1];
      cbn [fst] in *.
    + rewrite (Hlen n eq_refl).
      destruct (time_sleep _) as [ev2|e2]; [|reflexivity].
      now destruct (0 <? server_connection_errors self).
    + now destruct (Hok e eq_refl).
  - cbn [read_to_fd].
    now destruct (read (FailsText e) flags self) as [[r self'] ev].
Qed.

(** One iteration, with its output, keeps the backoff within bounds,
    and sleeps within them or for the half second of a retried
    write. *)
Lemma read_to_fd_backoff_within stamp resp flags self fd :
  backoff_within self ->
  let '(r, self', fd', ev) := read_to_fd stamp resp flags self fd in
  backoff_within self'
  /\ backoff_wait_max self' = backoff_wait_max self
  /\ forall q, In q (sleeps ev) ->
       (q <= backoff_wait_max self)%Q \/ q = 1 # 10 \/ q = 1 # 2.
Proof.
  intros Hw. destruct resp as [g o data|e].
  - cbn [read_to_fd].
    pose proof (write_data_sleeps stamp self data fd) as Hout.
    destruct (write_data stamp self data fd) as [[[n|e] fd'] ev1];
      cbn [snd] in Hout.
    + set (b := cap (backoff_wait_max self)
                  (if n =? 0 then (2 * backoff_wait self)%Q else 1 # 10)).
      assert (Hb : (b <= backoff_wait_max self)%Q) by apply cap_le.
      destruct (time_sleep b) as [ev2|e2] eqn:Es.
      * apply time_sleep_sleeps in Es.
        split; [|split].
        -- destruct (0 <? server_connection_errors self);
             [right; reflexivity | left; exact Hb].
        -- now destruct (0 <? server_connection_errors self).
        -- intros q Hin. rewrite !sleeps_app in Hin.
           apply in_app_or in Hin as [Hin|Hin].
           { destruct (match generation_prev self with
                       | Some g0 => negb (g0 =? g) | None => false end);
               destruct Hin. }
           apply in_app_or in Hin as [Hin|Hin]; [right; right; now apply Hout|].
           rewrite Es in Hin. destruct Hin as [<-|[]]. now left.
      * split; [left; exact Hb|]. split; [reflexivity|].
        intros q Hin. rewrite sleeps_app in Hin.
        apply in_app_or in Hin as [Hin|Hin]; [|right; right; now apply Hout].
        destruct (match generation_prev self with
                  | Some g0 => negb (g0 =? g) | None => false end);
          destruct Hin.
    + split; [exact Hw|]. split; [reflexivity|].
      intros q Hin. rewrite sleeps_app in Hin.
      apply in_app_or in Hin as [Hin|Hin]; [|right; right; now apply Hout].
      destruct (match generation_prev self with
                | Some g0 => negb (g0 =? g) | None => false end);
        destruct Hin.
  - cbn [read_to_fd].
    pose proof (read_backoff_within (FailsText e) flags self Hw) as R.
    destruct (read (FailsText e) flags self) as [[r self'] ev].
    destruct R as (R1 & R2 & R3). split; [exact R1|]. split; [exact R2|].
    intros q Hin. destruct (R3 q Hin) as [H|H]; [now left | right; now left].
Qed.

(** X11. The sleeps of the continuous reader are bounded: every
    [time.sleep] of the reading loop started by
    [_console_read_thread_fn], the waits of [f_write_retry_eagain]
    for a file that would block included, lasts at most the backoff
    ceiling, or exactly 0.1 s (the initial backoff, when the ceiling is
    below that), or exactly 0.5 s (a write made again after EAGAIN). *)
Theorem reader_sleeps_bounded stamp size console fd offset bmax flags ts script q :
  In q (sleeps (snd (_console_read_thread_fn_to_fd stamp size console fd offset
                       bmax flags ts script))) ->
  (q <= bmax)%Q \/ q = 1 # 10 \/ q = 1 # 2.
Proof.
  unfold _console_read_thread_fn_to_fd.
  set (reader := new_console_reader console (offset_calc size offset) bmax 10 ts).
  assert (Hw : backoff_within reader) by (right; reflexivity).
  change (q <= bmax)%Q with (q <= backoff_wait_max reader)%Q.
  clearbody reader. revert reader fd Hw.
  induction script as [|resp script IH]; intros reader fd Hw;
    cbn [read_loop_to_fd].
  - intros [].
  - pose proof (read_to_fd_backoff_within stamp resp flags reader fd Hw) as R.
    destruct (read_to_fd stamp resp flags reader fd) as [[[[n|e] reader'] fd'] ev].
    + destruct R as (Hw' & Hmax & Hq).
      specialize (IH reader' fd' Hw').
      destruct (read_loop_to_fd stamp script flags reader' fd')
        as [[out reader''] ev'].
      cbn [snd] in *. rewrite sleeps_app. intros Hin.
      apply in_app_or in Hin as [Hin|Hin]; [now apply Hq|].
      rewrite <- Hmax. now apply IH.
    + destruct R as (_ & _ & Hq). cbn [snd].
      rewrite !sleeps_app, sleeps_restore. cbn. rewrite app_nil_r. apply Hq.
Qed.

Lemma reader_sleeps_bounded_witness :
  ((1 # 2) <= 2 # 10)%Q \/ (1 # 2 : Q) = 1 # 10 \/ (1 # 2 : Q) = 1 # 2.
Proof.
  apply (reader_sleeps_bounded [] None None [FdIOError EAGAIN; FdOk] 0 (2 # 10) None false
           [ReadText 1 3 (pystr_of_string "ok")]).
  vm_compute. auto.
Defined.

(** ** More on the console interface *)

(** X13. Chunked writing sends nothing: whenever a chunk size applies,
    given in the call or set for the console, [write] raises before the
    first transport call, for [str] data too (the number of chunks is
    computed with a true division, and [range] refuses the float). *)
Theorem write_chunked_sends_nothing self data console chunk_size_arg iw c n :
  _console_get self console = Ok c ->
  match chunk_size_arg with
  | Some m => Some m
  | None => chunk_size self !! c
  end = Some n ->
  snd (write self data console chunk_size_arg iw) = []
  /\ exists e, fst (write self data console chunk_size_arg iw) = Raise e.
Proof.
  intros Hc Hn. unfold write.
  destruct data as [s|b|p|z|]; try (cbn; eauto; fail).
  rewrite Hc, Hn. destruct (n =? 0); cbn; eauto.
Qed.

Lemma write_chunked_sends_nothing_witness :
  snd (write a_console (PStr (pystr_of_string "ls -l")) None (Some 2) None) = []
  /\ exists e,
       fst (write a_console (PStr (pystr_of_string "ls -l")) None (Some 2) None)
       = Raise e.
Proof.
  apply (write_chunked_sends_nothing a_console (PStr (pystr_of_string "ls -l"))
           None (Some 2) None "serial0" 2); reflexivity.
Defined.

Lemma existsb_eqb_In (c : string) (l : list string) :
  existsb (String.eqb c) l = true <-> In c l.
Proof.
  rewrite existsb_exists. split.
  - intros (x & Hin & Heq). apply String.eqb_eq in Heq. now subst.
  - intros Hin. exists c. split; [exact Hin | apply String.eqb_refl].
Qed.

(** X14. A console asked for by name is translated through the
    aliases and must be one the target lists: [_console_get] returns
    that real name when it is on the console list and raises an
    assertion error when it is not; it never returns another console
    for a name. *)
Theorem console_get_named self name :
  let real := default name (aliases self !! name) in
  real <> "" ->
  (In real (console_list self) -> _console_get self (Some name) = Ok real)
  /\ (~ In real (console_list self) ->
      exists msg, _console_get self (Some name) = Raise (AssertionError msg))
  /\ (forall c, _console_get self (Some name) = Ok c ->
        c = real /\ In c (console_list self)).
Proof.
  intros real Hne. unfold _console_get. fold real.
  assert (Hnon : nonempty (Some real) = Some real).
  { unfold nonempty. destruct (String.eqb real "") eqn:E; [|reflexivity].
    apply String.eqb_eq in E. contradiction. }
  rewrite Hnon.
  destruct (existsb (String.eqb real) (console_list self)) eqn:E.
  - apply existsb_eqb_In in E. split; [reflexivity|]. split; [contradiction|].
    intros c [= <-]. auto.
  - assert (Hnot : ~ In real (console_list self)).
    { intros Hin. apply existsb_eqb_In in Hin. congruence. }
    split; [contradiction|]. split; [eauto | discriminate].
Qed.

Lemma console_get_named_witness :
  _console_get two_consoles (Some "preferred") = Ok "ssh0".
Proof.
  destruct (console_get_named two_consoles "preferred") as (H & _).
  - vm_compute. discriminate.
  - etransitivity; [apply H; vm_compute; auto | vm_compute; reflexivity].
Defined.

(** X15. With no console named, [_console_get] fails only when
    nothing is left to choose from: it raises [RuntimeError] exactly
    when no default is set on the client or on the target, no alias is
    called "default" and the target lists no console; when the target
    lists a console it always returns one, and the first one listed if
    no default of any kind is set. *)
Theorem console_get_default self :
  (_console_get self None = Raise (RuntimeError "target lists no consoles") <->
   nonempty (_default self) = None
   /\ nonempty (default_property self) = None
   /\ aliases self !! "default" = None
   /\ console_list self = [])
  /\ (forall e, _console_get self None = Raise e ->
        e = RuntimeError "target lists no consoles")
  /\ (forall c others, console_list self = c :: others ->
        exists d, _console_get self None = Ok d
                  /\ (nonempty (_default self) = None ->
                      nonempty (default_property self) = None ->
                      aliases self !! "default" = None -> d = c)).
Proof.
  unfold _console_get. cbn [nonempty].
  destruct (nonempty (_default self)) as [d1|];
    [repeat split; try discriminate; try (intros (? & _); discriminate);
     intros; eexists; split; [reflexivity | discriminate]|].
  destruct (nonempty (default_property self)) as [d2|];
    [repeat split; try discriminate; try (intros (_ & ? & _); discriminate);
     intros; eexists; split; [reflexivity | discriminate]|].
  destruct (aliases self !! "default") as [d3|];
    [repeat split; try discriminate; try (intros (_ & _ & ? & _); discriminate);
     intros; eexists; split; [reflexivity | discriminate]|].
  destruct (console_list self) as [|c l].
  - repeat split; auto; try discriminate. now intros e [= <-].
  - repeat split; try discriminate; try (intros (_ & _ & _ & ?); discriminate).
    intros c' others [= <- <-]. eexists. split; [reflexivity | auto].
Qed.

Lemma console_get_default_witness :
  exists d, _console_get a_console None = Ok d /\ d = "serial0".
Proof.
  destruct (console_get_default a_console) as (_ & _ & H).
  destruct (H "serial0" [] eq_refl) as (d & E & Hd).
  exists d. split; [exact E|]. apply Hd; reflexivity.
Defined.

(** X16. [offset_calc] never gives a negative offset: an offset that
    is not negative is kept; a negative one counts back from the
    current size, -1 being the size itself, and stops at 0; with the
    console disabled it gives 0. *)
Theorem offset_calc_range size offset :
  0 <= offset_calc size offset
  /\ (0 <= offset -> offset_calc size offset = offset)
  /\ (offset < 0 -> size = None -> offset_calc size offset = 0)
  /\ (forall n, offset < 0 -> size = Some n ->
        offset_calc size offset = Z.max 0 (n + offset + 1)
        /\ (0 <= n -> offset_calc size offset <= n)
        /\ (offset = -1 -> 0 <= n -> offset_calc size offset = n)).
Proof.
  unfold offset_calc. destruct (0 <=? offset) eqn:E.
  - apply Z.leb_le in E. split; [lia|]. split; [reflexivity|].
    split; [lia|]. intros n Hneg. lia.
  - apply Z.leb_gt in E. destruct size as [n|].
    + split; [lia|]. split; [lia|]. split; [discriminate|].
      intros m _ [= <-]. split; [reflexivity|]. split; lia.
    + split; [lia|]. split; [lia|]. split; [reflexivity|]. discriminate.
Qed.

Lemma offset_calc_range_witness :
  offset_calc (Some 100) (-1) = 100 /\ offset_calc (Some 100) (-500) = 0.
Proof.
  destruct (offset_calc_range (Some 100) (-1)) as (_ & _ & _ & H1).
  destruct (offset_calc_range (Some 100) (-500)) as (_ & _ & _ & H2).
  destruct (H1 100 ltac:(lia) eq_refl) as (_ & _ & Hend).
  destruct (H2 100 ltac:(lia) eq_refl) as (Hmax & _).
  split; [apply Hend; lia | exact Hmax].
Defined.

(** * End-of-line conversion *)

Lemma byte_eqb_sym (c d : byte) : Byte.eqb c d = Byte.eqb d c.
Proof.
  destruct (Byte.eqb c d) eqn:E, (Byte.eqb d c) eqn:E'; try reflexivity.
  - apply byte_eqb_eq in E. subst d. now rewrite byte_eqb_refl in E'.
  - apply byte_eqb_eq in E'. subst d. now rewrite byte_eqb_refl in E.
Qed.

Lemma span_cr_cons c s :
  Re.span (Re.CLit x0d) (c :: s)
  = if Byte.eqb c x0d then S (Re.span (Re.CLit x0d) s) else O.
Proof.
  cbn [Re.span Re.charset_mem]. now rewrite (byte_eqb_sym x0d c).
Qed.

Lemma crs_then_lf_span s :
  crs_then_lf s
  = match nth_error s (Re.span (Re.CLit x0d) s) with
    | Some c => Byte.eqb c x0a
    | None => false
    end.
Proof.
  induction s as [|c s IH]; [reflexivity|].
  rewrite span_cr_cons. cbn [crs_then_lf].
  destruct (Byte.eqb c x0d) eqn:E.
  - apply byte_eqb_eq in E. subst c. cbn [nth_error]. rewrite <- IH. reflexivity.
  - cbn [nth_error]. now rewrite orb_false_r.
Qed.

Lemma skipn_head_nth (s : bytes) : forall n,
  match skipn n s with c :: _ => Some c | [] => None end = nth_error s n.
Proof.
  induction s as [|c s IH]; intros [|n]; cbn; auto.
Qed.

Lemma skipn_below_span s : forall j,
  (j < Re.span (Re.CLit x0d) s)%nat -> exists t, skipn j s = x0d :: t.
Proof.
  induction s as [|c s IH]; intros j Hj.
  - cbn in Hj. lia.
  - rewrite span_cr_cons in Hj. destruct (Byte.eqb c x0d) eqn:E; [|lia].
    apply byte_eqb_eq in E. subst c. destruct j as [|j].
    + exists s. reflexivity.
    + cbn [skipn]. apply IH. lia.
Qed.

Lemma lf_here prev t :
  Re.match_here [Re.NChar (Re.CLit x0a) Re.One] prev t
  = match t with
    | c :: _ => if Byte.eqb c x0a then Some 1%nat else None
    | [] => None
    end.
Proof.
  destruct t as [|c t]; [reflexivity|].
  cbn [Re.match_here Re.charset_mem option_map].
  rewrite (byte_eqb_sym x0a c). now destruct (Byte.eqb c x0a).
Qed.

Lemma backtrack_below_span prev s : forall j,
  (j < Re.span (Re.CLit x0d) s)%nat ->
  Re.backtrack (Re.match_here [Re.NChar (Re.CLit x0a) Re.One]) 1 prev s j = None.
Proof.
  induction j as [|j IH]; intros Hj.
  - reflexivity.
  - cbn [Re.backtrack].
    destruct (skipn_below_span s (S j) Hj) as [t Ht].
    rewrite lf_here, Ht. cbn [Byte.eqb].
    replace (Byte.eqb x0d x0a) with false by reflexivity.
    destruct (1 <=? S j)%nat; apply IH; lia.
Qed.

Lemma backtrack_at_span prev s :
  Re.backtrack (Re.match_here [Re.NChar (Re.CLit x0a) Re.One]) 1 prev s
    (Re.span (Re.CLit x0d) s)
  = match Re.span (Re.CLit x0d) s with
    | O => None
    | S j => if crs_then_lf s then Some (S j + 1)%nat else None
    end.
Proof.
  rewrite crs_then_lf_span, <- skipn_head_nth.
  destruct (Re.span (Re.CLit x0d) s) as [|j] eqn:Hspan.
  - reflexivity.
  - cbn [Re.backtrack]. rewrite lf_here.
    replace (1 <=? S j)%nat with true by reflexivity.
    destruct (skipn (S j) s) as [|c t].
    + apply backtrack_below_span. lia.
    + destruct (Byte.eqb c x0a); [reflexivity|].
      apply backtrack_below_span. lia.
Qed.

(** What the universal pattern matches at the head of the data. *)
Lemma match_universal prev s :
  match_alternatives _crlf_regex_universal_b prev s
  = match s with
    | [] => None
    | c :: s' =>
        if Byte.eqb c x0d then
          if crs_then_lf s' then Some (S (Re.span (Re.CLit x0d) s' + 1))
          else Some 1%nat
        else if Byte.eqb c x0a then Some 1%nat else None
    end.
Proof.
  unfold _crlf_regex_universal_b. cbn [match_alternatives].
  change (Re.match_here [Re.NChar (Re.CLit x0d) Re.Plus; Re.NChar (Re.CLit x0a) Re.One] prev s)
    with (Re.backtrack (Re.match_here [Re.NChar (Re.CLit x0a) Re.One]) 1 prev s
            (Re.span (Re.CLit x0d) s)).
  rewrite backtrack_at_span, lf_here.
  destruct s as [|c s'].
  - reflexivity.
  - rewrite span_cr_cons.
    cbn [crs_then_lf Re.match_here Re.charset_mem option_map].
    rewrite (byte_eqb_sym x0d c).
    destruct (Byte.eqb c x0d) eqn:E.
    + apply byte_eqb_eq in E. subst c.
      replace (Byte.eqb x0d x0a) with false by reflexivity.
      cbn [orb andb]. destruct (crs_then_lf s'); [f_equal; lia|].
      reflexivity.
    + now destruct (Byte.eqb c x0a).
Qed.

Lemma sub_universal s :
  (forall prev,
     sub_from _crlf_regex_universal_b [x0a] 0 prev s = universal_newlines s)
  /\ (crs_then_lf s = true ->
      forall prev,
        x0a :: sub_from _crlf_regex_universal_b [x0a]
                 (Re.span (Re.CLit x0d) s + 1) prev s
        = universal_newlines s).
Proof.
  induction s as [|c s [IH1 IH2]].
  - split; [reflexivity | discriminate].
  - split.
    + intros prev. cbn [sub_from universal_newlines].
      rewrite match_universal.
      destruct (Byte.eqb c x0d) eqn:E.
      * destruct (crs_then_lf s) eqn:Hc.
        -- cbn [app]. now apply IH2.
        -- cbn [app]. now rewrite IH1.
      * destruct (Byte.eqb c x0a) eqn:E'.
        -- apply byte_eqb_eq in E'. subst c. cbn [app]. now rewrite IH1.
        -- now rewrite IH1.
    + intros Hc prev. rewrite span_cr_cons. cbn [crs_then_lf] in Hc.
      cbn [universal_newlines].
      destruct (Byte.eqb c x0d) eqn:E.
      * apply byte_eqb_eq in E. subst c.
        replace (Byte.eqb x0d x0a) with false in Hc by reflexivity.
        cbn [orb andb] in Hc. rewrite Hc.
        cbn [Nat.add sub_from]. now apply IH2.
      * cbn [andb] in Hc. rewrite orb_false_r in Hc.
        apply byte_eqb_eq in Hc. subst c.
        cbn [Nat.add sub_from]. now rewrite IH1.
Qed.

Lemma universal_no_cr s : ~ In x0d (universal_newlines s).
Proof.
  induction s as [|c s IH]; [intros []|].
  cbn [universal_newlines].
  destruct (Byte.eqb c x0d) eqn:E.
  - destruct (crs_then_lf s); [exact IH|].
    intros [H|H]; [discriminate H | now apply IH].
  - intros [H|H]; [|now apply IH]. subst c. discriminate E.
Qed.

Lemma universal_length s : (length (universal_newlines s) <= length s)%nat.
Proof.
  induction s as [|c s IH]; [reflexivity|].
  cbn [universal_newlines].
  destruct (Byte.eqb c x0d); [destruct (crs_then_lf s)|]; cbn [length]; lia.
Qed.

Lemma universal_id s : ~ In x0d s -> universal_newlines s = s.
Proof.
  induction s as [|c s IH]; intros H; [reflexivity|].
  cbn [universal_newlines].
  destruct (Byte.eqb c x0d) eqn:E.
  - apply byte_eqb_eq in E. subst c. exfalso. apply H. now left.
  - f_equal. apply IH. intros Hin. apply H. now right.
Qed.

Lemma crs_then_lf_app a b :
  crs_then_lf b = false ->
  crs_then_lf (a ++ b) = crs_then_lf a.
Proof.
  intros Hb. induction a as [|c a IH]; [exact Hb|].
  cbn [app crs_then_lf]. now rewrite IH.
Qed.

Lemma universal_app a b :
  crs_then_lf b = false ->
  universal_newlines (a ++ b) = universal_newlines a ++ universal_newlines b.
Proof.
  intros Hb. induction a as [|c a IH]; [reflexivity|].
  cbn [app universal_newlines]. rewrite crs_then_lf_app by exact Hb.
  destruct (Byte.eqb c x0d); [destruct (crs_then_lf a)|]; cbn [app];
    now rewrite IH.
Qed.

(** X17. Universal end-of-line conversion ([newline = None]) of
    [bytes]: the substitution of the pattern "(\r+\n|\r|\n)" drops each
    carriage return that only carriage returns separate from a line
    feed and turns any other one into a line feed; its result holds no
    carriage return, is no longer than the data, is left as it is by a
    second conversion, and data without carriage returns come out
    unchanged. *)
Theorem newline_convert_universal
    (re_sub : Pattern -> bytes -> bytes -> result bytes) (data : bytes) :
  exists out,
    _newline_convert re_sub data NlNone = Ok out
    /\ out = universal_newlines data
    /\ ~ In x0d out
    /\ (length out <= length data)%nat
    /\ _newline_convert re_sub out NlNone = Ok out
    /\ (~ In x0d data -> out = data).
Proof.
  exists (universal_newlines data).
  assert (E : forall d, _newline_convert re_sub d NlNone = Ok (universal_newlines d)).
  { intros d. cbn. unfold re_sub_alternatives. f_equal.
    apply (proj1 (sub_universal d)). }
  split; [apply E|]. split; [reflexivity|].
  split; [apply universal_no_cr|]. split; [apply universal_length|].
  split; [|apply universal_id].
  rewrite E. f_equal. apply universal_id, universal_no_cr.
Qed.

(** X18. Converting chunk by chunk: when the second of two chunks does
    not start with a line feed, nor with carriage returns followed by
    one, converting the chunks one after the other gives the
    conversion of the whole. *)
Theorem newline_convert_by_chunks
    (re_sub : Pattern -> bytes -> bytes -> result bytes) (a b : bytes) :
  crs_then_lf b = false ->
  exists out_a out_b,
    _newline_convert re_sub a NlNone = Ok out_a
    /\ _newline_convert re_sub b NlNone = Ok out_b
    /\ _newline_convert re_sub (a ++ b) NlNone = Ok (out_a ++ out_b).
Proof.
  intros Hb.
  assert (E : forall d, _newline_convert re_sub d NlNone = Ok (universal_newlines d)).
  { intros d. cbn. unfold re_sub_alternatives. f_equal.
    apply (proj1 (sub_universal d)). }
  exists (universal_newlines a), (universal_newlines b).
  rewrite !E. repeat split. f_equal. now apply universal_app.
Qed.

Lemma newline_convert_by_chunks_witness :
  exists out_a out_b,
    _newline_convert (fun _ _ d => Ok d) [x61; x0d; x0a; x0d] NlNone = Ok out_a
    /\ _newline_convert (fun _ _ d => Ok d) [x62; x0d; x0d; x0a] NlNone = Ok out_b
    /\ _newline_convert (fun _ _ d => Ok d)
         ([x61; x0d; x0a; x0d] ++ [x62; x0d; x0d; x0a]) NlNone
       = Ok (out_a ++ out_b).
Proof.
  apply (newline_convert_by_chunks (fun _ _ d => Ok d)
           [x61; x0d; x0a; x0d] [x62; x0d; x0d; x0a]).
  reflexivity.
Defined.

(** * Reading over HTTP into the capture file *)

Lemma blen_app (a b : bytes) : blen (a ++ b) = blen a + blen b.
Proof. unfold blen. rewrite length_app. lia. Qed.

Lemma blen_nonneg (a : bytes) : 0 <= blen a.
Proof. unfold blen. lia. Qed.

Lemma newline_convert_raw re_sub chunk :
  _newline_convert re_sub chunk (NlStr []) = Ok chunk.
Proof. reflexivity. Qed.

Lemma write_chunks_raw re_sub max_size : forall chunks total,
  exists k,
    (k <= length chunks)%nat
    /\ write_chunks re_sub (NlStr []) max_size total chunks
       = (Ok (total + blen (concat (firstn k chunks))), concat (firstn k chunks))
    /\ (max_size <= 0 -> k = length chunks)
    /\ ((k < length chunks)%nat ->
        max_size <= total + blen (concat (firstn k chunks)))
    /\ (0 < max_size -> total < max_size ->
        total + blen (concat (firstn (k - 1) chunks)) < max_size).
Proof.
  induction chunks as [|chunk rest IH]; intros total.
  - exists 0%nat. cbn. rewrite Z.add_0_r. repeat split; auto; lia.
  - cbn [write_chunks]. rewrite newline_convert_raw.
    destruct ((0 <? max_size) && (max_size <=? total + blen chunk)) eqn:Stop.
    + apply andb_true_iff in Stop. destruct Stop as [S1 S2].
      apply Z.ltb_lt in S1. apply Z.leb_le in S2.
      exists 1%nat. cbn [firstn concat length Nat.sub]. rewrite app_nil_r.
      split; [lia|]. split; [reflexivity|]. split; [lia|].
      split; [intros _; lia|]. intros _ H. change (blen []) with 0. lia.
    + destruct (IH (total + blen chunk)) as (k & Hk & E & Hall & Hstop & Hmin).
      exists (S k). cbn [firstn concat length]. rewrite E, blen_app.
      split; [lia|]. split; [f_equal; f_equal; lia|].
      split; [intros H; f_equal; now apply Hall|].
      split; [intros H; rewrite Z.add_assoc; apply Hstop; lia|].
      intros Hpos Hlt.
      assert (Hnext : total + blen chunk < max_size).
      { apply andb_false_iff in Stop. destruct Stop as [S1|S2].
        - apply Z.ltb_ge in S1. lia.
        - apply Z.leb_gt in S2. exact S2. }
      specialize (Hmin Hpos Hnext).
      destruct k as [|k]; cbn [Nat.sub firstn concat].
      * change (blen []) with 0. lia.
      * replace (S k - 0)%nat with (S k) by lia. cbn [firstn concat].
        rewrite blen_app. cbn [Nat.sub] in Hmin.
        replace (k - 0)%nat with k in Hmin by lia. lia.
Qed.

(** X19. A read into the capture file without end-of-line conversion,
    as the poller makes it: the bytes appended are the first chunks of
    the body, all of them when no maximum is given, else up to and
    including the first chunk with which the count reaches the maximum;
    the count returned is their length, while the offset to read next
    is taken from the headers of the answer, whatever part of the body
    was written. *)
Theorem read_to_file_raw re_sub self http console c offset max_size filename st r :
  0 <= offset -> 0 <= max_size ->
  _console_get self console = Ok c ->
  http (length (requests st)) c offset = Responds r ->
  exists k,
    let written := concat (firstn k (body_chunks r)) in
    let res := _read_to_file re_sub self http console offset max_size
                 filename (NlStr []) st in
    fst res = Ok (x_generation r, x_offset r + content_length r, blen written)
    /\ file_contents (snd res) filename = file_contents st filename ++ written
    /\ (forall other, other <> filename ->
          files (snd res) !! other = files st !! other)
    /\ buffers_poll (snd res) = buffers_poll st
    /\ requests (snd res) = requests st ++ [(c, offset, max_size)]
    /\ (max_size = 0 -> written = concat (body_chunks r))
    /\ ((k < length (body_chunks r))%nat -> max_size <= blen written)
    /\ (0 < max_size ->
        blen (concat (firstn (k - 1) (body_chunks r))) < max_size).
Proof.
  intros Hoff Hmax Hc Hr.
  destruct (write_chunks_raw re_sub max_size (body_chunks r) 0)
    as (k & Hk & E & Hall & Hstop & Hmin).
  exists k. cbv zeta. unfold _read_to_file.
  replace (offset <? 0) with false by (symmetry; apply Z.ltb_ge; lia).
  replace (max_size <? 0) with false by (symmetry; apply Z.ltb_ge; lia).
  rewrite Hc, Hr, E. cbn [fst snd files buffers_poll requests].
  rewrite Z.add_0_l.
  split; [reflexivity|].
  split; [unfold file_contents at 1; cbn [files]; now rewrite lookup_insert_eq|].
  split; [intros other Ho; now rewrite lookup_insert_ne by congruence|].
  split; [reflexivity|]. split; [reflexivity|].
  split.
  { intros ->. rewrite Hall by lia. now rewrite firstn_all. }
  split; [intros H; specialize (Hstop H); lia|].
  intros H. specialize (Hmin H H). lia.
Qed.

Lemma read_to_file_raw_witness :
  exists k,
    fst (_read_to_file (fun _ _ d => Ok d) a_console chunked_server None 0 6
           "capture.txt" (NlStr []) empty_state)
    = Ok (1, 12,
          blen (concat (firstn k [bytes_of_string "boot";
                                  bytes_of_string " log";
                                  bytes_of_string "in: "]))).
Proof.
  destruct (read_to_file_raw (fun _ _ d => Ok d) a_console chunked_server None
              "serial0" 0 6 "capture.txt" empty_state
              {| x_generation := 1;
                 x_offset := 0;
                 content_length := 12;
                 body_chunks := [bytes_of_string "boot";
                                 bytes_of_string " log";
                                 bytes_of_string "in: "] |})
    as (k & H & _).
  - lia.
  - lia.
  - vm_compute. reflexivity.
  - reflexivity.
  - exists k. exact H.
Defined.

(** * The keyboard of the interactive console *)

Lemma double_escape_cons x l :
  double_escape (x :: l)
  <-> (x = 27%N /\ exists l', l = 27%N :: l') \/ double_escape l.
Proof.
  split.
  - intros ([|y pre] & post & H).
    + injection H as -> ->. left. split; [reflexivity | now exists post].
    + injection H as -> ->. right. now exists pre, post.
  - intros [[-> [l' ->]] | (pre & post & ->)].
    + now exists [], l'.
    + now exists (x :: pre), post.
Qed.

Lemma double_escape_nil : ~ double_escape [].
Proof. intros ([|y pre] & post & H); discriminate H. Qed.

Lemma double_escape_other esc c l :
  c <> 27%N ->
  double_escape (after_escape esc (c :: l)) <-> double_escape l.
Proof.
  intros Hc. unfold after_escape. destruct esc.
  - rewrite !double_escape_cons. split.
    + intros [[_ [l' H]] | [[H _] | H]]; [injection H as H _| |]; congruence || exact H.
    + intros H. right. now right.
  - rewrite double_escape_cons. split.
    + intros [[H _] | H]; congruence || exact H.
    + intros H. now right.
Qed.

Lemma double_escape_pending esc : ~ double_escape (after_escape esc []).
Proof.
  destruct esc; cbn; [|apply double_escape_nil].
  rewrite double_escape_cons. intros [[_ [l' H]] | H]; [discriminate H|].
  now apply double_escape_nil in H.
Qed.

Lemma keys_sent_nil crlf nl : keys_sent crlf nl [] = [].
Proof. now destruct crlf. Qed.

Lemma keys_sent_app crlf nl a b :
  keys_sent crlf nl (a ++ b) = keys_sent crlf nl a ++ keys_sent crlf nl b.
Proof.
  destruct crlf; [reflexivity|]. unfold keys_sent. apply flat_map_app.
Qed.

Lemma translate_keys_spec crlf nl : forall chars acc esc,
  match translate_keys crlf nl chars acc esc with
  | None => forall rest, double_escape (after_escape esc (chars ++ rest))
  | Some (out, esc') =>
      out = acc ++ keys_sent crlf nl chars
      /\ forall rest, double_escape (after_escape esc (chars ++ rest))
                      <-> double_escape (after_escape esc' rest)
  end.
Proof.
  induction chars as [|c chars IH]; intros acc esc.
  - cbn [translate_keys]. rewrite keys_sent_nil, app_nil_r.
    split; [reflexivity|]. intros rest. reflexivity.
  - cbn [translate_keys].
    set (acc' := match crlf with
                 | [] => acc ++ [c]
                 | _ :: _ => if (c =? nl)%N then acc ++ crlf else acc ++ [c]
                 end).
    assert (Hacc : forall l, acc' ++ keys_sent crlf nl l
                             = acc ++ keys_sent crlf nl (c :: l)).
    { intros l. subst acc'. destruct crlf as [|d crlf]; cbn [keys_sent].
      - now rewrite <- app_assoc.
      - cbn [flat_map]. destruct (c =? nl)%N; now rewrite <- app_assoc. }
    destruct (c =? 27)%N eqn:E.
    + apply N.eqb_eq in E. subst c. destruct esc.
      * intros rest. now exists [], (chars ++ rest).
      * specialize (IH acc' true).
        destruct (translate_keys crlf nl chars acc' true) as [[out esc']|].
        -- destruct IH as [-> IH]. split; [apply Hacc | exact IH].
        -- exact IH.
    + apply N.eqb_neq in E. specialize (IH acc' false).
      destruct (translate_keys crlf nl chars acc' false) as [[out esc']|].
      * destruct IH as [-> IH]. split; [apply Hacc|].
        intros rest. cbn [app]. rewrite double_escape_other by exact E.
        apply (IH rest).
      * intros rest. cbn [app]. rewrite double_escape_other by exact E.
        apply (IH rest).
Qed.

Lemma interactive_writes_all crlf nl : forall reads esc,
  ~ double_escape (after_escape esc (concat reads)) ->
  concat (interactive_writes crlf nl reads esc)
  = keys_sent crlf nl (concat reads).
Proof.
  induction reads as [|chars reads IH]; intros esc H.
  - cbn. now rewrite keys_sent_nil.
  - cbn [concat] in *. cbn [interactive_writes].
    pose proof (translate_keys_spec crlf nl chars [] esc) as T.
    destruct chars as [|c chars]; [now apply IH|].
    destruct (translate_keys crlf nl (c :: chars) [] esc) as [[out esc']|].
    + destruct T as [-> T]. cbn [concat]. rewrite app_nil_l.
      rewrite keys_sent_app, IH; [reflexivity|].
      intros D. apply H. now apply T.
    + exfalso. apply H, T.
Qed.

Lemma interactive_writes_cut crlf nl : forall reads esc,
  double_escape (after_escape esc (concat reads)) ->
  exists k,
    (k < length reads)%nat
    /\ concat (interactive_writes crlf nl reads esc)
       = keys_sent crlf nl (concat (firstn k reads))
    /\ ~ double_escape (after_escape esc (concat (firstn k reads)))
    /\ double_escape (after_escape esc (concat (firstn (S k) reads))).
Proof.
  induction reads as [|chars reads IH]; intros esc H.
  - now apply double_escape_pending in H.
  - cbn [concat] in H. cbn [interactive_writes].
    pose proof (translate_keys_spec crlf nl chars [] esc) as T.
    destruct chars as [|c chars].
    { destruct (IH esc H) as (k & Hk & E & N & D).
      exists (S k). cbn [length firstn concat app]. split; [lia|]. auto. }
    destruct (translate_keys crlf nl (c :: chars) [] esc) as [[out esc']|].
    + destruct T as [-> T].
      destruct (IH esc' (proj1 (T _) H)) as (k & Hk & E & N & D).
      exists (S k). cbn [length]. split; [lia|].
      change (firstn (S k) ((c :: chars) :: reads))
        with ((c :: chars) :: firstn k reads).
      change (firstn (S (S k)) ((c :: chars) :: reads))
        with ((c :: chars) :: firstn (S k) reads).
      cbn [concat]. split.
      { rewrite app_nil_l. now rewrite keys_sent_app, E. }
      split.
      * intros D'. apply N. now apply T.
      * now apply T.
    + exists 0%nat. cbn [length]. split; [lia|].
      change (firstn 1 ((c :: chars) :: reads)) with [c :: chars].
      cbn [firstn concat]. rewrite keys_sent_nil. split; [reflexivity|].
      split; [apply double_escape_pending|]. apply T.
Qed.

(** X20. What the interactive console sends does not depend on how the
    keyboard input is cut into reads: without two escapes in a row, the
    texts written are, put together, all the keys typed, with the
    terminal's end of line replaced by [crlf]; with them, the loop ends
    in the read where the second escape arrives, having written the
    reads before that one and nothing of it. *)
Theorem interactive_keys_sent crlf nl reads :
  (~ double_escape (concat reads) ->
   concat (interactive_writes crlf nl reads false)
   = keys_sent crlf nl (concat reads))
  /\ (double_escape (concat reads) ->
      exists k,
        (k < length reads)%nat
        /\ concat (interactive_writes crlf nl reads false)
           = keys_sent crlf nl (concat (firstn k reads))
        /\ ~ double_escape (concat (firstn k reads))
        /\ double_escape (concat (firstn (S k) reads))).
Proof.
  split.
  - apply (interactive_writes_all crlf nl reads false).
  - apply (interactive_writes_cut crlf nl reads false).
Qed.

(** * Reading the capture back *)

Lemma ends_with_lf_snoc l c : ends_with_lf (l ++ [c]) = Byte.eqb c x0a.
Proof.
  unfold ends_with_lf. rewrite map_app. cbn [map]. now rewrite last_last.
Qed.

Lemma ends_with_lf_true l :
  ends_with_lf l = true -> exists pre, l = pre ++ [x0a].
Proof.
  induction l as [|c l _] using rev_ind; [discriminate|].
  rewrite ends_with_lf_snoc. intros H. apply byte_eqb_eq in H. subst c.
  now exists l.
Qed.

Lemma lines_acc_concat : forall data cur,
  concat (lines_acc cur data) = rev cur ++ data.
Proof.
  induction data as [|c data IH]; intros cur.
  - cbn [lines_acc]. destruct cur; [reflexivity|].
    cbn [concat]. reflexivity.
  - cbn [lines_acc]. destruct (Byte.eqb c x0a).
    + cbn [concat]. rewrite IH. cbn [rev]. now rewrite <- !app_assoc.
    + rewrite IH. cbn [rev]. now rewrite <- app_assoc.
Qed.

Lemma rev_cons_not_nil {A} (c : A) (cur : list A) : rev (c :: cur) <> [].
Proof. cbn [rev]. intros H. now apply app_eq_nil in H as [_ H]. Qed.

Lemma lines_acc_whole : forall data cur, whole_lines (lines_acc cur data).
Proof.
  induction data as [|c data IH]; intros cur.
  - cbn [lines_acc]. destruct cur as [|d cur]; [exact I|].
    cbn [whole_lines]. split; [apply rev_cons_not_nil|]. split; [intros H; now destruct H | exact I].
  - cbn [lines_acc]. destruct (Byte.eqb c x0a) eqn:E.
    + cbn [whole_lines]. split; [apply rev_cons_not_nil|]. split; [|apply IH].
      intros _. cbn [rev]. now rewrite ends_with_lf_snoc.
    + apply IH.
Qed.

Lemma lines_acc_one_line : forall data cur,
  ~ In x0a cur -> Forall one_line (lines_acc cur data).
Proof.
  induction data as [|c data IH]; intros cur Hcur.
  - cbn [lines_acc]. destruct cur as [|d cur]; [constructor|].
    constructor; [|constructor]. exists (rev (d :: cur)). split.
    + right. split; [reflexivity | apply rev_cons_not_nil].
    + now rewrite <- in_rev.
  - cbn [lines_acc]. destruct (Byte.eqb c x0a) eqn:E.
    + apply byte_eqb_eq in E. subst c. constructor.
      * exists (rev cur). split; [now left | now rewrite <- in_rev].
      * apply IH. intros [].
    + apply IH. intros [H|H]; [|now apply Hcur].
      subst c. discriminate E.
Qed.

Lemma iterate_lines_spec to : forall lines off,
  whole_lines lines ->
  exists rest,
    lines = fst (iterate_lines lines off to) ++ rest
    /\ (rest <> [] ->
        0 < to <= off + blen (concat (fst (iterate_lines lines off to)))
        /\ exists pre, concat (fst (iterate_lines lines off to)) = pre ++ [x0a])
    /\ (0 < to -> off < to ->
        off + blen (concat (removelast (fst (iterate_lines lines off to)))) < to)
    /\ (snd (iterate_lines lines off to) = true ->
        rest = []
        /\ 0 < to <= off + blen (concat (fst (iterate_lines lines off to)))).
Proof.
  induction lines as [|line ls IH]; intros off Hw.
  - exists []. cbn. split; [reflexivity|]. split; [congruence|].
    split; [intros; change (blen []) with 0; lia | discriminate].
  - destruct Hw as (Hne & Hlf & Hw). cbn [iterate_lines].
    destruct ((0 <? to) && (to <=? off + blen line)) eqn:Stop.
    + apply andb_true_iff in Stop. destruct Stop as [S1 S2].
      apply Z.ltb_lt in S1. apply Z.leb_le in S2.
      exists ls. cbn [fst snd concat removelast]. rewrite app_nil_r.
      split; [reflexivity|]. split.
      { intros Hls. split; [lia|]. apply ends_with_lf_true. now apply Hlf. }
      split; [intros; change (blen []) with 0; lia|].
      intros Hx. apply negb_true_iff in Hx. split; [|lia].
      destruct ls; [reflexivity|]. rewrite Hlf in Hx by discriminate. discriminate Hx.
    + assert (Hnext : 0 < to -> off + blen line < to).
      { intros Hpos. apply andb_false_iff in Stop. destruct Stop as [S1|S2].
        - apply Z.ltb_ge in S1. lia.
        - apply Z.leb_gt in S2. exact S2. }
      destruct (IH (off + blen line) Hw) as (rest & E & Hrest & Hmin & Hextra).
      destruct (iterate_lines ls (off + blen line) to) as [more extra].
      cbn [fst snd] in *. exists rest. cbn [concat]. rewrite blen_app.
      split; [cbn [app]; now f_equal|]. split.
      { intros Hr. destruct (Hrest Hr) as (Hb & pre & Hp). split; [lia|].
        exists (line ++ pre). now rewrite Hp, app_assoc. }
      split.
      { intros Hpos Hlt. specialize (Hmin Hpos (Hnext Hpos)).
        destruct more as [|m more]; [change (blen (concat (removelast [line]))) with 0; lia|].
        change (removelast (line :: m :: more)) with (line :: removelast (m :: more)).
        cbn [concat]. rewrite blen_app. lia. }
      intros Hx. destruct (Hextra Hx) as [-> Hb]. split; [reflexivity | lia].
Qed.

(** The lines [capture_iterator] yields, and where they stop. *)
Lemma capture_iterator_lines (decode : bytes -> pystr) fs filename data
    offset_from offset_to :
  fs !! filename = Some data ->
  0 <= offset_from ->
  exists lines rest extra,
    capture_iterator decode fs filename offset_from offset_to
    = Ok (map decode lines ++ extra)
    /\ skipn (Z.to_nat offset_from) data = concat lines ++ rest
    /\ Forall one_line lines
    /\ (rest <> [] ->
        0 < offset_to <= offset_from + blen (concat lines)
        /\ exists pre, concat lines = pre ++ [x0a])
    /\ (0 < offset_to -> offset_from < offset_to ->
        offset_from + blen (concat (removelast lines)) < offset_to)
    /\ (extra = []
        \/ (extra = [[10%N]] /\ rest = []
            /\ 0 < offset_to <= offset_from + blen (concat lines))).
Proof.
  intros Hfile Hfrom. unfold capture_iterator. rewrite Hfile.
  replace (offset_from <? 0) with false by (symmetry; apply Z.ltb_ge; lia).
  set (tail := skipn (Z.to_nat offset_from) data).
  destruct (iterate_lines_spec offset_to (file_lines tail) offset_from
              (lines_acc_whole tail []))
    as (rest & E & Hrest & Hmin & Hextra).
  pose proof (lines_acc_one_line tail [] (fun H => H)) as Hone.
  fold (file_lines tail) in Hone.
  destruct (iterate_lines (file_lines tail) offset_from offset_to)
    as [lines extra].
  cbn [fst snd] in *.
  exists lines, (concat rest), (if extra then [[10%N]] else []).
  split; [reflexivity|]. split.
  { rewrite <- concat_app.
    transitivity (concat (file_lines tail)); [|f_equal; exact E].
    unfold file_lines. now rewrite lines_acc_concat. }
  split.
  { rewrite E in Hone. now apply Forall_app in Hone as [Hone _]. }
  split.
  { intros Hr. apply Hrest. intros ->. now apply Hr. }
  split; [exact Hmin|].
  destruct extra; [right | now left].
  destruct (Hextra eq_refl) as [-> Hb]. auto.
Qed.

(** X21. Iterating over the capture of a console from an offset: the
    texts yielded are the decoded lines of the file from that offset
    on, each one line, in order and without a gap; the iteration goes
    on to the end of the file, or, when an end offset is given, stops
    after the first line with which that offset is reached, so that the
    lines before the last one yielded end before it; a line feed is
    added only when the iteration stops that way on a last line of the
    file that has none. *)
Theorem capture_iterator_window (decode : bytes -> pystr) fs filename data
    offset_from offset_to :
  fs !! filename = Some data ->
  0 <= offset_from ->
  exists lines rest extra,
    capture_iterator decode fs filename offset_from offset_to
    = Ok (map decode lines ++ extra)
    /\ skipn (Z.to_nat offset_from) data = concat lines ++ rest
    /\ Forall one_line lines
    /\ (rest <> [] ->
        0 < offset_to <= offset_from + blen (concat lines)
        /\ exists pre, concat lines = pre ++ [x0a])
    /\ (0 < offset_to -> offset_from < offset_to ->
        offset_from + blen (concat (removelast lines)) < offset_to)
    /\ (extra = []
        \/ (extra = [[10%N]] /\ rest = []
            /\ 0 < offset_to <= offset_from + blen (concat lines))).
Proof. apply capture_iterator_lines. Qed.

Lemma capture_iterator_window_witness :
  exists lines rest extra,
    capture_iterator (map Byte.to_N) {[ "capture.txt" := body_A_lf ]}
      "capture.txt" 0 3
    = Ok (map (map Byte.to_N) lines ++ extra)
    /\ skipn 0 body_A_lf = concat lines ++ rest.
Proof.
  destruct (capture_iterator_window (map Byte.to_N)
              {[ "capture.txt" := body_A_lf ]} "capture.txt" body_A_lf 0 3)
    as (lines & rest & extra & H1 & H2 & _).
  - vm_compute. reflexivity.
  - lia.
  - exists lines, rest, extra. split; [exact H1 | exact H2].
Defined.

(** X22. The console output attached to a match reported in full: the
    generator [detect] attaches, run on the capture file, yields the
    capture from the offset the search started at, without a gap, up to
    at least the end of the match, which lies in the last line
    yielded. *)
Theorem match_output_covers_match (decode : bytes -> pystr) self st filename s md :
  buffers_poll st !! "of" = Some (VFile filename) ->
  filename = capture_filename (target self) (Some (console self)) ->
  get_int (buffers_poll st) (detect_context_of self +:+ "search_offset") 0 = Ok s ->
  0 <= s ->
  bounded_pattern (regex self) ->
  report self = ReportNone ->
  fst (detect self st) = Ok (Some md) ->
  exists gf lines rest extra,
    console_output md = Some ("console output", gf)
    /\ capture_iterator decode (files (snd (detect self st)))
         (capture_filename (target self) (Some (gf_console gf)))
         (offset_from gf) (offset_to gf)
       = Ok (map decode lines ++ extra)
    /\ skipn (Z.to_nat s) (file_contents st filename) = concat lines ++ rest
    /\ offset_match_end md <= s + blen (concat lines)
    /\ (s < offset_match_end md ->
        s + blen (concat (removelast lines)) < offset_match_end md).
Proof.
  intros Hof Hname Hs Hpos Hbound Hreport Hmd.
  destruct (file_contents st filename) as [|c data'] eqn:Hdata.
  { unfold detect in Hmd. rewrite Hof, Hdata in Hmd. discriminate Hmd. }
  assert (Hfile : files st !! filename = Some (c :: data')).
  { unfold file_contents in Hdata.
    destruct (files st !! filename); cbn in Hdata; [now subst | discriminate]. }
  assert (Hne : file_contents st filename <> []) by (rewrite Hdata; discriminate).
  pose proof (detect_unfold self st filename s Hof Hne Hs) as Hd.
  cbv zeta in Hd. rewrite Hd in Hmd |- *. clear Hd.
  rewrite Hdata in *.
  unfold Pattern_search in *.
  destruct (pattern (regex self)) eqn:Hpat; [discriminate Hmd|].
  destruct (run (regex self) (slice_from (c :: data') s)) as [m|] eqn:Hrun;
    [|discriminate Hmd].
  destruct (Hbound _ _ Hrun) as [_ Hend].
  unfold slice_from in Hend.
  replace (s <? 0) with false in Hend by (symmetry; apply Z.ltb_ge; lia).
  pose proof (found_result self (detect_context_of self) s m
                (init_cursor (detect_context_of self +:+ "search_offset") s st))
    as Hfound.
  cbv zeta in Hfound. rewrite Hreport in Hfound. rewrite Hfound in Hmd.
  injection Hmd as <-. cbn [console_output offset_match_end].
  rewrite found_files.
  change (files (init_cursor (detect_context_of self +:+ "search_offset") s st))
    with (files st).
  destruct (capture_iterator_lines decode (files st) filename (c :: data')
              s (s + Z.of_nat (Re.m_end m)) Hfile Hpos)
    as (lines & rest & extra & E & Hcat & _ & Hrest & Hmin & _).
  exists (generator_factory (console self) s (s + Z.of_nat (Re.m_end m))),
    lines, rest, extra.
  cbn [generator_factory gf_console offset_from offset_to].
  rewrite <- Hname.
  split; [reflexivity|]. split; [exact E|]. split; [exact Hcat|]. split.
  - destruct rest as [|r rest].
    + rewrite app_nil_r in Hcat. rewrite <- Hcat. unfold blen. lia.
    + destruct (Hrest ltac:(discriminate)) as [Hb _]. lia.
  - intros Hlt. apply Hmin; lia.
Qed.

Lemma match_output_covers_match_witness :
  exists gf lines rest extra,
    console_output
      {| console_output :=
           Some ("console output", generator_factory "serial0" 0 12);
         md_target := a_target;
         md_console := "serial0";
         md_pattern := SrcBytes (bytes_of_string "login:");
         offset := 0;
         offset_match_start := 6;
         offset_match_end := 12 |}
    = Some ("console output", gf)
    /\ capture_iterator (map Byte.to_N)
         (files (snd (detect (expect_login "" ReportNone) state_A)))
         (capture_filename a_target (Some (gf_console gf)))
         (offset_from gf) (offset_to gf)
       = Ok (map (map Byte.to_N) lines ++ extra)
    /\ skipn (Z.to_nat 0) (file_contents state_A "report-console-target.t0.serial0.txt")
       = concat lines ++ rest.
Proof.
  destruct (match_output_covers_match (map Byte.to_N)
              (expect_login "" ReportNone) state_A
              "report-console-target.t0.serial0.txt" 0
              {| console_output :=
                   Some ("console output", generator_factory "serial0" 0 12);
                 md_target := a_target;
                 md_console := "serial0";
                 md_pattern := SrcBytes (bytes_of_string "login:");
                 offset := 0;
                 offset_match_start := 6;
                 offset_match_end := 12 |})
    as (gf & lines & rest & extra & H1 & H2 & H3 & _).
  - vm_compute. reflexivity.
  - vm_compute. reflexivity.
  - vm_compute. reflexivity.
  - lia.
  - intros data m H. cbn in H. now apply search_nodes_bound in H.
  - reflexivity.
  - vm_compute. reflexivity.
  - exists gf, lines, rest, extra. auto.
Defined.

(** X23. Iterating to the end and reading in one go agree: with no end
    offset, the lines [capture_iterator] yields are, put together and
    before decoding, the bytes [captured_chunk] returns for the same
    offset, cut after each line feed. *)
Theorem capture_iterator_whole (decode : bytes -> pystr) fs filename
    offset_from chunk :
  captured_chunk fs filename offset_from = Ok chunk ->
  exists lines,
    capture_iterator decode fs filename offset_from 0 = Ok (map decode lines)
    /\ concat lines = chunk
    /\ Forall one_line lines.
Proof.
  unfold captured_chunk. intros H.
  destruct (fs !! filename) as [data|] eqn:Hfile; [|discriminate H].
  destruct (offset_from <? 0) eqn:Hneg; [discriminate H|].
  apply Z.ltb_ge in Hneg. injection H as <-.
  destruct (capture_iterator_lines decode fs filename data offset_from 0
              Hfile Hneg)
    as (lines & rest & extra & E & Hcat & Hone & Hrest & _ & Hextra).
  assert (rest = []) as ->.
  { destruct rest; [reflexivity|]. destruct (Hrest ltac:(discriminate)). lia. }
  assert (extra = []) as ->.
  { destruct Hextra as [-> | (_ & _ & Hb)]; [reflexivity | lia]. }
  exists lines. rewrite !app_nil_r in *. auto.
Qed.

Lemma capture_iterator_whole_witness :
  exists lines,
    capture_iterator (map Byte.to_N) {[ "capture.txt" := body_A_lf ]}
      "capture.txt" 2 0
    = Ok (map (map Byte.to_N) lines)
    /\ concat lines = skipn 2 body_A_lf.
Proof.
  destruct (capture_iterator_whole (map Byte.to_N)
              {[ "capture.txt" := body_A_lf ]} "capture.txt" 2
              (skipn 2 body_A_lf))
    as (lines & H1 & H2 & _).
  - vm_compute. reflexivity.
  - exists lines. split; [exact H1 | exact H2].
Defined.

(** * One capture per console *)

Lemma append_inj_l (p a b : string) : p +:+ a = p +:+ b -> a = b.
Proof.
  intros H. apply list_ascii_inj.
  apply (f_equal list_ascii_of_string) in H. rewrite !list_ascii_app in H.
  now apply app_inv_head in H.
Qed.

Lemma poll_context_named target c :
  c <> "" ->
  _poll_context target (Some c)
  = "console-" +:+ want_name target +:+ "." +:+ target_id target +:+ "." +:+ c.
Proof.
  intros Hc. unfold _poll_context.
  destruct (String.eqb c "") eqn:E; [|reflexivity].
  apply String.eqb_eq in E. contradiction.
Qed.

Lemma capture_filename_inj target c1 c2 :
  c1 <> "" -> c2 <> "" ->
  capture_filename target (Some c1) = capture_filename target (Some c2) ->
  c1 = c2.
Proof.
  intros H1 H2 H. unfold capture_filename in H.
  rewrite !poll_context_named in H by assumption.
  apply append_inj_l, append_inj_r in H.
  now repeat apply append_inj_l in H.
Qed.

(** X24. Each console of a target has a capture file of its own:
    polling one console, whether this poll sets the capture up or not,
    leaves the capture file of every other console of the target as it
    was. *)
Theorem poll_leaves_other_consoles srv size self st other :
  console self <> "" -> other <> "" -> other <> console self ->
  buffers_poll st !! "of" = None
  \/ buffers_poll st !! "of"
     = Some (VFile (capture_filename (target self) (Some (console self)))) ->
  capture_filename (target self) (Some other)
  <> capture_filename (target self) (Some (console self))
  /\ files (snd (poll srv size self st))
       !! capture_filename (target self) (Some other)
     = files st !! capture_filename (target self) (Some other).
Proof.
  intros Hc Ho Hne Hof.
  assert (Hfile : capture_filename (target self) (Some other)
                  <> capture_filename (target self) (Some (console self))).
  { intros H. now apply capture_filename_inj in H. }
  split; [exact Hfile|].
  set (mine := capture_filename (target self) (Some (console self))) in *.
  unfold poll. destruct Hof as [Hof|Hof]; rewrite Hof.
  - unfold _poll_context_init.
    destruct (buffers_poll st !! "read_offset"); [reflexivity|].
    fold mine.
    match goal with
    | |- context [_poll srv self ?s] =>
        destruct (_poll_frame srv self s) as (G & _ & _);
        destruct (G mine) as (_ & Hother & _)
    end.
    { cbn [buffers_poll]. now rewrite lookup_insert_eq. }
    rewrite Hother by exact Hfile. cbn [files]. unfold open_append, rm_f.
    destruct (delete mine (files st) !! mine).
    + now rewrite lookup_delete_ne by congruence.
    + rewrite lookup_insert_ne by congruence.
      now rewrite lookup_delete_ne by congruence.
  - destruct (_poll_frame srv self st) as (G & _ & _).
    destruct (G mine Hof) as (_ & Hother & _). now apply Hother.
Qed.

Lemma poll_leaves_other_consoles_witness :
  files (snd (poll session_transport (Some 0) (expect_login "" ReportNone)
                stale_state))
    !! capture_filename a_target (Some "ssh0")
  = files stale_state !! capture_filename a_target (Some "ssh0").
Proof.
  apply (poll_leaves_other_consoles session_transport (Some 0)
           (expect_login "" ReportNone) stale_state "ssh0").
  - discriminate.
  - discriminate.
  - discriminate.
  - left. vm_compute. reflexivity.
Defined.

(** * Synchronising before a send *)

Lemma polls_keys n srv self : forall st key,
  key <> "read_offset" -> key <> "generation" ->
  buffers_poll (snd (polls n srv self st)) !! key = buffers_poll st !! key.
Proof.
  induction n as [|n IH]; intros st key K1 K2; [reflexivity|].
  cbn [polls].
  destruct (_poll_frame srv self st) as (_ & H & _).
  destruct (_poll srv self st) as [[u|e] st'].
  - rewrite IH by assumption. now apply H.
  - now apply H.
Qed.

Lemma nonempty_occurrence_inside (b data : bytes) j :
  b <> [] -> occurs_at b data j -> (j < length data)%nat.
Proof.
  intros Hb (pre & post & -> & <-). rewrite !length_app.
  destruct b; [contradiction|]. cbn [length]. lia.
Qed.

(** X25. Synchronising before a send makes the expectations that
    follow look only at what comes next: [send_expect_sync], for the
    console and detect context of an expectation, stores the current
    size of the capture as the search offset; right after it an
    expectation of a text that is not empty finds nothing, and whatever
    is polled later, a match of the expectation starts at or after the
    size the capture had. *)
Theorem send_expect_sync_skips_captured ext self carg st filename :
  _console_get ext carg = Ok (console self) ->
  buffers_poll st !! "of" = Some (VFile filename) ->
  let size := blen (file_contents st filename) in
  let synced := send_expect_sync ext carg (detect_context self) st in
  fst synced = Ok tt
  /\ get_int (buffers_poll (snd synced))
       (detect_context_of self +:+ "search_offset") 0 = Ok size
  /\ (forall b, regex self = compiled_literal b -> b <> [] ->
        fst (detect self (snd synced)) = Ok None)
  /\ (forall n srv md,
        fst (detect self (snd (polls n srv self (snd synced)))) = Ok (Some md) ->
        size <= offset md /\ size <= offset_match_start md).
Proof.
  intros Hc Hof size synced.
  assert (Hctx : (if String.eqb (detect_context self) "" then console self
                  else detect_context self) = detect_context_of self)
    by reflexivity.
  assert (Hsync : synced
                  = (Ok tt,
                     set_buffers_poll
                       (<[detect_context_of self +:+ "search_offset" := VInt size]>
                          (buffers_poll st)) st)).
  { unfold synced, send_expect_sync. rewrite Hc, Hof, Hctx. reflexivity. }
  rewrite Hsync. cbn [fst snd].
  set (key := detect_context_of self +:+ "search_offset") in *.
  set (st1 := set_buffers_poll (<[key := VInt size]> (buffers_poll st)) st).
  assert (Hkey : get_int (buffers_poll st1) key 0 = Ok size).
  { unfold get_int, st1. cbn [set_buffers_poll buffers_poll].
    now rewrite lookup_insert_eq. }
  assert (Hof1 : buffers_poll st1 !! "of" = Some (VFile filename)).
  { unfold st1. cbn [set_buffers_poll buffers_poll].
    rewrite lookup_insert_ne; [exact Hof|].
    apply (cursor_key_not_fixed (detect_context_of self) "of"). now left. }
  split; [reflexivity|]. split; [exact Hkey|]. split.
  - intros b Hre Hb.
    destruct (file_contents st filename) as [|c data] eqn:Hdata.
    + unfold detect. rewrite Hof1.
      change (file_contents st1 filename) with (file_contents st filename).
      rewrite Hdata. reflexivity.
    + apply (detect_plain_none_iff self st1 filename b size Hre Hof1).
      * change (file_contents st1 filename) with (file_contents st filename).
        rewrite Hdata. discriminate.
      * exact Hkey.
      * change (file_contents st1 filename) with (file_contents st filename).
        unfold size. rewrite Hdata. unfold blen. lia.
      * change (file_contents st1 filename) with (file_contents st filename).
        intros j Hj. apply nonempty_occurrence_inside in Hj; [|exact Hb].
        unfold size, blen. rewrite Nat2Z.id, <- Hdata. exact Hj.
  - intros n srv md Hmd.
    assert (K : get_int (buffers_poll (snd (polls n srv self st1))) key 0 = Ok size).
    { unfold get_int. rewrite polls_keys.
      - exact Hkey.
      - apply (cursor_key_not_fixed (detect_context_of self) "read_offset"). auto.
      - apply (cursor_key_not_fixed (detect_context_of self) "generation"). auto. }
    destruct (detect_offsets self _ md size K Hmd) as (H1 & H2 & _).
    split; assumption.
Qed.

Lemma send_expect_sync_skips_captured_witness :
  fst (send_expect_sync a_console None "" state_A) = Ok tt
  /\ fst (detect (expect_login "" ReportNone)
            (snd (send_expect_sync a_console None "" state_A))) = Ok None.
Proof.
  destruct (send_expect_sync_skips_captured a_console (expect_login "" ReportNone)
              None state_A "report-console-target.t0.serial0.txt")
    as (H1 & _ & H2 & _).
  - vm_compute. reflexivity.
  - vm_compute. reflexivity.
  - split; [exact H1|].
    apply (H2 (bytes_of_string "login:")); [reflexivity | discriminate].
Defined.

(** * The console wall *)

Lemma last_In (l : list string) d : l <> [] -> In (List.last l d) l.
Proof.
  induction l as [|x l IH]; [congruence|]. intros _.
  destruct l as [|y l]; [now left|].
  right. apply IH. discriminate.
Qed.

Lemma last_tail (x : string) l d : l <> [] -> List.last (x :: l) d = List.last l d.
Proof. destruct l; [congruence | reflexivity]. Qed.

Lemma head_not_last (x : string) l :
  List.NoDup (x :: l) -> l <> [] -> String.eqb x (List.last (x :: l) "") = false.
Proof.
  intros Hnd Hne. apply String.eqb_neq. intros H.
  apply List.NoDup_cons_iff in Hnd as [Hx _].
  apply Hx. rewrite H at 1. rewrite last_tail by exact Hne.
  now apply last_In.
Qed.

Lemma regions_cons_screen t out : regions (ScreenLine t :: out) = regions out.
Proof. reflexivity. Qed.

Lemma regions_app a b : (regions (a ++ b) + 1 = regions a + regions b)%nat.
Proof. unfold regions. rewrite List.filter_app, length_app. lia. Qed.

Lemma windows_app a b : windows (a ++ b) = windows a ++ windows b.
Proof. apply flat_map_app. Qed.

(** A row with more names left than it has columns. *)
Lemma wall_columns_full k : forall it item,
  List.NoDup it -> (k < length it)%nat ->
  exists out item',
    wall_columns k it item (List.last it "") = (out, (skipn k it, item', false))
    /\ windows out = firstn k it
    /\ (1 <= k -> regions out = k)%nat.
Proof.
  induction k as [|k IH]; intros it item Hnd Hlen.
  - exists [], item. cbn. repeat split. lia.
  - destruct it as [|x it]; [cbn in Hlen; lia|].
    cbn [length] in Hlen. cbn [wall_columns].
    assert (Hne : it <> []) by (intros ->; cbn in Hlen; lia).
    rewrite head_not_last by assumption.
    rewrite last_tail by exact Hne.
    apply List.NoDup_cons_iff in Hnd as [_ Hnd].
    destruct (IH it x Hnd ltac:(lia)) as (more & item' & E & W & R).
    rewrite E. eexists _, item'. split; [reflexivity|].
    split; [unfold windows in *; destruct k; cbn [flat_map app]; now rewrite W|].
    intros _. destruct k as [|k].
    + assert (more = []) as -> by (cbn in E; congruence). reflexivity.
    + change (regions (ScreenLine x :: SplitVertical :: more))
        with (S (regions more)). rewrite R by lia. reflexivity.
Qed.

(** A row in which the names left come to an end. *)
Lemma wall_columns_end k : forall it item,
  List.NoDup it -> it <> [] -> (length it <= k)%nat ->
  exists out,
    wall_columns k it item (List.last it "")
    = (out, ([], List.last it "", false))
    /\ windows out = it
    /\ regions out = length it.
Proof.
  induction k as [|k IH]; intros it item Hnd Hne Hlen.
  - destruct it; [congruence | cbn in Hlen; lia].
  - destruct it as [|x it]; [congruence|].
    cbn [length] in Hlen. cbn [wall_columns].
    destruct (decide (it = [])) as [->|Hne'].
    + cbn [List.last]. rewrite String.eqb_refl.
      exists [ScreenLine x]. repeat split.
    + rewrite head_not_last by assumption.
      rewrite last_tail by exact Hne'.
      apply List.NoDup_cons_iff in Hnd as [_ Hnd].
      destruct (IH it x Hnd Hne' ltac:(lia)) as (more & E & W & R).
      rewrite E. eexists. split; [reflexivity|].
      split; [unfold windows in *; destruct k; cbn [flat_map app]; now rewrite W|].
      destruct k as [|k]; [destruct it; [congruence | cbn in Hlen; lia]|].
      change (regions (ScreenLine x :: SplitVertical :: more))
        with (S (regions more)). now rewrite R.
Qed.

Lemma last_skipn (it : list string) d : forall k,
  (k < length it)%nat -> List.last (skipn k it) d = List.last it d.
Proof.
  induction it as [|x it IH]; intros k Hk; [cbn in Hk; lia|].
  destruct k as [|k]; [reflexivity|]. cbn [skipn length] in *.
  rewrite IH by lia. symmetry. apply last_tail.
  destruct it; [cbn in Hk; lia | discriminate].
Qed.

Lemma NoDup_skipn (it : list string) k : List.NoDup it -> List.NoDup (skipn k it).
Proof.
  intros H. rewrite <- (firstn_skipn k it) in H.
  now apply List.NoDup_app_remove_l in H.
Qed.

Lemma firstn_plus (it : list string) a b :
  firstn (a + b) it = firstn a it ++ firstn b (skipn a it).
Proof.
  revert it. induction a as [|a IH]; intros it; [reflexivity|].
  destruct it as [|x it]; [now destruct b|].
  cbn [Nat.add firstn skipn app]. now rewrite IH.
Qed.

(** Rows enough for the names left, none of them left empty: the
    windows are the names, as many as there are cells. *)
Lemma wall_rows_fit k : forall r it item,
  (1 <= k)%nat -> List.NoDup it -> it <> [] -> (r * k < length it + k)%nat ->
  (1 <= r)%nat ->
  windows (wall_rows r k it item (List.last it "")) = firstn (r * k) it
  /\ ((length it <= r * k)%nat ->
      (regions (wall_rows r k it item (List.last it "")) + r
       = length it + 1)%nat).
Proof.
  induction r as [|r IH]; intros it item Hk Hnd Hne Hlen Hr; [lia|].
  cbn [wall_rows].
  destruct (Nat.le_gt_cases (length it) k) as [Hrow|Hrow].
  - destruct (wall_columns_end k it item Hnd Hne Hrow) as (out & E & W & R).
    rewrite E. rewrite firstn_all2 by lia.
    destruct r as [|r].
    + cbn [wall_rows]. rewrite app_nil_r. split; [exact W|]. intros _. lia.
    + exfalso. cbn in Hlen. nia.
  - destruct (wall_columns_full k it item Hnd Hrow) as (out & item' & E & W & R).
    rewrite E.
    destruct r as [|r].
    + cbn [wall_rows]. rewrite app_nil_r. rewrite Nat.mul_1_l.
      split; [exact W|]. intros H. lia.
    + assert (Hne' : skipn k it <> []).
      { intros H. apply (f_equal (@length string)) in H.
        rewrite length_skipn in H. cbn in H. lia. }
      destruct (IH (skipn k it) item' Hk (NoDup_skipn it k Hnd) Hne')
        as [W' R'].
      { rewrite length_skipn. cbn in Hlen |- *. nia. }
      { lia. }
      rewrite last_skipn in W', R' by exact Hrow.
      rewrite windows_app, W, W'. split.
      * change (S (S r) * k)%nat with (k + S r * k)%nat.
        now rewrite firstn_plus.
      * intros H. pose proof (regions_app out
                     (wall_rows (S r) k (skipn k it) item' (List.last it ""))) as Ha.
        rewrite length_skipn in R'. specialize (R Hk).
        assert (length it - k <= S r * k)%nat by (cbn in H |- *; lia).
        specialize (R' ltac:(assumption)). lia.
Qed.

(** A row to spare: the last name is given a second window. *)
Lemma wall_rows_spare k : forall r it item,
  (1 <= k)%nat -> List.NoDup it -> it <> [] -> (length it + k <= r * k)%nat ->
  windows (wall_rows r k it item (List.last it ""))
  = it ++ [List.last it ""].
Proof.
  induction r as [|r IH]; intros it item Hk Hnd Hne Hlen.
  - cbn in Hlen. lia.
  - cbn [wall_rows].
    destruct (Nat.le_gt_cases (length it) k) as [Hrow|Hrow].
    + destruct (wall_columns_end k it item Hnd Hne Hrow) as (out & E & W & R).
      rewrite E. destruct r as [|r]; [cbn in Hlen; destruct it; [congruence | cbn in Hlen; lia]|].
      cbn [wall_rows]. destruct k as [|k]; [lia|]. cbn [wall_columns].
      rewrite windows_app, W. reflexivity.
    + destruct (wall_columns_full k it item Hnd Hrow) as (out & item' & E & W & R).
      rewrite E.
      assert (Hne' : skipn k it <> []).
      { intros H. apply (f_equal (@length string)) in H.
        rewrite length_skipn in H. cbn in H. lia. }
      rewrite windows_app, W.
      rewrite <- (last_skipn it "" k Hrow).
      rewrite IH; try assumption.
      * rewrite last_skipn by exact Hrow.
        now rewrite app_assoc, firstn_skipn.
      * now apply NoDup_skipn.
      * rewrite length_skipn. cbn in Hlen. lia.
Qed.

(** No row at all, or no column: no window. *)
Lemma wall_rows_none r k it item last :
  r = 0%nat \/ k = 0%nat -> windows (wall_rows r k it item last) = [].
Proof.
  intros [-> | ->]; [reflexivity|].
  revert it item. induction r as [|r IH]; intros it item; [reflexivity|].
  cbn [wall_rows wall_columns]. apply IH.
Qed.

Lemma windows_header n out :
  windows (repeat SplitLine n ++ FocusTop :: out) = windows out.
Proof. induction n as [|n IH]; [reflexivity | exact IH]. Qed.

Lemma regions_header n out :
  regions (repeat SplitLine n ++ FocusTop :: out) = (n + regions out)%nat.
Proof.
  induction n as [|n IH]; [reflexivity|].
  change (regions (repeat SplitLine (S n) ++ FocusTop :: out))
    with (S (regions (repeat SplitLine n ++ FocusTop :: out))).
  rewrite IH. reflexivity.
Qed.

Lemma default_grid n :
  1 <= n ->
  let rows := Z.sqrt n in
  let columns := (n + rows - 1) / rows in
  1 <= rows /\ 1 <= columns
  /\ (rows - 1) * columns < n <= rows * columns.
Proof.
  intros Hn rows columns.
  assert (Hr : 1 <= rows).
  { unfold rows. change 1 with (Z.sqrt 1). apply Z.sqrt_le_mono. lia. }
  pose proof (Z.sqrt_spec n ltac:(lia)) as [Hlo _]. fold rows in Hlo.
  pose proof (Z.div_mod (n + rows - 1) rows ltac:(lia)) as Hdm.
  pose proof (Z.mod_pos_bound (n + rows - 1) rows ltac:(lia)) as Hm.
  fold columns in Hdm.
  assert (Hc : rows <= columns) by nia.
  split; [exact Hr|]. split; [lia|]. nia.
Qed.

(** X26. The console wall, laid out by default: for consoles with
    distinct names, the configuration divides the terminal into as many
    regions as there are consoles and starts one window for each
    console, in the order of the names. *)
Theorem console_wall_default names :
  names <> [] -> List.NoDup names ->
  exists config,
    _cmdline_console_wall names None None = Ok (Some config)
    /\ windows config = names
    /\ regions config = length names.
Proof.
  intros Hne Hnd.
  destruct (default_grid (Z.of_nat (length names))) as (Hr & Hc & Hlo & Hhi).
  { destruct names; [congruence | cbn [length]; lia]. }
  set (n := Z.of_nat (length names)) in *.
  set (rows := Z.sqrt n) in *.
  set (columns := (n + rows - 1) / rows) in *.
  exists (wall_config names rows columns). split.
  { unfold _cmdline_console_wall, wall_grid. cbn [given andb]. fold n rows.
    replace (rows =? 0) with false by (symmetry; apply Z.eqb_neq; lia).
    destruct names; [congruence | reflexivity]. }
  unfold wall_config. rewrite windows_header, regions_header.
  assert (Hmul : Z.of_nat (Z.to_nat rows * Z.to_nat columns) = rows * columns)
    by (rewrite Nat2Z.inj_mul, !Z2Nat.id; lia).
  destruct (wall_rows_fit (Z.to_nat columns) (Z.to_nat rows) names "")
    as [W R]; try assumption; try lia.
  split.
  - rewrite W. apply firstn_all2. lia.
  - specialize (R ltac:(lia)). lia.
Qed.

Lemma console_wall_default_witness :
  exists config,
    _cmdline_console_wall
      ["local/t0|serial0"; "local/t0|ssh0"; "local/t1|serial0";
       "local/t1|ssh0"; "local/t2|serial0"] None None
    = Ok (Some config)
    /\ windows config
       = ["local/t0|serial0"; "local/t0|ssh0"; "local/t1|serial0";
          "local/t1|ssh0"; "local/t2|serial0"]
    /\ regions config = 5%nat.
Proof.
  apply (console_wall_default
           ["local/t0|serial0"; "local/t0|ssh0"; "local/t1|serial0";
            "local/t1|ssh0"; "local/t2|serial0"]).
  - discriminate.
  - repeat constructor; cbn; intuition discriminate.
Defined.

(** X27. The console wall with the rows or the columns fixed: with
    [columns] given, the rows are those the consoles fill up and only
    the consoles that fit in them get a window; with [rows] given, every
    console gets one, and the last console a second one when the
    columns needed leave a row to spare. *)
Theorem console_wall_fixed names :
  names <> [] -> List.NoDup names ->
  let n := Z.of_nat (length names) in
  (forall columns, 1 <= columns ->
     exists config,
       _cmdline_console_wall names None (Some columns) = Ok (Some config)
       /\ windows config = firstn (Z.to_nat (n / columns * columns)) names)
  /\ (forall rows, 1 <= rows ->
        exists config,
          _cmdline_console_wall names (Some rows) None = Ok (Some config)
          /\ windows config
             = if n <=? (rows - 1) * ((n + rows - 1) / rows)
               then names ++ [List.last names ""]
               else names).
Proof.
  intros Hne Hnd n.
  assert (Hn : 1 <= n).
  { unfold n. destruct names; [congruence | cbn [length]; lia]. }
  split.
  - intros columns Hc.
    exists (wall_config names (n / columns) columns). split.
    { unfold _cmdline_console_wall, wall_grid. cbn [given andb]. fold n.
      replace (columns =? 0) with false by (symmetry; apply Z.eqb_neq; lia).
      destruct names; [congruence | reflexivity]. }
    unfold wall_config. rewrite windows_header.
    pose proof (Z.div_pos n columns ltac:(lia) ltac:(lia)) as Hq.
    pose proof (Z.mul_div_le n columns ltac:(lia)) as Hle.
    destruct (Z.eq_dec (n / columns) 0) as [E0|E0].
    + rewrite E0. cbn [Z.to_nat Z.mul firstn]. now apply wall_rows_none; left.
    + assert (Hmul : (Z.to_nat (n / columns) * Z.to_nat columns)%nat
                     = Z.to_nat (n / columns * columns))
        by (rewrite Z2Nat.inj_mul; lia).
      destruct (wall_rows_fit (Z.to_nat columns) (Z.to_nat (n / columns)) names "")
        as [W _]; try assumption; try lia.
      now rewrite W, Hmul.
  - intros rows Hr.
    set (columns := (n + rows - 1) / rows).
    exists (wall_config names rows columns). split.
    { unfold _cmdline_console_wall, wall_grid. cbn [given andb]. fold n.
      rewrite andb_false_r.
      replace (rows =? 0) with false by (symmetry; apply Z.eqb_neq; lia).
      destruct names; [congruence | reflexivity]. }
    unfold wall_config. rewrite windows_header.
    pose proof (Z.div_mod (n + rows - 1) rows ltac:(lia)) as Hdm.
    pose proof (Z.mod_pos_bound (n + rows - 1) rows ltac:(lia)) as Hm.
    fold columns in Hdm.
    assert (Hc : 1 <= columns) by nia.
    assert (Hhi : n <= rows * columns) by lia.
    assert (Hmul : Z.of_nat (Z.to_nat rows * Z.to_nat columns) = rows * columns)
      by (rewrite Nat2Z.inj_mul, !Z2Nat.id; lia).
    destruct (n <=? (rows - 1) * columns) eqn:E.
    + apply Z.leb_le in E. apply wall_rows_spare; try assumption; lia.
    + apply Z.leb_gt in E.
      destruct (wall_rows_fit (Z.to_nat columns) (Z.to_nat rows) names "")
        as [W _]; try assumption; try lia.
      rewrite W. apply firstn_all2. lia.
Qed.

Lemma console_wall_fixed_witness :
  (exists config,
     _cmdline_console_wall ["local/t0|serial0"; "local/t0|ssh0"; "local/t1|serial0"]
       None (Some 2)
     = Ok (Some config)
     /\ windows config = ["local/t0|serial0"; "local/t0|ssh0"])
  /\ (exists config,
        _cmdline_console_wall ["local/t0|serial0"; "local/t0|ssh0"; "local/t1|serial0"]
          (Some 2) None
        = Ok (Some config)
        /\ windows config
           = ["local/t0|serial0"; "local/t0|ssh0"; "local/t1|serial0"]).
Proof.
  destruct (console_wall_fixed
              ["local/t0|serial0"; "local/t0|ssh0"; "local/t1|serial0"])
    as [Hcols Hrows].
  - discriminate.
  - repeat constructor; cbn; intuition discriminate.
  - split.
    + destruct (Hcols 2 ltac:(lia)) as (config & E & W).
      exists config. split; [exact E|]. exact W.
    + destruct (Hrows 2 ltac:(lia)) as (config & E & W).
      exists config. split; [exact E|]. exact W.
Defined.
